(** * Hand-drawn spiral / wave screening application

    A shallow embedding of the application's own logic:
    - [utils/report_generator.py]: decision fusion, narrative selection and
      the HTML report template;
    - [utils/image_processor.py]: image preparation and the Grad-CAM
      normalisation;
    - [utils/model_loader.py]: the model provider and its loaded/unloaded
      state;
    - [app.py]: the [/analyze] endpoint.

    Scores and heatmap entries are finite floating-point numbers in the
    program; each of them is a rational number, and they are embedded here as
    [Q].  Comparisons and maxima of finite floats coincide with those of the
    rationals they denote.  The additions and divisions of the Grad-CAM
    normalisation are float32 operations: the exact result, rounded (module
    [Float]).  Where the program can produce a value that is not a finite
    number (a division by zero) the embedding says so explicitly with an
    [option].

    Calls into OpenCV, Keras / TensorFlow, PIL, the JSON parser and the
    float formatter are not code of this repository: they appear as fields of
    the record [Externals] and every definition is parametric in it. *)

From Stdlib Require Import ZArith NArith QArith Qminmax Qround Qpower Qabs.
From Stdlib Require Import SpecFloat.
From Stdlib Require Import Bool List.
From Stdlib Require Import String Ascii DecimalString Lia Lqa.
Import ListNotations.

(** ** Python comparison operators on scores *)

(** [x <= y] *)
Definition py_le (x y : Q) : bool := Qle_bool x y.

(** [x > y] *)
Definition py_gt (x y : Q) : bool :=
  match (x ?= y)%Q with Gt => true | _ => false end.

(** The built-in [max(a, b)]: the first argument is kept unless the second
    one is strictly greater. *)
Definition py_max (a b : Q) : Q := if py_gt b a then b else a.

(** ** Python text

    A Python [str] is a sequence of Unicode code points (lone surrogates
    included, which is what [json.loads] produces for an escape such as
    [\ud800]).  String literals of the source are kept as the bytes of the
    source file and decoded from UTF-8. *)

Definition pystr := list N.

Fixpoint utf8_decode (l : list N) : pystr :=
  match l with
  | [] => []
  | b0 :: r =>
    if (b0 <? 128)%N then b0 :: utf8_decode r else
    match r with
    | [] => []
    | b1 :: r1 =>
      if (b0 <? 224)%N then
        ((b0 - 192) * 64 + (b1 - 128))%N :: utf8_decode r1
      else
      match r1 with
      | [] => []
      | b2 :: r2 =>
        if (b0 <? 240)%N then
          ((b0 - 224) * 4096 + (b1 - 128) * 64 + (b2 - 128))%N
            :: utf8_decode r2
        else
        match r2 with
        | [] => []
        | b3 :: r3 =>
          ((b0 - 240) * 262144 + (b1 - 128) * 4096
           + (b2 - 128) * 64 + (b3 - 128))%N :: utf8_decode r3
        end
      end
    end
  end.

Definition bytes_of_string (s : string) : list N :=
  map N_of_ascii (list_ascii_of_string s).

(** A literal of the source as a Python [str]. *)
Definition text (s : string) : pystr := utf8_decode (bytes_of_string s).

Fixpoint pystr_eqb (a b : pystr) : bool :=
  match a, b with
  | [], [] => true
  | x :: a, y :: b => (x =? y)%N && pystr_eqb a b
  | _, _ => false
  end.

(** [str(n)] for an integer. *)
Definition str_of_Z (z : Z) : pystr :=
  text (NilZero.string_of_int (Z.to_int z)).

(** [str.isspace] on one code point, the set removed by [str.strip()]. *)
Definition is_space (c : N) : bool :=
  ((9 <=? c) && (c <=? 13) || (28 <=? c) && (c <=? 32)
   || (c =? 133) || (c =? 160) || (c =? 5760)
   || (8192 <=? c) && (c <=? 8202)
   || (c =? 8232) || (c =? 8233) || (c =? 8239) || (c =? 8287)
   || (c =? 12288))%N.

Fixpoint lstrip (s : pystr) : pystr :=
  match s with
  | c :: r => if is_space c then lstrip r else s
  | [] => []
  end.

Definition rstrip (s : pystr) : pystr := rev (lstrip (rev s)).

(** [s.strip()] *)
Definition strip (s : pystr) : pystr := rstrip (lstrip s).

(** [s.replace(' ', '_')] *)
Definition replace_space_underscore (s : pystr) : pystr :=
  map (fun c => if (c =? 32)%N then 95%N else c) s.

(** ** Exceptions

    An exception has its Python class and its message, [str(e)]; the
    messages of the exceptions raised by the runtime itself are
    abbreviated. *)

Inductive exn_kind :=
| FileNotFoundError | ValueError | RuntimeError | TypeError | AttributeError
| UnicodeEncodeError | LibraryError.

Record exn := mkExn { exn_type : exn_kind; exn_msg : pystr }.

Inductive outcome (A : Type) :=
| Ret (a : A)
| Raise (e : exn).
Arguments Ret {A} a.
Arguments Raise {A} e.

(** ** Decision fusion and narrative ([ReportGenerator.generate_report]) *)

Module Fusion.

Definition threshold : Q := 1 # 2.

Record FusedResult := mkFused {
  has_parkinsons : bool;
  confidence_level : Q;
  confidence_source : string
}.

(** The two per-model flags computed just before the fusion. *)
Definition spiral_has_parkinsons (spiral_pred : Q) : bool :=
  py_gt spiral_pred threshold.
Definition wave_has_parkinsons (wave_pred : Q) : bool :=
  py_gt wave_pred threshold.

(** The "new confidence level logic" of [generate_report]. *)
Definition fuse (spiral_pred wave_pred : Q) : FusedResult :=
  if py_le spiral_pred threshold then
    mkFused false spiral_pred "Negative"
  else if py_le wave_pred threshold then
    mkFused false wave_pred "Negative"
  else
    mkFused true (py_max spiral_pred wave_pred) "Positive".

Record Narrative := mkNarrative {
  result_message : string;
  next_steps : string;
  gradcam_desc : string
}.

Definition reassuring : Narrative :=
  mkNarrative
    "No significant indicators of Parkinson's disease detected"
    "Continue with regular health check-ups and maintain a healthy lifestyle. If you have any concerns, consult with your healthcare provider during your next routine visit."
    "The analysis shows minimal to no areas of concern in your drawings. The heatmap highlights are within normal ranges.".

Definition concern : Narrative :=
  mkNarrative
    "Our analysis indicates potential early signs of Parkinson's disease"
    "We recommend consulting a neurologist within the next 2-4 weeks for a professional evaluation."
    "The heatmap analysis of your drawings shows areas of potential concern:

• Red regions indicate significant inconsistencies in drawing patterns

• Yellow areas show moderate variations from expected patterns

• Blue areas represent slight deviations from typical drawing characteristics

These highlighted regions are analyzed by our AI model to detect early indicators of Parkinson's disease.".

(** Narrative selection: a threshold on the confidence value only. *)
Definition narrative (confidence : Q) : Narrative :=
  if py_le confidence threshold then reassuring else concern.

End Fusion.

(** ** Binary floating-point arithmetic

    TensorFlow computes the heatmaps in IEEE 754 binary32.  A finite
    float is a rational number, and the result of an operation is its
    exact result rounded to the nearest number of the format, ties to the
    one with an even significand; it is an infinity when that rounding
    exceeds the largest finite number. *)

Module Float.
Local Open Scope Q_scope.

(** [2 ^ e] for an integer exponent. *)
Definition pow2 (e : Z) : Q := 2 ^ e.

(** The binary magnitude of [x]: the [e] with [2^(e-1) <= |x| < 2^e]. *)
Definition mag (x : Q) : Z :=
  match Qnum x with
  | Z0 => 0%Z
  | n =>
    let e0 := (Z.log2 (Z.abs n) - Z.log2 (Zpos (Qden x)))%Z in
    if Qle_bool (pow2 e0) (Qabs x) then (e0 + 1)%Z else e0
  end.

(** Rounding to the nearest integer, ties to the even one. *)
Definition rne (x : Q) : Z :=
  let f := Qfloor x in
  let c := Qceiling x in
  match Qcompare (x - inject_Z f) (inject_Z c - x) with
  | Lt => f
  | Gt => c
  | Eq => if Z.even f then f else c
  end.

(** The exponent of the unit in the last place of [x] in a binary format
    with [prec] significant bits whose smallest positive number is
    [2 ^ emin]. *)
Definition ulp_exp (prec emin : Z) (x : Q) : Z :=
  Z.max (mag x - prec) emin.

(** Rounding to nearest, ties to even, with the exponent unbounded above. *)
Definition round_to (prec emin : Z) (x : Q) : Q :=
  let e := ulp_exp prec emin x in
  inject_Z (rne (x / pow2 e)) * pow2 e.

(** IEEE 754 binary32 and binary64. *)
Definition round32 (x : Q) : Q := round_to 24 (-149) x.
Definition round64 (x : Q) : Q := round_to 53 (-1074) x.

(** The largest finite binary32 number, [(2 - 2^-23) * 2^127]. *)
Definition max_float32 : Q := inject_Z (2 ^ 24 - 1) * pow2 104.

(** The binary32 result of an operation whose exact result is [x]:
    [None] when it overflows to an infinity. *)
Definition float32 (x : Q) : option Q :=
  let r := round32 x in
  if Qle_bool (Qabs r) max_float32 then Some r else None.

Definition is_float32 (x : Q) : Prop :=
  exists r, float32 x = Some r /\ r == x.

(** For comparison, the binary32 operations of the Standard Library's
    specification of IEEE 754 ([SpecFloat], 24 bits of precision,
    exponents below 128), and the number a float of that specification
    denotes. *)
Definition spec_value (f : spec_float) : option Q :=
  match f with
  | S754_zero _ => Some 0
  | S754_finite s m e =>
    Some ((if s then -1 else 1) * inject_Z (Z.pos m) * pow2 e)
  | S754_infinity _ => None
  | S754_nan => None
  end.

Definition same_value (a b : option Q) : bool :=
  match a, b with
  | Some x, Some y => Qeq_bool x y
  | None, None => true
  | _, _ => false
  end.

(** Whether [float32] gives the sum and the quotient of [x] and [y] that
    the specification gives. *)
Definition agrees_on (x y : spec_float) : bool :=
  match spec_value x, spec_value y with
  | Some a, Some b =>
    same_value (float32 (a + b)) (spec_value (SFadd 24 128 x y))
    && (Qeq_bool b 0
        || same_value (float32 (a / b)) (spec_value (SFdiv 24 128 x y)))
  | _, _ => true
  end.

End Float.


(** ** Grad-CAM heatmaps ([ImageProcessor.make_*_gradcam]) *)

Module GradCam.
Import Float.
Local Open Scope Q_scope.

(** One entry of a float32 tensor that an operation has produced: a
    finite number, or [None] for what is not one (NaN for [0/0], an
    infinity for an overflow or a division of a non-zero number by
    zero).  The two zeros of the format are both the number 0. *)
Definition fval := option Q.

Definition tensor2 := list (list Q).          (* height x width *)
Definition tensor3 := list (list (list Q)).   (* height x width x channels *)
Definition heatmap := list (list fval).

(** The literals [1e-8] and [1e-10] are doubles; added to a float32
    tensor they are converted to float32 (see
    [GradCamFacts.spiral_eps_literal] and [GradCamFacts.wave_eps_literal]). *)
Definition spiral_eps : Q := 11258999 # 1125899906842624.
Definition wave_eps : Q := 14411519 # 144115188075855872.

(** Float32 addition and division of finite numbers. *)
Definition fadd (x y : Q) : fval := float32 (x + y).

Definition fdiv (x d : Q) : fval :=
  if Qeq_bool d 0 then None else float32 (x / d).

Definition Qsum (l : list Q) : Q := fold_right Qplus 0 l.

(** [tf.reduce_max] over all entries; [None] is the minus infinity that
    TensorFlow returns for a tensor without entries. *)
Fixpoint max_list (l : list Q) : option Q :=
  match l with
  | [] => None
  | x :: r =>
    match max_list r with
    | None => Some x
    | Some m => Some (Qmax x m)
    end
  end.

Definition reduce_max (t : tensor2) : option Q := max_list (List.concat t).

(** The entries of a tensor when all of them are finite. *)
Fixpoint all_finite (l : list fval) : option (list Q) :=
  match l with
  | [] => Some []
  | Some x :: r => option_map (cons x) (all_finite r)
  | None :: _ => None
  end.

(** [tf.reduce_max] of a tensor of sums [x + eps] with [eps] positive: an
    entry that is not finite is plus infinity, and so is the maximum
    then; [None] is that infinity, or the minus infinity of a tensor
    without entries. *)
Definition reduce_max_sums (t : heatmap) : option Q :=
  match all_finite (List.concat t) with
  | Some l => max_list l
  | None => None
  end.

Definition tmap {A B} (f : A -> B) (t : list (list A)) : list (list B) :=
  map (map f) t.

(** [tf.maximum(heatmap, 0)] *)
Definition relu (t : tensor2) : tensor2 := tmap (fun x => Qmax x 0) t.

(** Entrywise division of a tensor by a scalar; a finite value divided by
    an infinity is zero. *)
Definition tdiv (t : tensor2) (d : option Q) : heatmap :=
  match d with
  | Some d => tmap (fun x => fdiv x d) t
  | None => tmap (fun _ => Some 0) t
  end.

(** Spiral: [tf.maximum(heatmap, 0) / tf.reduce_max(heatmap + 1e-8)];
    the denominator is taken over the heatmap as it is before clipping. *)
Definition normalize_spiral (raw : tensor2) : heatmap :=
  tdiv (relu raw)
       (reduce_max_sums (tmap (fun x => fadd x spiral_eps) raw)).

(** Wave: [heatmap = tf.maximum(heatmap, 0)] and then
    [heatmap / (tf.reduce_max(heatmap) + 1e-10)]. *)
Definition normalize_wave (raw : tensor2) : heatmap :=
  let clipped := relu raw in
  tdiv clipped
       (match reduce_max clipped with
        | Some m => fadd m wave_eps
        | None => None
        end).

(** [tf.reduce_mean(grads, axis=(0, 1, 2))] for a batch of one, and the
    product with the feature maps.  The order in which TensorFlow adds
    the terms of these sums, and so their rounding, is not fixed by the
    program; they are written here with exact sums. *)
Definition pixels (t : tensor3) : list (list Q) := List.concat t.

Definition n_channels (t : tensor3) : nat :=
  match pixels t with [] => 0%nat | px :: _ => List.length px end.

Definition pooled_grads (grads : tensor3) : list Q :=
  map (fun c =>
         Qsum (map (fun px => nth c px 0) (pixels grads))
         / inject_Z (Z.of_nat (List.length (pixels grads))))
      (seq 0 (n_channels grads)).

Definition dot (v w : list Q) : Q :=
  Qsum (map (fun p => fst p * snd p) (combine v w)).

(** [conv_outputs[0] @ pooled_grads[..., tf.newaxis]], squeezed. *)
Definition weighted_sum (conv_outputs : tensor3) (w : list Q) : tensor2 :=
  tmap (fun px => dot px w) conv_outputs.

(** The heatmaps from the captured feature maps and their gradients. *)
Definition make_spiral_gradcam (conv_outputs grads : tensor3) : heatmap :=
  normalize_spiral (weighted_sum conv_outputs (pooled_grads grads)).

Definition make_wave_gradcam (conv_outputs grads : tensor3) : heatmap :=
  normalize_wave (weighted_sum conv_outputs (pooled_grads grads)).

(** Predicates on heatmaps used to state the properties. *)
Definition entries {A} (t : list (list A)) : list A := List.concat t.

(** A tensor of float32 numbers. *)
Definition float32_tensor (t : tensor2) : Prop :=
  Forall is_float32 (entries t).

Definition in_unit_interval (v : fval) : Prop :=
  exists q, v = Some q /\ 0 <= q /\ q <= 1.

Definition is_value (c : Q) (v : fval) : Prop :=
  exists q, v = Some q /\ q == c.

Definition bounded_by (c : Q) (v : fval) : Prop :=
  exists q, v = Some q /\ q <= c.

(** What the normalisation guarantees for a raw heatmap [raw] and its
    output [out], with [eps] the constant added to the maximum: the
    shape, the range, the zero heatmap of a raw heatmap without a
    positive entry, and, when the largest raw entry [m] is positive, the
    largest entry of the output: the float32 quotient of [m] by the
    float32 sum of [m] and [eps], which is at most 1, and exactly 1 as soon
    as [m] is at least [full], since [eps] is then lost in the sum. *)
Definition normalised (eps full : Q) (raw : tensor2) (out : heatmap) : Prop :=
  map (@List.length fval) out = map (@List.length Q) raw
  /\ Forall in_unit_interval (entries out)
  /\ (Forall (fun x => x <= 0) (entries raw) ->
      Forall (is_value 0) (entries out))
  /\ (forall m, reduce_max raw = Some m -> 0 < m ->
      exists d top,
        fadd m eps = Some d
        /\ fdiv m d = Some top
        /\ Exists (is_value top) (entries out)
        /\ Forall (bounded_by top) (entries out)
        /\ top <= 1
        /\ (full <= m -> top == 1)).

(** From which largest raw entry on the largest entry of the heatmap is
    exactly 1. *)
Definition spiral_full : Q := 1 # 4.
Definition wave_full : Q := 1 # 512.

(** The denominator of the spiral normalisation is not zero, that is, the
    largest entry of the raw heatmap is not exactly minus the float32
    [1e-8]. *)
Definition spiral_denominator_nonzero (raw : tensor2) : Prop :=
  forall m, reduce_max raw = Some m -> ~ m == - spiral_eps.

(** The property as the specification words it, for one raw heatmap. *)
Definition spec_gradcam_property (norm : tensor2 -> heatmap)
           (raw : tensor2) : Prop :=
  Forall in_unit_interval (entries (norm raw))
  /\ (Exists (is_value 1) (entries (norm raw))
      \/ (Forall (fun x => x <= 0) (entries raw)
          /\ Forall (is_value 0) (entries (norm raw)))).

End GradCam.

(** ** Values exchanged with the libraries *)

(** 8-bit images as NumPy has them: rows of pixels. *)
Definition gray_image := list (list Z).
Definition bgr_image := list (list (Z * Z * Z)).

Inductive image :=
| Gray (g : gray_image)
| Color (c : bgr_image).

(** A Keras model object, known to this program only as a handle. *)
Inductive Model := KerasModel (handle : N).

(** Values produced by [json.loads]. *)
Inductive pyfloat := Finite (q : Q) | PosInf | NegInf | NaN.

#[warnings="-register-all"]
Inductive json :=
| JNull
| JBool (b : bool)
| JInt (z : Z)
| JFloat (f : pyfloat)
| JStr (s : pystr)
| JArr (l : list json)
| JObj (d : list (pystr * json)).

Definition dict := list (pystr * json).

(** [d.get(key, default)] *)
Fixpoint dict_get (d : dict) (key : pystr) (default : json) : json :=
  match d with
  | [] => default
  | (k, v) :: r => if pystr_eqb k key then v else dict_get r key default
  end.

(** What the program obtains from OpenCV, Keras / TensorFlow, PIL, the
    Python runtime and the operating system.  A field of type [outcome _]
    may raise; everything else returns. *)
Record Externals := {
  (* OpenCV *)
  cv_cvtColor_BGR2GRAY : bgr_image -> gray_image;
  cv_resize : gray_image -> nat * nat -> gray_image;  (* dsize = (width, height) *)
  cv_imdecode : list N -> option bgr_image;           (* [imread]: None when undecodable *)
  cv_overlay_pipeline :
    GradCam.heatmap -> gray_image -> Q -> outcome bgr_image;
  (* Keras / TensorFlow *)
  keras_model_from_json : pystr -> outcome (option Model);
  keras_load_weights : Model -> string -> outcome Model;
  keras_Adam : outcome N;
  keras_compile : Model -> N -> outcome Model;
  keras_predict : Model -> GradCam.tensor2 -> outcome Q;
  tf_feature_maps_and_gradients :
    Model -> string -> GradCam.tensor2 ->
    outcome (GradCam.tensor3 * GradCam.tensor3);
  (* PIL and base64 *)
  png_base64 : image -> pystr;
  (* Python runtime *)
  json_loads : pystr -> outcome json;
  int_of_str : pystr -> option Z;
  format_percent2 : Q -> pystr;          (* format(x, '.2%') *)
  str_of_json : json -> pystr;           (* str(v) for v neither str nor int *)
  text_encode : pystr -> option (list N); (* the codec of a text-mode file *)
  (* operating system *)
  os_path_exists : string -> bool;
  read_text_file : string -> outcome pystr
}.

(** ** Image preparation ([utils/image_processor.py]) *)

Module ImageProcessor.

(** NumPy [uint8] arithmetic wraps around modulo 256. *)
Definition uint8 (z : Z) : Z := (z mod 256)%Z.

(** [255 - gray] on a [uint8] array. *)
Definition invert (gray : gray_image) : gray_image :=
  map (map (fun v => uint8 (255 - v))) gray.

Section WithLibraries.
Variable ext : Externals.

Definition process_spiral (img : bgr_image) : gray_image :=
  let gray := cv_cvtColor_BGR2GRAY ext img in
  let gray := cv_resize ext gray (256, 256)%nat in
  invert gray.

Definition process_wave (img : bgr_image) : gray_image :=
  let gray := cv_cvtColor_BGR2GRAY ext img in
  let gray := cv_resize ext gray (550, 250)%nat in
  invert gray.

(** Returns the input tensor of the model (intensities scaled by
    [1/255], batch and channel axes left implicit) and the processed
    image. *)
Definition prepare_image_for_prediction (img : bgr_image)
           (is_wave : bool) : GradCam.tensor2 * gray_image :=
  let '(processed, target_size) :=
    if is_wave then (process_wave img, (550, 250)%nat)
    else (process_spiral img, (256, 256)%nat) in
  let processed := cv_resize ext processed target_size in
  let normalized :=
    map (map (fun v => (inject_Z v / 255)%Q)) processed in
  (normalized, processed).

(** [overlay_heatmap]: the default blend weight depends on the kind;
    the image operations themselves are OpenCV's. *)
Definition overlay_heatmap (heatmap : GradCam.heatmap)
           (img : gray_image) (alpha : option Q) (is_wave : bool)
  : outcome bgr_image :=
  let alpha :=
    match alpha with
    | Some a => a
    | None => if is_wave then (7 # 10)%Q else (4 # 10)%Q
    end in
  cv_overlay_pipeline ext heatmap img alpha.

End WithLibraries.

(** Shape and contents of a NumPy [uint8] matrix. *)
Definition is_uint8 (v : Z) : Prop := (0 <= v < 256)%Z.

Definition has_shape {A} (rows cols : nat) (m : list (list A)) : Prop :=
  List.length m = rows /\ Forall (fun r => List.length r = cols) m.

Definition gray_pixels_ok (g : gray_image) : Prop :=
  Forall (Forall is_uint8) g.

Definition bgr_pixels_ok (c : bgr_image) : Prop :=
  Forall (Forall (fun p =>
    is_uint8 (fst (fst p)) /\ is_uint8 (snd (fst p)) /\ is_uint8 (snd p))) c.

(** A valid input: what [cv2.imread] returns, a non-empty rectangular
    three-channel 8-bit image. *)
Definition valid_input (img : bgr_image) : Prop :=
  exists rows cols, (0 < rows)%nat /\ (0 < cols)%nat
                    /\ has_shape rows cols img /\ bgr_pixels_ok img.

(** What the program relies on from [cv2.cvtColor] and [cv2.resize]. *)
Definition cvtColor_contract (ext : Externals) : Prop :=
  forall img rows cols,
    has_shape rows cols img -> bgr_pixels_ok img ->
    has_shape rows cols (cv_cvtColor_BGR2GRAY ext img)
    /\ gray_pixels_ok (cv_cvtColor_BGR2GRAY ext img).

Definition resize_contract (ext : Externals) : Prop :=
  forall g rows cols width height,
    (0 < rows)%nat -> (0 < cols)%nat ->
    (0 < width)%nat -> (0 < height)%nat ->
    has_shape rows cols g -> gray_pixels_ok g ->
    has_shape height width (cv_resize ext g (width, height))
    /\ gray_pixels_ok (cv_resize ext g (width, height)).

(** Pixel access, [img[i][j]]. *)
Definition pixel (g : gray_image) (i j : nat) : Z :=
  nth j (nth i g []) 0%Z.

End ImageProcessor.

(** ** The world and the monad of the effectful code *)

(** Calls into the outside world, in the order in which they happen. *)
Inductive event :=
| EPrint (msg : pystr)
| EPathExists (path : string)
| EReadFile (path : string)
| EModelFromJson
| ELoadWeights (path : string)
| EAdam
| ECompile
| EPredict (rows cols : nat)
| EGradients (layer : string)
| EOverlay
| ESave (path : string)
| EImread (path : string)
| EOpenForWriting (path : string)
| EWrite (path : string).

(** The attributes of a [ModelLoader] object. *)
Record Loader := mkLoader {
  spiral_model : option Model;
  wave_model : option Model;
  spiral_last_conv : string;
  wave_last_conv : string;
  models_loaded : bool
}.

(** The three files the endpoint writes: [static/uploads/spiral.png],
    [static/uploads/wave.png] and the single report slot
    [static/reports/report.html]; [None] is a file that does not exist. *)
Record FileSystem := mkFS {
  upload_spiral : option (list N);
  upload_wave : option (list N);
  report_slot : option (list N)
}.

(** A reading of the system clock, [datetime.now()]. *)
Record datetime := mkDatetime {
  year : nat; month : nat; day : nat;
  hour : nat; minute : nat; second : nat; microsecond : nat
}.

(** The state the program runs in.  [clock] gives the successive readings
    of the system clock and [ticks] counts the readings made so far. *)
Record World := mkWorld {
  loader : Loader;
  fs : FileSystem;
  trace : list event;
  clock : nat -> datetime;
  ticks : nat
}.

Definition M (A : Type) : Type := World -> outcome A * World.

Definition ret {A} (a : A) : M A := fun w => (Ret a, w).

Definition bind {A B} (c : M A) (k : A -> M B) : M B :=
  fun w =>
    match c w with
    | (Ret a, w') => k a w'
    | (Raise e, w') => (Raise e, w')
    end.

Definition raise {A} (e : exn) : M A := fun w => (Raise e, w).

(** [try: c except Exception as e: h e]; what [c] did to the world before
    it raised stays done. *)
Definition try_catch {A} (c : M A) (h : exn -> M A) : M A :=
  fun w =>
    match c w with
    | (Ret a, w') => (Ret a, w')
    | (Raise e, w') => h e w'
    end.

Declare Scope monad_scope.
Delimit Scope monad_scope with monad.
Notation "x <- c1 ;; c2" := (bind c1 (fun x => c2))
  (at level 61, c1 at next level, right associativity) : monad_scope.
Notation "c1 ;; c2" := (bind c1 (fun _ => c2))
  (at level 61, right associativity) : monad_scope.

(** Updates of the world. *)
Definition logged (e : event) (w : World) : World :=
  mkWorld (loader w) (fs w) (trace w ++ [e]) (clock w) (ticks w).

Definition with_loader (l : Loader) (w : World) : World :=
  mkWorld l (fs w) (trace w) (clock w) (ticks w).

Definition with_fs (f : FileSystem) (w : World) : World :=
  mkWorld (loader w) f (trace w) (clock w) (ticks w).

Definition ticked (w : World) : World :=
  mkWorld (loader w) (fs w) (trace w) (clock w) (S (ticks w)).

Definition log (e : event) : M unit := fun w => (Ret tt, logged e w).

Definition print (msg : pystr) : M unit := log (EPrint msg).

(** A call into a library: it is recorded, and it returns or raises. *)
Definition call {A} (e : event) (r : outcome A) : M A :=
  fun w => (r, logged e w).

Definition get_loader : M Loader := fun w => (Ret (loader w), w).

Definition set_loader (l : Loader) : M unit :=
  fun w => (Ret tt, with_loader l w).

Definition get_fs : M FileSystem := fun w => (Ret (fs w), w).

Definition set_fs (f : FileSystem) : M unit :=
  fun w => (Ret tt, with_fs f w).

(** [datetime.now()] *)
Definition now : M datetime :=
  fun w => (Ret (clock w (ticks w)), ticked w).

(** [wp c w Q E]: run from [w], the computation [c] either returns a value
    and a world that satisfy [Q] or raises an exception in a world that
    satisfy [E]. *)
Definition wp {A} (c : M A) (w : World)
           (Q : A -> World -> Prop) (E : exn -> World -> Prop) : Prop :=
  match c w with
  | (Ret a, w') => Q a w'
  | (Raise e, w') => E e w'
  end.

(** ** The model provider ([utils/model_loader.py]) *)

Module ModelLoader.
Local Open Scope string_scope.
Local Open Scope list_scope.
Local Open Scope monad_scope.

(** [ModelLoader.__init__] *)
Definition init : Loader :=
  mkLoader None None "conv2d_3" "convo_3" false.

Definition set_spiral_model (m : option Model) : M unit :=
  l <- get_loader ;;
  set_loader (mkLoader m (wave_model l) (spiral_last_conv l)
                       (wave_last_conv l) (models_loaded l)).

Definition set_wave_model (m : option Model) : M unit :=
  l <- get_loader ;;
  set_loader (mkLoader (spiral_model l) m (spiral_last_conv l)
                       (wave_last_conv l) (models_loaded l)).

Definition set_models_loaded (b : bool) : M unit :=
  l <- get_loader ;;
  set_loader (mkLoader (spiral_model l) (wave_model l) (spiral_last_conv l)
                       (wave_last_conv l) b).

Definition required_files : list string :=
  [ "models/spiral_config.json";
    "models/wave_config.json";
    "models/spiral.weights.new.h5";
    "models/wave.weights.new.h5" ].

Definition zeros (rows cols : nat) : GradCam.tensor2 :=
  repeat (repeat 0%Q cols) rows.

Section WithLibraries.
Variable ext : Externals.

(** The loop over [required_files]. *)
Fixpoint check_required (files : list string) : M unit :=
  match files with
  | [] => ret tt
  | file_path :: rest =>
    present <- call (EPathExists file_path)
                    (Ret (os_path_exists ext file_path)) ;;
    if negb present then
      raise (mkExn FileNotFoundError
               (text "Required model file not found: " ++ text file_path))
    else check_required rest
  end.

(** The body of the [try] block of [load_models]. *)
Definition load_models_try : M bool :=
  print (text "Loading models...") ;;
  check_required required_files ;;
  (* spiral model *)
  spiral_config <- call (EReadFile "models/spiral_config.json")
                        (read_text_file ext "models/spiral_config.json") ;;
  sm <- call EModelFromJson (keras_model_from_json ext spiral_config) ;;
  set_spiral_model sm ;;
  match sm with
  | None =>
    raise (mkExn ValueError
             (text "Failed to create spiral model from config"))
  | Some sm =>
  sm <- call (ELoadWeights "models/spiral.weights.new.h5")
             (keras_load_weights ext sm "models/spiral.weights.new.h5") ;;
  set_spiral_model (Some sm) ;;
  print (text "Spiral model loaded successfully") ;;
  (* wave model *)
  wave_config <- call (EReadFile "models/wave_config.json")
                      (read_text_file ext "models/wave_config.json") ;;
  wm <- call EModelFromJson (keras_model_from_json ext wave_config) ;;
  set_wave_model wm ;;
  match wm with
  | None =>
    raise (mkExn ValueError
             (text "Failed to create wave model from config"))
  | Some wm =>
  wm <- call (ELoadWeights "models/wave.weights.new.h5")
             (keras_load_weights ext wm "models/wave.weights.new.h5") ;;
  set_wave_model (Some wm) ;;
  print (text "Wave model loaded successfully") ;;
  (* optimizer and compilation *)
  optimizer <- call EAdam (keras_Adam ext) ;;
  sm <- call ECompile (keras_compile ext sm optimizer) ;;
  set_spiral_model (Some sm) ;;
  wm <- call ECompile (keras_compile ext wm optimizer) ;;
  set_wave_model (Some wm) ;;
  (* dry-run predictions *)
  _ <- call (EPredict 256 256) (keras_predict ext sm (zeros 256 256)) ;;
  print (text "Spiral model prediction test successful") ;;
  _ <- call (EPredict 250 550) (keras_predict ext wm (zeros 250 550)) ;;
  print (text "Wave model prediction test successful") ;;
  set_models_loaded true ;;
  print (text "All models loaded and tested successfully") ;;
  ret true
  end
  end.

(** The [except Exception] handler of [load_models]. *)
Definition load_models_except (e : exn) : M bool :=
  print (text "Error loading models: " ++ exn_msg e) ;;
  set_spiral_model None ;;
  set_wave_model None ;;
  set_models_loaded false ;;
  ret false.

Definition load_models : M bool :=
  l <- get_loader ;;
  if models_loaded l then ret true
  else try_catch load_models_try load_models_except.

Definition get_spiral_model : M (option Model) :=
  l <- get_loader ;;
  (if negb (models_loaded l) then
     success <- load_models ;;
     if negb success then
       raise (mkExn RuntimeError (text "Failed to load models"))
     else ret tt
   else ret tt) ;;
  l <- get_loader ;;
  ret (spiral_model l).

Definition get_wave_model : M (option Model) :=
  l <- get_loader ;;
  (if negb (models_loaded l) then
     success <- load_models ;;
     if negb success then
       raise (mkExn RuntimeError (text "Failed to load models"))
     else ret tt
   else ret tt) ;;
  l <- get_loader ;;
  ret (wave_model l).

End WithLibraries.

(** [get_last_conv_layer(is_wave)]: reads an attribute, nothing else. *)
Definition get_last_conv_layer (l : Loader) (is_wave : bool) : string :=
  if is_wave then wave_last_conv l else spiral_last_conv l.

(** *** Vocabulary of the properties *)

Definition failed_to_load : exn :=
  mkExn RuntimeError (text "Failed to load models").

(** What loading never touches: the files, the clock and the two layer
    names. *)
Definition frame (w w' : World) : Prop :=
  fs w' = fs w /\ clock w' = clock w /\ ticks w' = ticks w
  /\ spiral_last_conv (loader w') = spiral_last_conv (loader w)
  /\ wave_last_conv (loader w') = wave_last_conv (loader w).

Definition both_present (l : Loader) : Prop :=
  exists sm wm, spiral_model l = Some sm /\ wave_model l = Some wm.

Definition unloaded (l : Loader) : Prop :=
  spiral_model l = None /\ wave_model l = None /\ models_loaded l = false.

Definition all_files_present (ext : Externals) : Prop :=
  Forall (fun p => os_path_exists ext p = true) required_files.

Definition some_file_missing (ext : Externals) : Prop :=
  Exists (fun p => os_path_exists ext p = false) required_files.

(** Any number of further calls of [load_models]. *)
Fixpoint load_again (ext : Externals) (n : nat) (w : World) : World :=
  match n with
  | O => w
  | S n => load_again ext n (snd (load_models ext w))
  end.

(** The methods of the loader, and the worlds the program can be in: a
    loader is created by [__init__], and afterwards only its methods
    assign its attributes. *)
Inductive method := CallLoadModels | CallGetSpiralModel | CallGetWaveModel.

Definition run_method (ext : Externals) (m : method) (w : World) : World :=
  match m with
  | CallLoadModels => snd (load_models ext w)
  | CallGetSpiralModel => snd (get_spiral_model ext w)
  | CallGetWaveModel => snd (get_wave_model ext w)
  end.

Inductive reachable (ext : Externals) : World -> Prop :=
| reach_init w : loader w = init -> reachable ext w
| reach_method m w : reachable ext w -> reachable ext (run_method ext m w)
| reach_other w w' :
    reachable ext w -> loader w' = loader w -> reachable ext w'.

(** The invariant of reachable loaders. *)
Definition consistent (l : Loader) : Prop :=
  spiral_last_conv l = "conv2d_3"
  /\ wave_last_conv l = "convo_3"
  /\ (models_loaded l = true -> both_present l).

End ModelLoader.

(** ** The report ([utils/report_generator.py]) *)

Module Report.
Local Open Scope string_scope.
Local Open Scope list_scope.
Local Open Scope monad_scope.

(** *** Formatted string literals *)

Inductive piece :=
| Lit (s : string)
| Hole (expr : string).

Definition lit_cons (c : ascii) (ps : list piece) : list piece :=
  match ps with
  | Lit s :: r => Lit (String c s) :: r
  | _ => Lit (String c EmptyString) :: ps
  end.

Definition open_brace : ascii := ascii_of_nat 123.
Definition close_brace : ascii := ascii_of_nat 125.

(** Splits the text of an f-string into literal pieces and replacement
    fields; a doubled brace is a literal brace.  [hole] holds the text of
    the replacement field being read, if any. *)
Fixpoint parse_fstring (hole : option string) (s : string) : list piece :=
  match s with
  | EmptyString => []
  | String c r =>
    match hole with
    | Some expr =>
      if Ascii.eqb c close_brace then Hole expr :: parse_fstring None r
      else parse_fstring (Some (expr ++ String c EmptyString)%string) r
    | None =>
      if Ascii.eqb c open_brace then
        match r with
        | String c2 r2 =>
          if Ascii.eqb c2 open_brace
          then lit_cons open_brace (parse_fstring None r2)
          else parse_fstring (Some EmptyString) r
        | EmptyString => parse_fstring (Some EmptyString) r
        end
      else if Ascii.eqb c close_brace then
        match r with
        | String c2 r2 =>
          if Ascii.eqb c2 close_brace
          then lit_cons close_brace (parse_fstring None r2)
          else lit_cons c (parse_fstring None r)
        | EmptyString => lit_cons c (parse_fstring None r)
        end
      else lit_cons c (parse_fstring None r)
    end
  end.

Fixpoint lookup (expr : string) (bindings : list (string * pystr))
  : option pystr :=
  match bindings with
  | [] => None
  | (k, v) :: r => if String.eqb k expr then Some v else lookup expr r
  end.

(** The double quotes of the template are written as backquotes in
    [report_template] (the template has no backquote of its own);
    [unquote] restores them. *)
Definition unquote (s : string) : string :=
  string_of_list_ascii
    (map (fun c => if Ascii.eqb c (ascii_of_nat 96) then ascii_of_nat 34
                   else c)
         (list_ascii_of_string s)).

Definition fill (bindings : list (string * pystr)) (ps : list piece)
  : pystr :=
  flat_map (fun p =>
              match p with
              | Lit s => text s
              | Hole e => match lookup e bindings with
                          | Some v => v
                          | None => []
                          end
              end) ps.

Definition fstring (template : string) (bindings : list (string * pystr))
  : pystr :=
  fill bindings (parse_fstring None (unquote template)).

(** The replacement fields of a template, in order. *)
Definition fields (template : string) : list string :=
  flat_map (fun p => match p with Lit _ => [] | Hole e => [e] end)
           (parse_fstring None (unquote template)).

(** *** Dates *)

Definition month_names : list string :=
  [ "January"; "February"; "March"; "April"; "May"; "June"; "July";
    "August"; "September"; "October"; "November"; "December" ].

Definition dec (n : nat) : string := NilZero.string_of_uint (Nat.to_uint n).

Definition pad2 (n : nat) : string :=
  if (n <? 10)%nat then ("0" ++ dec n)%string else dec n.

(** [strftime("%Y%m%d")] *)
Definition strftime_Ymd (t : datetime) : pystr :=
  text (dec (year t) ++ pad2 (month t) ++ pad2 (day t))%string.

(** [strftime('%B %d, %Y')] *)
Definition strftime_B_d_Y (t : datetime) : pystr :=
  text (nth (month t - 1) month_names "" ++ " " ++ pad2 (day t) ++ ", "
        ++ dec (year t))%string.

(** The calendar date of a clock reading. *)
Definition date_of (t : datetime) : nat * nat * nat :=
  (year t, month t, day t).

(** *** The template *)

Definition report_template : string :=
"
        <!DOCTYPE html>
        <html>
        <head>
            <title>Parkinson's Early Detection Report</title>
            <script src='https://cdnjs.cloudflare.com/ajax/libs/html2pdf.js/0.10.1/html2pdf.bundle.min.js'></script>
            <style>
                @page {{ size: A4; margin: 0; }}
                body {{
                    font-family: 'Segoe UI', Arial, sans-serif;
                    margin: 0;
                    padding: 20px;
                    background: white;
                    color: #333;
                    display: flex;
                    justify-content: center;
                }}
                .report-container {{
                    max-width: 165mm;  /* Fine-tuned from 170mm */
                    margin: 0 auto;
                    padding: 15mm;  /* Reduced from 20mm */
                    background: white;
                    box-shadow: 0 0 10px rgba(0,0,0,0.1);
                    font-size: 11px;
                }}
                h1, h2 {{
                    color: #2c3e50;
                    margin: 0 0 15px 0;
                }}
                .report-header {{
                    text-align: center;
                    border-bottom: 2px solid #27ae60;
                    padding-bottom: 20px;
                    margin-bottom: 30px;
                }}
                .report-header h1 {{
                    font-size: 24px;  /* Reduced from 28px */
                }}
                .date {{
                    color: #666;
                    font-size: 14px;  /* Reduced from 16px */
                }}
                .section {{
                    margin-bottom: 30px;
                    padding: 20px;
                    border-radius: 8px;
                    background: #fff;
                    box-shadow: 0 2px 4px rgba(0,0,0,0.05);
                }}
                .patient-info {{
                    background: #f8f9fa;
                }}
                .result-section {{
                    background: #e8f5e9;
                    border-left: 4px solid #27ae60;
                }}
                .confidence-box {{
                    margin: 15px 0;
                    padding: 10px;
                    background: rgba(255,255,255,0.7);
                    border-radius: 4px;
                }}
                .images-section {{
                    text-align: center;
                }}
                .image-container {{
                    display: flex;
                    justify-content: space-between;
                    gap: 20px;
                    margin-bottom: 20px;
                    width: 100%;
                }}
                .image-block {{
                    flex: 1;
                    background: #f8f9fa;
                    padding: 15px;
                    border-radius: 8px;
                    box-shadow: 0 2px 4px rgba(0,0,0,0.05);
                }}
                .image-block h3 {{
                    margin: 0 0 15px 0;
                    font-size: 16px;
                    color: #2c3e50;
                }}
                .image-block img {{
                    width: 100%;
                    height: 150px;  /* Reduced from 180px */
                    object-fit: contain;
                    border: 1px solid #ddd;
                    border-radius: 4px;
                    background: white;
                }}
                .resources-list {{
                    list-style: none;
                    padding: 0;
                    margin: 0;
                }}
                .resources-list li {{
                    margin-bottom: 20px;
                    padding: 15px;
                    background: #f8f9fa;
                    border-radius: 4px;
                }}
                .resource-link {{
                    color: #27ae60;
                    text-decoration: none;
                    font-weight: bold;
                    font-size: 16px;
                }}
                .resource-desc {{
                    display: block;
                    color: #666;
                    margin-top: 8px;
                    line-height: 1.4;
                }}
                .disclaimer {{
                    background: #fff3e0;
                    font-size: 14px;
                    line-height: 1.6;
                }}
                .gradcam-description {{
                    background: #f8f9fa;
                    padding: 15px;
                    border-radius: 8px;
                    line-height: 1.8;
                }}
                .gradcam-description p {{
                    margin: 0;
                }}
                @media print {{
                    body {{ 
                        margin: 0;
                        padding: 0;
                        background: white;
                        display: flex;
                        justify-content: center;
                    }}
                    .report-container {{ 
                        width: 155mm;  /* Fine-tuned from 160mm */
                        margin: 0 auto;
                        padding: 12mm;  /* Reduced from 15mm */
                        box-shadow: none;
                    }}
                    .section {{
                        break-inside: avoid;
                    }}
                }}
            </style>
        </head>
        <body>
            <div class=`report-container`>
                <div class=`report-header`>
                    <h1>Parkinson's Early Detection Report</h1>
                    <div class=`date`>Date: {datetime.now().strftime('%B %d, %Y')}</div>
                </div>

                <div class=`section patient-info`>
                    <h2>Patient Information</h2>
                    <div style=`margin: 10px 0;`><strong>Name:</strong> {name}</div>
                    <div style=`margin: 10px 0;`><strong>Age:</strong> {age}</div>
                    <div style=`margin: 10px 0;`><strong>Gender:</strong> {gender}</div>
                </div>

                <div class=`section result-section`>
                    <h2>Analysis Result</h2>
                    <div style=`margin: 15px 0;`><strong>{result_message}</strong></div>
                    <div class=`confidence-box`>
                        <strong>Confidence Level:</strong> {confidence_level:.2%} <span style=`color:#666;`>({confidence_source})</span>
                    </div>
                    <div style=`margin: 15px 0;`><strong>Recommended Action:</strong> {next_steps}</div>
                </div>

                <div class=`section images-section`>
                    <h2>Drawing Analysis</h2>
                    <div style=`margin-bottom: 20px;` class=`gradcam-description`>
                        <p style=`white-space: pre-line;`>{gradcam_desc}</p>
                    </div>
                    <div class=`image-row`>
                        <div class=`image-container`>
                            <div class=`image-block`>
                                <h3>Spiral Drawing - Original</h3>
                                <img src=`data:image/png;base64,{spiral_b64}` alt=`Original Spiral`>
                            </div>
                            <div class=`image-block`>
                                <h3>Spiral Drawing - Analysis</h3>
                                <img src=`data:image/png;base64,{spiral_overlay_b64}` alt=`Spiral Analysis`>
                            </div>
                        </div>
                    </div>
                    <div class=`image-row`>
                        <div class=`image-container`>
                            <div class=`image-block`>
                                <h3>Wave Drawing - Original</h3>
                                <img src=`data:image/png;base64,{wave_b64}` alt=`Original Wave`>
                            </div>
                            <div class=`image-block`>
                                <h3>Wave Drawing - Analysis</h3>
                                <img src=`data:image/png;base64,{wave_overlay_b64}` alt=`Wave Analysis`>
                            </div>
                        </div>
                    </div>
                </div>

                <div class=`section resources`>
                    <h2>Educational Resources</h2>
                    <ul class=`resources-list`>
                        <li>
                            <a class=`resource-link` href=`https://www.parkinson.org/` target=`_blank`>Parkinson's Foundation</a>
                            <span class=`resource-desc`>Comprehensive information, support, and resources for people with Parkinson's and their families.</span>
                        </li>
                        <li>
                            <a class=`resource-link` href=`https://www.michaeljfox.org/` target=`_blank`>Michael J. Fox Foundation</a>
                            <span class=`resource-desc`>Leading research, news, and community support for Parkinson's disease.</span>
                        </li>
                        <li>
                            <a class=`resource-link` href=`https://www.pdf.org/` target=`_blank`>Parkinson's Disease Foundation</a>
                            <span class=`resource-desc`>Educational materials, research updates, and support programs for Parkinson's patients.</span>
                        </li>
                    </ul>
                </div>

                <div class=`section disclaimer`>
                    <h2>Medical Disclaimer</h2>
                    <p style=`margin: 10px 0;`>This report is for informational purposes only and does not constitute a formal medical diagnosis. The analysis is based on computer vision algorithms and should not be used as a substitute for professional medical evaluation.</p>
                    <p style=`margin: 10px 0;`>If you have concerns about Parkinson's disease or any other medical condition, please consult with a qualified healthcare provider.</p>
                </div>
            </div>

            <script>
                function downloadPDF() {{
                    const element = document.querySelector('.report-container');
                    const opt = {{
                        filename: '{pdf_filename}',
                        margin: [5, 8, -5, -85],  /* Fine-tuned margins [top, right, bottom, left] */
                        image: {{ type: 'jpeg', quality: 1.00 }},
                        html2canvas: {{ 
                            scale: 1.45,  /* Fine-tuned from 1.5 */
                            useCORS: true,
                            letterRendering: true,
                            scrollY: 0,
                            windowWidth: element.offsetWidth,
                            windowHeight: element.offsetHeight
                        }},
                        jsPDF: {{ 
                            unit: 'mm',
                            format: 'a4',
                            orientation: 'portrait',
                            hotfixes: [`px_scaling`],
                            compress: true
                        }},
                        pagebreak: {{ mode: ['avoid-all', 'css', 'legacy'] }}
                    }};
                    html2pdf().set(opt).from(element).save();
                }}
            </script>
            <div style=`text-align:center;margin:20px;`>
                <button onclick=`downloadPDF()` style=`
                    background: #27ae60;
                    color: white;
                    border: none;
                    padding: 10px 20px;
                    border-radius: 5px;
                    cursor: pointer;
                    font-size: 16px;`>
                    Download as PDF
                </button>
            </div>
        </body>
        </html>
        ".

Section WithLibraries.
Variable ext : Externals.

(** [str(v)] as the f-string applies it to a value of the user info. *)
Definition py_str (v : json) : pystr :=
  match v with
  | JStr s => s
  | JInt z => str_of_Z z
  | _ => str_of_json ext v
  end.

(** [user_info.get(key, '') if user_info else ''] *)
Definition info_field (user_info : option dict) (key : string) : json :=
  match user_info with
  | Some ((_ :: _) as d) => dict_get d (text key) (JStr [])
  | _ => JStr []
  end.

(** [_image_to_base64] *)
Definition image_to_base64 (img : image) : pystr := png_base64 ext img.

(** Everything of [generate_report] after the overlays have been
    computed: the images, the narrative and the template.  [t_file]
    and [t_header] are the two readings of the clock, the first for the
    name of the PDF file and the second for the header of the report. *)
Definition render_report
           (spiral_processed wave_processed : gray_image)
           (spiral_overlay wave_overlay : bgr_image)
           (fused : Fusion.FusedResult)
           (user_info : option dict)
           (t_file t_header : datetime) : pystr :=
  let spiral_b64 := image_to_base64 (Gray spiral_processed) in
  let wave_b64 := image_to_base64 (Gray wave_processed) in
  let spiral_overlay_b64 := image_to_base64 (Color spiral_overlay) in
  let wave_overlay_b64 := image_to_base64 (Color wave_overlay) in
  let confidence_level := Fusion.confidence_level fused in
  let confidence_source := Fusion.confidence_source fused in
  let n := Fusion.narrative confidence_level in
  let name := info_field user_info "name" in
  let age := info_field user_info "age" in
  let gender := info_field user_info "gender" in
  let safe_name := replace_space_underscore (py_str name) in
  let pdf_filename :=
    text "Parkinsons_Report_" ++ safe_name ++ text "_"
    ++ strftime_Ymd t_file ++ text ".pdf" in
  fstring report_template
    [ ("datetime.now().strftime('%B %d, %Y')", strftime_B_d_Y t_header);
      ("name", py_str name);
      ("age", py_str age);
      ("gender", py_str gender);
      ("result_message", text (Fusion.result_message n));
      ("confidence_level:.2%", format_percent2 ext confidence_level);
      ("confidence_source", text confidence_source);
      ("next_steps", text (Fusion.next_steps n));
      ("gradcam_desc", text (Fusion.gradcam_desc n));
      ("spiral_b64", spiral_b64);
      ("spiral_overlay_b64", spiral_overlay_b64);
      ("wave_b64", wave_b64);
      ("wave_overlay_b64", wave_overlay_b64);
      ("pdf_filename", pdf_filename) ].

(** A method call on what [get_spiral_model] / [get_wave_model]
    returned; on [None] Python raises [AttributeError]. *)
Definition with_model {A} (m : option Model) (k : Model -> M A) : M A :=
  match m with
  | Some m => k m
  | None => raise (mkExn AttributeError
                     (text "'NoneType' object has no attribute"))
  end.

Definition generate_report (spiral_img wave_img : bgr_image)
           (user_info : option dict) : M pystr :=
  let '(spiral_input, spiral_processed) :=
    ImageProcessor.prepare_image_for_prediction ext spiral_img false in
  let '(wave_input, wave_processed) :=
    ImageProcessor.prepare_image_for_prediction ext wave_img true in
  spiral_model <- ModelLoader.get_spiral_model ext ;;
  wave_model <- ModelLoader.get_wave_model ext ;;
  spiral_pred <- with_model spiral_model (fun m =>
    call (EPredict 256 256) (keras_predict ext m spiral_input)) ;;
  wave_pred <- with_model wave_model (fun m =>
    call (EPredict 250 550) (keras_predict ext m wave_input)) ;;
  l <- get_loader ;;
  let spiral_layer := ModelLoader.get_last_conv_layer l false in
  sg <- with_model spiral_model (fun m =>
    call (EGradients spiral_layer)
         (tf_feature_maps_and_gradients ext m spiral_layer spiral_input)) ;;
  let spiral_heatmap := GradCam.make_spiral_gradcam (fst sg) (snd sg) in
  let wave_layer := ModelLoader.get_last_conv_layer l true in
  wg <- with_model wave_model (fun m =>
    call (EGradients wave_layer)
         (tf_feature_maps_and_gradients ext m wave_layer wave_input)) ;;
  let wave_heatmap := GradCam.make_wave_gradcam (fst wg) (snd wg) in
  spiral_overlay <- call EOverlay
    (ImageProcessor.overlay_heatmap ext spiral_heatmap spiral_processed
                                    None false) ;;
  wave_overlay <- call EOverlay
    (ImageProcessor.overlay_heatmap ext wave_heatmap wave_processed
                                    None true) ;;
  let fused := Fusion.fuse spiral_pred wave_pred in
  t_file <- now ;;
  t_header <- now ;;
  ret (render_report spiral_processed wave_processed
                     spiral_overlay wave_overlay fused user_info
                     t_file t_header).

End WithLibraries.

End Report.

(** ** The [/analyze] endpoint ([app.py]) *)

Module App.
Local Open Scope string_scope.
Local Open Scope list_scope.
Local Open Scope monad_scope.

(** An uploaded file (werkzeug's [FileStorage]); it is falsy when its
    file name is empty. *)
Record FileStorage := mkFile {
  filename : pystr;
  content : list N
}.

Record Request := mkRequest {
  files_spiral : option FileStorage;     (* request.files.get('spiral') *)
  files_wave : option FileStorage;       (* request.files.get('wave') *)
  form_user_info : option pystr          (* request.form.get('user_info') *)
}.

(** [jsonify({...}), code] *)
Record Response := mkResponse {
  status_code : Z;
  status : string;
  message : pystr;
  report_url : option string
}.

Definition file_truthy (f : option FileStorage) : bool :=
  match f with
  | Some f => match filename f with [] => false | _ => true end
  | None => false
  end.

Definition spiral_path : string := "static/uploads/spiral.png".
Definition wave_path : string := "static/uploads/wave.png".
Definition report_path : string := "static/reports/report.html".

Definition genders : list pystr :=
  [ text "Male"; text "Female"; text "Other" ].

Definition in_list (s : pystr) (l : list pystr) : bool :=
  existsb (pystr_eqb s) l.

(** Pure code that may raise. *)
Definition obind {A B} (c : outcome A) (k : A -> outcome B) : outcome B :=
  match c with
  | Ret a => k a
  | Raise e => Raise e
  end.

(** The messages of the client errors. *)
Definition files_required : pystr :=
  text "Both spiral and wave drawings are required".

Definition invalid_user_info : pystr :=
  text "Invalid user information. Please provide name, age (18-60), and gender.".

Definition unreadable_images : pystr :=
  text "Error reading uploaded images".

(** [int(float)] truncates toward zero. *)
Definition truncate (q : Q) : Z := Z.quot (Qnum q) (Zpos (Qden q)).

Section WithLibraries.
Variable ext : Externals.

(** [user_info.get(key, default)]; only a dict has [get]. *)
Definition field (user_info : json) (key : string) (default : json)
  : outcome json :=
  match user_info with
  | JObj d => Ret (dict_get d (text key) default)
  | _ => Raise (mkExn AttributeError (text "no attribute 'get'"))
  end.

(** [v.strip()]; only a str has [strip]. *)
Definition strip_value (v : json) : outcome pystr :=
  match v with
  | JStr s => Ret (strip s)
  | _ => Raise (mkExn AttributeError (text "no attribute 'strip'"))
  end.

(** [int(v)] *)
Definition py_int (v : json) : outcome Z :=
  match v with
  | JInt z => Ret z
  | JBool b => Ret (if b then 1 else 0)%Z
  | JFloat (Finite q) => Ret (truncate q)
  | JFloat _ =>
    Raise (mkExn ValueError (text "cannot convert float to integer"))
  | JStr s =>
    match int_of_str ext s with
    | Some z => Ret z
    | None => Raise (mkExn ValueError (text "invalid literal for int()"))
    end
  | _ => Raise (mkExn TypeError (text "int() argument"))
  end.

(** The inner [try] block of [analyze] after [json.loads]: the three
    fields are read, converted and checked.  It returns the parsed
    object, which is what the report generator receives. *)
Definition validate_user_info (user_info : json) : outcome json :=
  obind (field user_info "name" (JStr [])) (fun v =>
  obind (strip_value v) (fun name =>
  obind (field user_info "age" (JInt 0)) (fun v =>
  obind (py_int v) (fun age =>
  obind (field user_info "gender" (JStr [])) (fun v =>
  obind (strip_value v) (fun gender =>
  if match name with [] => true | _ => false end
     || negb ((18 <=? age)%Z && (age <=? 60)%Z)
     || negb (in_list gender genders)
  then Raise (mkExn ValueError [])
  else Ret user_info)))))).

(** The whole inner [try] block; [json.loads(None)] raises. *)
Definition parse_user_info (user_info_raw : option pystr)
  : outcome json :=
  match user_info_raw with
  | None => Raise (mkExn TypeError (text "the JSON object must be str"))
  | Some raw => obind (json_loads ext raw) validate_user_info
  end.

Definition error_response (code : Z) (msg : pystr) : Response :=
  mkResponse code "error" msg None.

(** [file.save(path)] *)
Definition save_spiral (f : FileStorage) : M unit :=
  log (ESave spiral_path) ;;
  d <- get_fs ;;
  set_fs (mkFS (Some (content f)) (upload_wave d) (report_slot d)).

Definition save_wave (f : FileStorage) : M unit :=
  log (ESave wave_path) ;;
  d <- get_fs ;;
  set_fs (mkFS (upload_spiral d) (Some (content f)) (report_slot d)).

(** [cv2.imread(path)]: [None] when the file cannot be decoded. *)
Definition imread_spiral : M (option bgr_image) :=
  log (EImread spiral_path) ;;
  d <- get_fs ;;
  ret (match upload_spiral d with
       | Some bytes => cv_imdecode ext bytes
       | None => None
       end).

Definition imread_wave : M (option bgr_image) :=
  log (EImread wave_path) ;;
  d <- get_fs ;;
  ret (match upload_wave d with
       | Some bytes => cv_imdecode ext bytes
       | None => None
       end).

Definition set_report_slot (c : option (list N)) : M unit :=
  d <- get_fs ;;
  set_fs (mkFS (upload_spiral d) (upload_wave d) c).

(** [with open(report_path, 'w') as f: f.write(report_html)].
    Opening for writing creates the file or empties it; the text is
    then encoded by the codec of the file, which raises
    [UnicodeEncodeError] on a text it cannot encode. *)
Definition write_report (report_html : pystr) : M unit :=
  log (EOpenForWriting report_path) ;;
  set_report_slot (Some []) ;;
  match text_encode ext report_html with
  | None =>
    raise (mkExn UnicodeEncodeError (text "codec can't encode character"))
  | Some bytes =>
    log (EWrite report_path) ;;
    set_report_slot (Some bytes)
  end.

Definition user_info_dict (user_info : json) : option dict :=
  match user_info with
  | JObj d => Some d
  | _ => None
  end.

(** The body of the outer [try] block. *)
Definition analyze_try (req : Request) : M Response :=
  let spiral_file := files_spiral req in
  let wave_file := files_wave req in
  let user_info_raw := form_user_info req in
  if negb (file_truthy spiral_file) || negb (file_truthy wave_file) then
    ret (error_response 400 files_required)
  else
  match parse_user_info user_info_raw with
  | Raise _ =>
    ret (error_response 400 invalid_user_info)
  | Ret user_info =>
  match spiral_file, wave_file with
  | Some spiral_file, Some wave_file =>
    save_spiral spiral_file ;;
    save_wave wave_file ;;
    spiral_img <- imread_spiral ;;
    wave_img <- imread_wave ;;
    match spiral_img, wave_img with
    | Some spiral_img, Some wave_img =>
      report_html <- Report.generate_report ext spiral_img wave_img
                                            (user_info_dict user_info) ;;
      write_report report_html ;;
      ret (mkResponse 200 "success" (text "Analysis complete")
                      (Some "/static/reports/report.html"))
    | _, _ =>
      ret (error_response 400 unreadable_images)
    end
  | _, _ =>
    (* not reached: both files are truthy here *)
    ret (error_response 400 files_required)
  end
  end.

(** The outer [except Exception] handler. *)
Definition analyze_except (e : exn) : M Response :=
  print (text "Error in analyze route: " ++ exn_msg e) ;;
  ret (error_response 500 (exn_msg e)).

Definition analyze (req : Request) : M Response :=
  try_catch (analyze_try req) analyze_except.

(** Module initialisation of [app.py]: load the models or exit. *)
Inductive startup_result :=
| Exited (code : Z) (w : World)
| Serving (w : World).

(** The world once [ModelLoader()] has been constructed. *)
Definition boot (w0 : World) : World :=
  with_loader ModelLoader.init
    (logged (EPrint (text "Initializing model loader and image processor..."))
            w0).

Definition startup (w0 : World) : startup_result :=
  match ModelLoader.load_models ext (boot w0) with
  | (Ret true, w) =>
    Serving (logged (EPrint (text "Models loaded successfully")) w)
  | (Ret false, w) =>
    (* print(...); sys.exit(1) *)
    Exited 1
      (logged (EPrint (text "Error: Failed to load models at startup")) w)
  | (Raise e, w) =>
    (* an uncaught exception ends the interpreter with status 1 *)
    Exited 1 w
  end.

End WithLibraries.

(** The validation predicate of the code: both strings are compared
    after [strip()]. *)
Definition user_info_valid (ext : Externals) (user_info : json) : Prop :=
  exists d name age gender,
    user_info = JObj d
    /\ dict_get d (text "name") (JStr []) = JStr name
    /\ strip name <> []
    /\ py_int ext (dict_get d (text "age") (JInt 0)) = Ret age
    /\ (18 <= age <= 60)%Z
    /\ dict_get d (text "gender") (JStr []) = JStr gender
    /\ In (strip gender) genders.

(** The validation predicate in the words of the specification: the
    gender is exactly one of the three words. *)
Definition spec_user_info_valid (ext : Externals) (user_info : json)
  : Prop :=
  exists d name age gender,
    user_info = JObj d
    /\ dict_get d (text "name") (JStr []) = JStr name
    /\ strip name <> []
    /\ py_int ext (dict_get d (text "age") (JInt 0)) = Ret age
    /\ (18 <= age <= 60)%Z
    /\ dict_get d (text "gender") (JStr []) = JStr gender
    /\ In gender genders.

(** "The endpoint accepts the user info iff the predicate holds", for one
    document. *)
Definition spec_accepts_iff_valid (ext : Externals) (raw : pystr) : Prop :=
  forall user_info,
    json_loads ext raw = Ret user_info ->
    ((exists u, parse_user_info ext (Some raw) = Ret u)
     <-> spec_user_info_valid ext user_info).





End App.

(** ** The UTF-8 codec of text files (strict error handling) *)

Definition utf8_encode_char (c : N) : option (list N) :=
  (if c <? 128 then Some [c]
   else if c <? 2048 then Some [192 + c / 64; 128 + c mod 64]
   else if (55296 <=? c) && (c <=? 57343) then None   (* surrogates *)
   else if c <? 65536 then
     Some [224 + c / 4096; 128 + (c / 64) mod 64; 128 + c mod 64]
   else if c <? 1114112 then
     Some [240 + c / 262144; 128 + (c / 4096) mod 64;
           128 + (c / 64) mod 64; 128 + c mod 64]
   else None)%N.

Fixpoint utf8_encode (s : pystr) : option (list N) :=
  match s with
  | [] => Some []
  | c :: r =>
    match utf8_encode_char c, utf8_encode r with
    | Some b, Some bs => Some (b ++ bs)
    | _, _ => None
    end
  end.

(** ** A concrete instance of the libraries

    Small executable stand-ins for the libraries, used to run the program
    on concrete requests: a fixed-point luminance, nearest-neighbour
    resizing, a classifier with constant scores, and a table for the JSON
    documents that occur in the examples. *)

Module Demo.
Local Open Scope string_scope.
Local Open Scope list_scope.

Definition luminance (p : Z * Z * Z) : Z :=
  let '(b, g, r) := p in
  Z.min 255 (Z.max 0 ((1868 * b + 9617 * g + 4899 * r + 8192) / 16384))%Z.

Definition cvtColor (img : bgr_image) : gray_image :=
  map (map luminance) img.

Definition clamp (v : Z) : Z := Z.min 255 (Z.max 0 v).

(** Source index of the nearest-neighbour resize, [k * n / m], computed
    on binary integers. *)
Definition source_index (k n m : nat) : nat :=
  N.to_nat (N.of_nat k * N.of_nat n / N.of_nat m).

Definition resize (g : gray_image) (dsize : nat * nat) : gray_image :=
  let '(width, height) := dsize in
  let rows := List.length g in
  let cols := List.length (hd [] g) in
  let columns := map (fun j => source_index j cols width) (seq 0 width) in
  map (fun i =>
         let row := nth (source_index i rows height) g [] in
         map (fun k => clamp (nth k row 0%Z)) columns)
      (seq 0 height).

(** Any non-empty content decodes to a 1 x 1 image. *)
Definition imdecode (bytes : list N) : option bgr_image :=
  match bytes with
  | [] => None
  | b :: _ => Some [[(Z.of_N b, Z.of_N b, Z.of_N b)]]
  end.

(** Spiral model: handle 1, score 8/10; wave model: handle 2, score 4/10. *)
Definition model_from_json (config : pystr) : outcome (option Model) :=
  match config with
  | c :: _ => Ret (Some (KerasModel c))
  | [] => Ret None
  end.

Definition predict (m : Model) (_ : GradCam.tensor2) : outcome Q :=
  match m with
  | KerasModel 1 => Ret (8 # 10)
  | _ => Ret (4 # 10)
  end.

Definition feature_maps_and_gradients (m : Model) (layer : string)
           (_ : GradCam.tensor2)
  : outcome (GradCam.tensor3 * GradCam.tensor3) :=
  Ret ([[[1; 2]%Q; [3; 4]%Q]], [[[1; -1]%Q; [1; 1]%Q]]).

(** The user-info documents of the examples (double quotes written as
    backquotes, see [Report.unquote]) and what [json.loads] returns for
    them. *)
Definition doc_ann : pystr :=
  text (Report.unquote "{`name`: `Ann`, `age`: 30, `gender`: `Female`}").
Definition json_ann : json :=
  JObj [ (text "name", JStr (text "Ann")); (text "age", JInt 30);
         (text "gender", JStr (text "Female")) ].

Definition doc_padded_gender : pystr :=
  text (Report.unquote "{`name`: `Ann`, `age`: 30, `gender`: ` Male `}").
Definition json_padded_gender : json :=
  JObj [ (text "name", JStr (text "Ann")); (text "age", JInt 30);
         (text "gender", JStr (text " Male ")) ].

(** The name is the JSON escape of the lone surrogate U+D800. *)
Definition doc_surrogate : pystr :=
  text (Report.unquote "{`name`: `\ud800`, `age`: 30, `gender`: `Female`}").
Definition json_surrogate : json :=
  JObj [ (text "name", JStr [55296%N]); (text "age", JInt 30);
         (text "gender", JStr (text "Female")) ].

Definition json_table : list (pystr * json) :=
  [ (doc_ann, json_ann);
    (doc_padded_gender, json_padded_gender);
    (doc_surrogate, json_surrogate) ].

Fixpoint table_lookup (raw : pystr) (t : list (pystr * json))
  : outcome json :=
  match t with
  | [] => Raise (mkExn ValueError (text "JSONDecodeError"))
  | (k, v) :: r => if pystr_eqb k raw then Ret v else table_lookup raw r
  end.

Definition loads (raw : pystr) : outcome json := table_lookup raw json_table.

(** [int(s)] on a decimal literal: blanks around it, an optional sign,
    digits. *)
Fixpoint digits_value (s : pystr) (acc : Z) : option Z :=
  match s with
  | [] => Some acc
  | c :: r =>
    if ((48 <=? c) && (c <=? 57))%N
    then digits_value r (acc * 10 + Z.of_N (c - 48))%Z
    else None
  end.

Definition parse_int (s : pystr) : option Z :=
  match strip s with
  | [] => None
  | 45%N :: ((_ :: _) as r) => option_map Z.opp (digits_value r 0)
  | 43%N :: ((_ :: _) as r) => digits_value r 0
  | 45%N :: [] => None
  | 43%N :: [] => None
  | r => digits_value r 0
  end.

(** [str(v)] of the constants. *)
Definition str_of_constant (v : json) : pystr :=
  match v with
  | JBool true => text "True"
  | JBool false => text "False"
  | _ => text "None"
  end.

(** Percentage with two decimals of a non-negative score. *)
Definition percent2 (q : Q) : pystr :=
  let n := Qfloor (q * 10000 + (1 # 2))%Q in
  str_of_Z (n / 100) ++ text "."
  ++ (if (n mod 100 <? 10)%Z then text "0" else []) ++ str_of_Z (n mod 100)
  ++ text "%".

Definition ext : Externals := {|
  cv_cvtColor_BGR2GRAY := cvtColor;
  cv_resize := resize;
  cv_imdecode := imdecode;
  cv_overlay_pipeline := fun _ img _ =>
    Ret (map (map (fun v => (v, v, v))) img);
  keras_model_from_json := model_from_json;
  keras_load_weights := fun m _ => Ret m;
  keras_Adam := Ret 0%N;
  keras_compile := fun m _ => Ret m;
  keras_predict := predict;
  tf_feature_maps_and_gradients := feature_maps_and_gradients;
  png_base64 := fun _ => text "iVBORw0KGgo=";
  json_loads := loads;
  int_of_str := parse_int;
  format_percent2 := percent2;
  str_of_json := str_of_constant;
  text_encode := utf8_encode;
  os_path_exists := fun _ => true;
  read_text_file := fun path =>
    Ret (if String.eqb path "models/spiral_config.json"
         then [1%N] else [2%N])
|}.

(** The same libraries on a machine where the model files are absent. *)
Definition ext_no_files : Externals := {|
  cv_cvtColor_BGR2GRAY := cvtColor;
  cv_resize := resize;
  cv_imdecode := imdecode;
  cv_overlay_pipeline := fun _ img _ =>
    Ret (map (map (fun v => (v, v, v))) img);
  keras_model_from_json := model_from_json;
  keras_load_weights := fun m _ => Ret m;
  keras_Adam := Ret 0%N;
  keras_compile := fun m _ => Ret m;
  keras_predict := predict;
  tf_feature_maps_and_gradients := feature_maps_and_gradients;
  png_base64 := fun _ => text "iVBORw0KGgo=";
  json_loads := loads;
  int_of_str := parse_int;
  format_percent2 := percent2;
  str_of_json := str_of_constant;
  text_encode := utf8_encode;
  os_path_exists := fun path =>
    negb (String.eqb path "models/wave.weights.new.h5");
  read_text_file := fun path =>
    Ret (if String.eqb path "models/spiral_config.json"
         then [1%N] else [2%N])
|}.

Definition clock0 (n : nat) : datetime :=
  mkDatetime 2024 3 15 10 30 (n mod 60) 0.

Definition clock1 (n : nat) : datetime :=
  mkDatetime 2024 3 16 10 30 (n mod 60) 0.

(** A freshly constructed loader, no file written yet. *)
Definition world0 : World :=
  mkWorld ModelLoader.init (mkFS None None None) [] clock0 0.

(** A server that has loaded its models and holds an earlier report. *)
Definition old_report : list N := bytes_of_string "<html>earlier</html>".

Definition world_serving : World :=
  mkWorld (mkLoader (Some (KerasModel 1)) (Some (KerasModel 2))
                    "conv2d_3" "convo_3" true)
          (mkFS None None (Some old_report)) [] clock0 0.

Definition png : App.FileStorage :=
  App.mkFile (text "drawing.png") [137; 80; 78; 71]%N.

Definition gray0 : gray_image := [[0; 255]; [128; 64]]%Z.
Definition overlay0 : bgr_image := [[(0, 0, 255); (255, 0, 0)]]%Z.
Definition ann : option dict :=
  Some [ (text "name", JStr (text "Ann Lee")); (text "age", JInt 30);
         (text "gender", JStr (text "Female")) ].

(** The report for fixed images, scores and user, as a function of the
    two readings of the clock. *)
Definition report_at (t_file t_header : datetime) : pystr :=
  Report.render_report ext gray0 gray0 overlay0 overlay0
                       (Fusion.fuse (8 # 10) (4 # 10)) ann
                       t_file t_header.

(** Whether [p] occurs in [s]. *)
Fixpoint starts_with (p s : pystr) : bool :=
  match p, s with
  | [], _ => true
  | x :: p, y :: s => (x =? y)%N && starts_with p s
  | _ :: _, [] => false
  end.

Fixpoint contains (p s : pystr) : bool :=
  starts_with p s
  || match s with
     | [] => false
     | _ :: r => contains p r
     end.

Definition request (doc : option pystr) : App.Request :=
  App.mkRequest (Some png) (Some png) doc.

Definition person (name : pystr) (age : Z) (gender : pystr) : json :=
  JObj [ (text "name", JStr name); (text "age", JInt age);
         (text "gender", JStr gender) ].

Definition img0 : bgr_image :=
  [ [ (255, 255, 255); (0, 0, 0) ]; [ (10, 20, 30); (200, 100, 50) ] ]%Z.

End Demo.

(** ** Runs of the server *)

(** The events of a call of [load_models] that succeeds, in order. *)
Definition successful_load_events : list event :=
  [EPrint (text "Loading models...")]
  ++ map EPathExists ModelLoader.required_files
  ++ [ EReadFile "models/spiral_config.json";
       EModelFromJson;
       ELoadWeights "models/spiral.weights.new.h5";
       EPrint (text "Spiral model loaded successfully");
       EReadFile "models/wave_config.json";
       EModelFromJson;
       ELoadWeights "models/wave.weights.new.h5";
       EPrint (text "Wave model loaded successfully");
       EAdam; ECompile; ECompile;
       EPredict 256 256;
       EPrint (text "Spiral model prediction test successful");
       EPredict 250 550;
       EPrint (text "Wave model prediction test successful");
       EPrint (text "All models loaded and tested successfully") ].

(** The world after the server has answered a sequence of requests to
    [/analyze], one after the other. *)
Fixpoint serve (ext : Externals) (reqs : list App.Request) (w : World)
  : World :=
  match reqs with
  | [] => w
  | req :: rest => serve ext rest (snd (App.analyze ext req w))
  end.

(** Libraries whose JSON parser answers [user_info] for every document. *)
Definition with_json_loads (user_info : json) (e : Externals) : Externals := {|
  cv_cvtColor_BGR2GRAY := cv_cvtColor_BGR2GRAY e;
  cv_resize := cv_resize e;
  cv_imdecode := cv_imdecode e;
  cv_overlay_pipeline := cv_overlay_pipeline e;
  keras_model_from_json := keras_model_from_json e;
  keras_load_weights := keras_load_weights e;
  keras_Adam := keras_Adam e;
  keras_compile := keras_compile e;
  keras_predict := keras_predict e;
  tf_feature_maps_and_gradients := tf_feature_maps_and_gradients e;
  png_base64 := png_base64 e;
  json_loads := fun _ => Ret user_info;
  int_of_str := int_of_str e;
  format_percent2 := format_percent2 e;
  str_of_json := str_of_json e;
  text_encode := text_encode e;
  os_path_exists := os_path_exists e;
  read_text_file := read_text_file e
|}.

(** What a load that succeeds has tried: the models it stores have
    answered a prediction on a 256 x 256 and on a 250 x 550 tensor of
    zeros. *)
Definition dry_run_passed (ext : Externals) (w : World) : Prop :=
  exists sm wm p_s p_w,
    spiral_model (loader w) = Some sm
    /\ wave_model (loader w) = Some wm
    /\ keras_predict ext sm (ModelLoader.zeros 256 256) = Ret p_s
    /\ keras_predict ext wm (ModelLoader.zeros 250 550) = Ret p_w
    /\ In (EPredict 256 256) (trace w)
    /\ In (EPredict 250 550) (trace w).

(** * Properties *)

(** ** Comparisons *)

Lemma py_le_iff x y : py_le x y = true <-> (x <= y)%Q.
Proof. unfold py_le. apply Qle_bool_iff. Qed.

Lemma py_gt_iff x y : py_gt x y = true <-> (y < x)%Q.
Proof.
  unfold py_gt. rewrite Qgt_alt.
  destruct (x ?= y)%Q; split; congruence.
Qed.

Lemma py_le_false_iff x y : py_le x y = false <-> (y < x)%Q.
Proof.
  rewrite <- Bool.not_true_iff_false, py_le_iff. split.
  - apply Qnot_le_lt.
  - apply Qlt_not_le.
Qed.

Lemma py_gt_false_iff x y : py_gt x y = false <-> (x <= y)%Q.
Proof.
  rewrite <- Bool.not_true_iff_false, py_gt_iff. split.
  - apply Qnot_lt_le.
  - apply Qle_not_lt.
Qed.

Lemma py_gt_negb_le x y : py_gt x y = negb (py_le x y).
Proof.
  destruct (py_le x y) eqn:E; simpl.
  - apply py_gt_false_iff, py_le_iff, E.
  - apply py_gt_iff, py_le_false_iff, E.
Qed.

Lemma py_max_is_Qmax a b : py_max a b = Qmax a b.
Proof.
  unfold py_max, py_gt, Qmax, GenericMinMax.gmax.
  rewrite <- (Qcompare_antisym a b).
  destruct (a ?= b)%Q; reflexivity.
Qed.

Lemma py_max_upper a b : (a <= py_max a b /\ b <= py_max a b)%Q.
Proof.
  unfold py_max. destruct (py_gt b a) eqn:E.
  - apply py_gt_iff in E. split; [apply Qlt_le_weak, E | apply Qle_refl].
  - apply py_gt_false_iff in E. split; [apply Qle_refl | exact E].
Qed.

Lemma py_max_cases a b : py_max a b = a \/ py_max a b = b.
Proof. unfold py_max. destruct (py_gt b a); auto. Qed.

(** ** Text *)

Lemma pystr_eqb_eq a b : pystr_eqb a b = true <-> a = b.
Proof.
  revert b. induction a as [| x a IH]; destruct b as [| y b]; simpl;
    try (split; [discriminate | discriminate]); [tauto |].
  rewrite Bool.andb_true_iff, N.eqb_eq, IH. split.
  - intros [-> ->]. reflexivity.
  - intros E. injection E as -> ->. auto.
Qed.

Example strip_example :
  strip (text "  Ann Lee	 ") = text "Ann Lee" /\ strip (text "   ") = [].
Proof. split; reflexivity. Qed.

Example text_decodes_utf8 : text "•" = [8226%N].
Proof. reflexivity. Qed.

(** Closes a goal whose context holds [a < b] and [b <= a]. *)
Ltac order_contradiction :=
  exfalso;
  match goal with
  | H1 : (?a < ?b)%Q, H2 : (?b <= ?a)%Q |- _ => exact (Qlt_not_le _ _ H1 H2)
  end.

(** ** Decision fusion *)

Module FusionFacts.
Import Fusion.
Local Open Scope Q_scope.

(** The three branches of the fusion, one lemma each. *)
Lemma fuse_spiral_negative p_s p_w :
  p_s <= threshold -> fuse p_s p_w = mkFused false p_s "Negative".
Proof.
  intros H. unfold fuse. apply py_le_iff in H. rewrite H. reflexivity.
Qed.

Lemma fuse_wave_negative p_s p_w :
  threshold < p_s -> p_w <= threshold ->
  fuse p_s p_w = mkFused false p_w "Negative".
Proof.
  intros Hs Hw. unfold fuse.
  apply py_le_false_iff in Hs. apply py_le_iff in Hw.
  rewrite Hs, Hw. reflexivity.
Qed.

Lemma fuse_positive p_s p_w :
  threshold < p_s -> threshold < p_w ->
  fuse p_s p_w = mkFused true (py_max p_s p_w) "Positive".
Proof.
  intros Hs Hw. unfold fuse.
  apply py_le_false_iff in Hs. apply py_le_false_iff in Hw.
  rewrite Hs, Hw. reflexivity.
Qed.

Lemma fuse_cases p_s p_w :
  (p_s <= threshold /\ fuse p_s p_w = mkFused false p_s "Negative")
  \/ (threshold < p_s /\ p_w <= threshold
      /\ fuse p_s p_w = mkFused false p_w "Negative")
  \/ (threshold < p_s /\ threshold < p_w
      /\ fuse p_s p_w = mkFused true (py_max p_s p_w) "Positive").
Proof.
  destruct (Qlt_le_dec threshold p_s) as [Hs | Hs].
  - destruct (Qlt_le_dec threshold p_w) as [Hw | Hw].
    + right; right. auto using fuse_positive.
    + right; left. auto using fuse_wave_negative.
  - left. auto using fuse_spiral_negative.
Qed.

(** The end-to-end scenarios of the specification. *)
Example scenario_1 :
  fuse (3 # 10) (9 # 10) = mkFused false (3 # 10) "Negative".
Proof. reflexivity. Qed.

Example scenario_2 :
  fuse (8 # 10) (4 # 10) = mkFused false (4 # 10) "Negative".
Proof. reflexivity. Qed.

Example scenario_3 :
  fuse (7 # 10) (6 # 10) = mkFused true (7 # 10) "Positive".
Proof. reflexivity. Qed.

Example both_negative_reports_spiral :
  fuse (2 # 10) (1 # 10) = mkFused false (2 # 10) "Negative".
Proof. reflexivity. Qed.

Lemma fuse_flag p_s p_w :
  has_parkinsons (fuse p_s p_w)
  = spiral_has_parkinsons p_s && wave_has_parkinsons p_w.
Proof.
  unfold fuse, spiral_has_parkinsons, wave_has_parkinsons.
  rewrite !py_gt_negb_le.
  destruct (py_le p_s threshold); [reflexivity |].
  destruct (py_le p_w threshold); reflexivity.
Qed.

(** C1.  Decision fusion is conjunctive with an ordered, asymmetric
    confidence.  For all scores [p_s], [p_w] (in particular for all scores
    in the unit interval): the fused result is positive exactly when both
    scores exceed 0.5, and then the confidence is [max(p_s, p_w)] and the
    label is "Positive"; otherwise the result is negative with label
    "Negative" and the confidence is the score that triggered the negative
    branch, the spiral score being examined first, so that [p_s <= 0.5]
    gives confidence [p_s] whatever [p_w] is. *)
Theorem fusion_is_conjunctive (p_s p_w : Q) :
  let r := fuse p_s p_w in
  (has_parkinsons r = true <-> 1 # 2 < p_s /\ 1 # 2 < p_w)
  /\ has_parkinsons r
     = spiral_has_parkinsons p_s && wave_has_parkinsons p_w
  /\ (1 # 2 < p_s -> 1 # 2 < p_w ->
      has_parkinsons r = true
      /\ confidence_level r = Qmax p_s p_w
      /\ confidence_source r = "Positive"%string)
  /\ (p_s <= 1 # 2 ->
      has_parkinsons r = false
      /\ confidence_level r = p_s
      /\ confidence_source r = "Negative"%string)
  /\ (1 # 2 < p_s -> p_w <= 1 # 2 ->
      has_parkinsons r = false
      /\ confidence_level r = p_w
      /\ confidence_source r = "Negative"%string).
Proof.
  cbv zeta. change (1 # 2) with threshold.
  split; [| split; [apply fuse_flag |]].
  - destruct (fuse_cases p_s p_w) as [[Hs E] | [[Hs [Hw E]] | [Hs [Hw E]]]];
      rewrite E; cbn [has_parkinsons]; split; intros H;
      try discriminate; auto.
    + destruct H as [H _]. order_contradiction.
    + destruct H as [_ H]. order_contradiction.
  - destruct (fuse_cases p_s p_w) as [[Hs E] | [[Hs [Hw E]] | [Hs [Hw E]]]];
      rewrite E; cbn [has_parkinsons confidence_level confidence_source];
      repeat split; intros; try discriminate; auto using py_max_is_Qmax;
      try order_contradiction.
Qed.

Lemma fusion_is_conjunctive_witness :
  (1 # 2 < 8 # 10 /\ (4 # 10) <= 1 # 2)
  /\ has_parkinsons (fuse (8 # 10) (4 # 10)) = false
  /\ confidence_level (fuse (8 # 10) (4 # 10)) = 4 # 10
  /\ confidence_source (fuse (8 # 10) (4 # 10)) = "Negative"%string.
Proof.
  assert (Hs : 1 # 2 < 8 # 10) by reflexivity.
  assert (Hw : (4 # 10) <= 1 # 2) by discriminate.
  split; [split; assumption |].
  exact (proj2 (proj2 (proj2 (proj2
           (fusion_is_conjunctive (8 # 10) (4 # 10))))) Hs Hw).
Defined.

(** The two narratives have nothing in common: message, recommended
    action and heatmap description all differ. *)
Lemma narratives_differ :
  result_message concern <> result_message reassuring
  /\ next_steps concern <> next_steps reassuring
  /\ gradcam_desc concern <> gradcam_desc reassuring.
Proof. repeat split; discriminate. Qed.

Lemma concern_neq_reassuring : concern <> reassuring.
Proof. discriminate. Qed.

Lemma narrative_low c : c <= threshold -> narrative c = reassuring.
Proof. intros H. unfold narrative. apply py_le_iff in H. now rewrite H. Qed.

Lemma narrative_high c : threshold < c -> narrative c = concern.
Proof.
  intros H. unfold narrative. apply py_le_false_iff in H. now rewrite H.
Qed.

(** The confidence selected by the fusion lies on the side of the
    threshold that the classification says. *)
Lemma confidence_side p_s p_w :
  let r := fuse p_s p_w in
  (has_parkinsons r = false /\ confidence_level r <= threshold)
  \/ (has_parkinsons r = true /\ threshold < confidence_level r).
Proof.
  cbv zeta.
  destruct (fuse_cases p_s p_w) as [[Hs E] | [[Hs [Hw E]] | [Hs [Hw E]]]];
    rewrite E; cbn [has_parkinsons confidence_level].
  - left. auto.
  - left. auto.
  - right. split; [reflexivity |].
    apply Qlt_le_trans with p_s; [exact Hs | apply py_max_upper].
Qed.

(** C10.  The narrative always agrees with the fused classification: the
    confidence chosen by the fusion is at most 0.5 exactly when the result
    is negative and above 0.5 exactly when it is positive, so the concern
    message, the 2-4 week referral and the heatmap legend are produced
    exactly for a positive result and the reassuring text exactly for a
    negative one. *)
Theorem narrative_agrees_with_classification (p_s p_w : Q) :
  let r := fuse p_s p_w in
  (confidence_level r <= 1 # 2 <-> has_parkinsons r = false)
  /\ (1 # 2 < confidence_level r <-> has_parkinsons r = true)
  /\ (narrative (confidence_level r) = concern
      <-> has_parkinsons r = true)
  /\ (narrative (confidence_level r) = reassuring
      <-> has_parkinsons r = false)
  /\ narrative (confidence_level r)
     = (if has_parkinsons r then concern else reassuring).
Proof.
  cbv zeta. change (1 # 2) with threshold.
  destruct (confidence_side p_s p_w) as [[Hn Hc] | [Hp Hc]].
  - rewrite Hn, (narrative_low _ Hc).
    repeat split; intros; try discriminate; auto;
      try order_contradiction.
  - rewrite Hp, (narrative_high _ Hc).
    repeat split; intros; try discriminate; auto;
      try order_contradiction.
Qed.

End FusionFacts.
(** ** Binary floating-point arithmetic *)

Module FloatFacts.
Import Float.
Local Open Scope Q_scope.

(** *** Powers of two *)

Lemma two_neq_0 : ~ 2 == 0.
Proof. discriminate. Qed.

Lemma pow2_pos e : 0 < pow2 e.
Proof. apply Qpower_0_lt. reflexivity. Qed.

Lemma pow2_neq_0 e : ~ pow2 e == 0.
Proof. intros H. pose proof (pow2_pos e) as P. rewrite H in P. discriminate P. Qed.

Lemma pow2_add a b : pow2 (a + b) == pow2 a * pow2 b.
Proof. apply Qpower_plus, two_neq_0. Qed.

Lemma pow2_sub a b : pow2 (a - b) == pow2 a / pow2 b.
Proof. apply Qpower_minus, two_neq_0. Qed.

Lemma pow2_le a b : (a <= b)%Z -> pow2 a <= pow2 b.
Proof. intros H. apply Qpower_le_compat_l; [exact H | discriminate]. Qed.

Lemma pow2_lt a b : (a < b)%Z -> pow2 a < pow2 b.
Proof. intros H. apply Qpower_lt_compat_l; [exact H | reflexivity]. Qed.

Lemma pow2_lt_inv a b : pow2 a < pow2 b -> (a < b)%Z.
Proof. intros H. apply (Qpower_lt_compat_l_inv 2); [exact H | reflexivity]. Qed.

Lemma pow2_inject k : (0 <= k)%Z -> inject_Z (2 ^ k) == pow2 k.
Proof. intros H. apply (Zpower_Qpower 2 k H). Qed.

Lemma pow2_0 : pow2 0 == 1.
Proof. reflexivity. Qed.

Lemma pow2_succ e : pow2 (e + 1) == 2 * pow2 e.
Proof. rewrite pow2_add. change (pow2 1) with 2. apply Qmult_comm. Qed.

(** Division by a power of two is multiplication by the opposite power. *)
Lemma div_pow2_le x y e : x <= y -> x / pow2 e <= y / pow2 e.
Proof.
  intros H. unfold Qdiv. apply Qmult_le_compat_r; [exact H |].
  apply Qlt_le_weak, Qinv_lt_0_compat, pow2_pos.
Qed.

Lemma mul_div_pow2 x e : x / pow2 e * pow2 e == x.
Proof. unfold Qdiv. rewrite <- Qmult_assoc, (Qmult_comm (/ pow2 e)),
  Qmult_inv_r by apply pow2_neq_0. apply Qmult_1_r. Qed.

Lemma div_mul_pow2 x e : x * pow2 e / pow2 e == x.
Proof. apply Qdiv_mult_l, pow2_neq_0. Qed.

Lemma pow2_div a b : pow2 a / pow2 b == pow2 (a - b).
Proof. symmetry. apply pow2_sub. Qed.

(** *** The magnitude *)

Lemma Qabs_make n d : Qabs (n # d) = (Z.abs n # d).
Proof. reflexivity. Qed.

Lemma mag_spec x :
  ~ x == 0 -> pow2 (mag x - 1) <= Qabs x /\ Qabs x < pow2 (mag x).
Proof.
  intros Hx. destruct x as [n d].
  assert (Hn : n <> 0%Z).
  { intros ->. apply Hx. reflexivity. }
  assert (Ha : (0 < Z.abs n)%Z) by lia.
  pose proof (Z.log2_spec (Z.abs n) Ha) as [La Ua].
  pose proof (Z.log2_spec (Z.pos d) ltac:(lia)) as [Lb Ub].
  pose proof (Z.log2_nonneg (Z.abs n)) as Na.
  pose proof (Z.log2_nonneg (Z.pos d)) as Nb.
  set (a := Z.log2 (Z.abs n)) in *. set (b := Z.log2 (Z.pos d)) in *.
  assert (Eabs : Qabs (n # d) == inject_Z (Z.abs n) / inject_Z (Z.pos d)).
  { rewrite Qabs_make. apply Qmake_Qdiv. }
  assert (Pd : 0 < inject_Z (Z.pos d)) by reflexivity.
  assert (QLa : pow2 a <= inject_Z (Z.abs n)).
  { rewrite <- pow2_inject by lia. rewrite <- Zle_Qle. exact La. }
  assert (QUa : inject_Z (Z.abs n) < pow2 (a + 1)).
  { rewrite <- pow2_inject by lia. rewrite <- Zlt_Qlt.
    replace (a + 1)%Z with (Z.succ a) by lia. exact Ua. }
  assert (QLb : pow2 b <= inject_Z (Z.pos d)).
  { rewrite <- pow2_inject by lia. rewrite <- Zle_Qle. exact Lb. }
  assert (QUb : inject_Z (Z.pos d) < pow2 (b + 1)).
  { rewrite <- pow2_inject by lia. rewrite <- Zlt_Qlt.
    replace (b + 1)%Z with (Z.succ b) by lia. exact Ub. }
  assert (Upper : Qabs (n # d) < pow2 (a - b + 1)).
  { rewrite Eabs. apply Qlt_shift_div_r; [exact Pd |].
    apply Qlt_le_trans with (pow2 (a + 1)); [exact QUa |].
    replace (a + 1)%Z with ((a - b + 1) + b)%Z by lia.
    rewrite pow2_add. apply Qmult_le_l; [apply pow2_pos | exact QLb]. }
  assert (Lower : pow2 (a - b - 1) <= Qabs (n # d)).
  { rewrite Eabs. apply Qle_shift_div_l; [exact Pd |].
    apply Qle_trans with (pow2 a); [| exact QLa].
    replace a with ((a - b - 1) + (b + 1))%Z at 2 by lia.
    rewrite pow2_add. apply Qmult_le_l; [apply pow2_pos |].
    apply Qlt_le_weak, QUb. }
  assert (Hm : mag (n # d)
               = if Qle_bool (pow2 (a - b)) (Qabs (n # d))
                 then (a - b + 1)%Z else (a - b)%Z).
  { unfold mag. cbn [Qnum Qden]. subst a b.
    destruct n; [congruence | reflexivity | reflexivity]. }
  rewrite Hm.
  destruct (Qle_bool (pow2 (a - b)) (Qabs (n # d))) eqn:E.
  - apply Qle_bool_iff in E. split.
    + replace (a - b + 1 - 1)%Z with (a - b)%Z by lia. exact E.
    + exact Upper.
  - split; [exact Lower |].
    apply Qnot_le_lt. intros H. apply Qle_bool_iff in H. congruence.
Qed.

Lemma mag_unique x e :
  pow2 (e - 1) <= Qabs x -> Qabs x < pow2 e -> mag x = e.
Proof.
  intros L U.
  assert (Hx : ~ x == 0).
  { intros H. rewrite H in L. pose proof (pow2_pos (e - 1)) as P.
    change (Qabs 0) with 0 in L. apply (Qlt_not_le _ _ P L). }
  destruct (mag_spec x Hx) as [L' U'].
  destruct (Z.lt_trichotomy (mag x) e) as [H | [H | H]]; [| exact H |].
  - exfalso. apply (Qlt_irrefl (Qabs x)).
    apply Qlt_le_trans with (pow2 (mag x)); [exact U' |].
    apply Qle_trans with (pow2 (e - 1)); [apply pow2_le; lia | exact L].
  - exfalso. apply (Qlt_irrefl (Qabs x)).
    apply Qlt_le_trans with (pow2 e); [exact U |].
    apply Qle_trans with (pow2 (mag x - 1)); [apply pow2_le; lia | exact L'].
Qed.

Lemma Qnum_0 x : x == 0 -> Qnum x = 0%Z.
Proof. unfold Qeq. cbn. lia. Qed.

Lemma mag_comp x y : x == y -> mag x = mag y.
Proof.
  intros E. destruct (Qeq_dec x 0) as [Hx | Hx].
  - assert (Hy : y == 0) by (rewrite <- E; exact Hx).
    unfold mag. rewrite (Qnum_0 x Hx), (Qnum_0 y Hy). reflexivity.
  - assert (Hy : ~ y == 0) by (rewrite <- E; exact Hx).
    destruct (mag_spec y Hy) as [L U].
    apply mag_unique; rewrite E; assumption.
Qed.

Lemma mag_opp x : mag (- x) = mag x.
Proof.
  destruct (Qeq_dec x 0) as [Hx | Hx].
  - unfold mag. cbn [Qnum Qopp]. rewrite (Qnum_0 x Hx). reflexivity.
  - destruct (mag_spec x Hx) as [L U].
    apply mag_unique; rewrite Qabs_opp; assumption.
Qed.

Lemma mag_le x y : 0 < x -> x <= y -> (mag x <= mag y)%Z.
Proof.
  intros Hx Hxy.
  assert (Nx : ~ x == 0) by (intros E; rewrite E in Hx; discriminate Hx).
  assert (Hy : 0 < y) by (apply Qlt_le_trans with x; assumption).
  assert (Ny : ~ y == 0) by (intros E; rewrite E in Hy; discriminate Hy).
  destruct (mag_spec x Nx) as [Lx Ux]. destruct (mag_spec y Ny) as [Ly Uy].
  rewrite Qabs_pos in Lx, Ux by (apply Qlt_le_weak, Hx).
  rewrite Qabs_pos in Ly, Uy by (apply Qlt_le_weak, Hy).
  destruct (Z_le_gt_dec (mag x) (mag y)) as [H | H]; [exact H |].
  exfalso. apply (Qlt_irrefl y).
  apply Qlt_le_trans with (pow2 (mag y)); [exact Uy |].
  apply Qle_trans with (pow2 (mag x - 1)); [apply pow2_le; lia |].
  apply Qle_trans with x; assumption.
Qed.

(** *** Rounding to the nearest integer *)

Lemma floor_ceiling_cases x :
  (Qceiling x = Qfloor x /\ x == inject_Z (Qfloor x))
  \/ (Qceiling x = Qfloor x + 1)%Z.
Proof.
  pose proof (Qfloor_le x) as Lf. pose proof (Qlt_floor x) as Uf.
  pose proof (Qle_ceiling x) as Uc. pose proof (Qceiling_lt x) as Lc.
  assert (H1 : (Qfloor x <= Qceiling x)%Z).
  { rewrite Zle_Qle. apply Qle_trans with x; assumption. }
  assert (H2 : (Qceiling x - 1 < Qfloor x + 1)%Z).
  { rewrite Zlt_Qlt. apply Qlt_trans with x; assumption. }
  destruct (Z.eq_dec (Qceiling x) (Qfloor x)) as [E | N].
  - left. split; [exact E |]. apply Qle_antisym; [| exact Lf].
    rewrite <- E. exact Uc.
  - right. lia.
Qed.

(** [rne x] is the floor or the ceiling of [x], whichever is nearer, and
    the even one of the two when [x] is half-way. *)
Lemma rne_spec x :
  (rne x = Qfloor x
   /\ (x - inject_Z (Qfloor x) < inject_Z (Qceiling x) - x
       \/ (x - inject_Z (Qfloor x) == inject_Z (Qceiling x) - x
           /\ (Z.even (Qfloor x) = true \/ Qceiling x = Qfloor x))))
  \/ (rne x = Qceiling x
      /\ (inject_Z (Qceiling x) - x < x - inject_Z (Qfloor x)
          \/ (x - inject_Z (Qfloor x) == inject_Z (Qceiling x) - x
              /\ Z.even (Qfloor x) = false))).
Proof.
  unfold rne.
  destruct (Qcompare_spec (x - inject_Z (Qfloor x))
                          (inject_Z (Qceiling x) - x)) as [E | L | G].
  - destruct (Z.even (Qfloor x)) eqn:Ev.
    + left. split; [reflexivity |]. right. split; [exact E | left; reflexivity].
    + right. split; [reflexivity |]. right. split; [exact E | reflexivity].
  - left. split; [reflexivity |]. left. exact L.
  - right. split; [reflexivity |]. left. exact G.
Qed.

Lemma rne_bounds x : (Qfloor x <= rne x <= Qceiling x)%Z.
Proof.
  assert (H : (Qfloor x <= Qceiling x)%Z).
  { rewrite Zle_Qle. apply Qle_floor_ceiling. }
  destruct (rne_spec x) as [[-> _] | [-> _]]; lia.
Qed.

Lemma rne_Z n : rne (inject_Z n) = n.
Proof.
  pose proof (rne_bounds (inject_Z n)) as B.
  rewrite Qfloor_Z, Qceiling_Z in B. lia.
Qed.

Lemma rne_comp x y : x == y -> rne x = rne y.
Proof.
  intros E. unfold rne.
  rewrite (Qfloor_comp x y E), (Qceiling_comp x y E).
  assert (C : Qcompare (x - inject_Z (Qfloor y)) (inject_Z (Qceiling y) - x)
              = Qcompare (y - inject_Z (Qfloor y)) (inject_Z (Qceiling y) - y)).
  { apply Qcompare_comp; rewrite E; reflexivity. }
  rewrite C. reflexivity.
Qed.

Lemma rne_le x y : x <= y -> (rne x <= rne y)%Z.
Proof.
  intros Hxy.
  pose proof (rne_bounds x) as Bx. pose proof (rne_bounds y) as By.
  pose proof (Qfloor_resp_le x y Hxy) as Hf.
  pose proof (Qceiling_resp_le x y Hxy) as Hc.
  destruct (Z_le_gt_dec (Qceiling x) (Qfloor y)) as [H | H]; [lia |].
  destruct (floor_ceiling_cases x) as [[Ex _] | Ex]; [lia |].
  destruct (floor_ceiling_cases y) as [[Ey _] | Ey]; [lia |].
  assert (Ef : Qfloor y = Qfloor x) by lia.
  assert (Ec : Qceiling y = Qceiling x) by lia.
  destruct (rne_spec x) as [[Rx _] | [Rx Cx]]; [lia |].
  destruct (rne_spec y) as [[Ry Cy] | [Ry _]]; [| lia].
  exfalso. rewrite Ef, Ec in Cy.
  set (F := inject_Z (Qfloor x)) in *. set (C := inject_Z (Qceiling x)) in *.
  destruct Cx as [Cx | [Cx Evx]]; destruct Cy as [Cy | [Cy Evy]].
  - lra.
  - lra.
  - lra.
  - destruct Evy as [Evy | Evy]; [congruence | lia].
Qed.

Lemma rne_opp x : rne (- x) = (- rne x)%Z.
Proof.
  assert (Hf : Qfloor (- x) = (- Qceiling x)%Z).
  { unfold Qceiling. lia. }
  assert (Hc : Qceiling (- x) = (- Qfloor x)%Z).
  { unfold Qceiling. rewrite Qopp_involutive. reflexivity. }
  destruct (floor_ceiling_cases x) as [[E I] | E].
  - (* an integer *)
    rewrite (rne_comp x _ I), rne_Z.
    assert (I' : - x == inject_Z (- Qfloor x)).
    { rewrite inject_Z_opp, <- I. reflexivity. }
    rewrite (rne_comp _ _ I'), rne_Z. reflexivity.
  - destruct (rne_spec x) as [[Rx Cx] | [Rx Cx]];
      destruct (rne_spec (- x)) as [[Ry Cy] | [Ry Cy]];
      rewrite Hf, Hc in *; rewrite ?inject_Z_opp in *;
      rewrite Rx, Ry; try reflexivity; exfalso;
      set (F := inject_Z (Qfloor x)) in *;
      set (C := inject_Z (Qceiling x)) in *.
    + destruct Cx as [Cx | [Cx Evx]]; destruct Cy as [Cy | [Cy Evy]];
        try lra.
      destruct Evx as [Evx | Evx]; [| lia].
      destruct Evy as [Evy | Evy]; [| lia].
      rewrite Z.even_opp, E, Z.even_add in Evy. rewrite Evx in Evy.
      discriminate Evy.
    + destruct Cx as [Cx | [Cx Evx]]; destruct Cy as [Cy | [Cy Evy]];
        try lra.
      rewrite Z.even_opp, E, Z.even_add in Evy. rewrite Evx in Evy.
      discriminate Evy.
Qed.

Lemma rne_0 : rne 0 = 0%Z.
Proof. reflexivity. Qed.

Lemma rne_nonneg x : 0 <= x -> (0 <= rne x)%Z.
Proof. intros H. rewrite <- rne_0. apply rne_le, H. Qed.

Lemma rne_nonpos x : x <= 0 -> (rne x <= 0)%Z.
Proof. intros H. rewrite <- rne_0. apply rne_le, H. Qed.

Lemma rne_error x :
  - (1 # 2) <= x - inject_Z (rne x) <= 1 # 2.
Proof.
  pose proof (Qfloor_le x) as Lf. pose proof (Qle_ceiling x) as Uc.
  destruct (floor_ceiling_cases x) as [[E I] | E].
  - rewrite (rne_comp x _ I), rne_Z. rewrite <- I. lra.
  - assert (EC : inject_Z (Qceiling x) == inject_Z (Qfloor x) + 1).
    { rewrite E, inject_Z_plus. reflexivity. }
    destruct (rne_spec x) as [[-> C] | [-> C]];
      set (F := inject_Z (Qfloor x)) in *;
      set (G := inject_Z (Qceiling x)) in *.
    + destruct C as [C | [C _]]; lra.
    + destruct C as [C | [C _]]; lra.
Qed.

Lemma rne_near x n :
  inject_Z n - (1 # 2) < x -> x < inject_Z n + (1 # 2) -> rne x = n.
Proof.
  intros L U. pose proof (rne_error x) as [E1 E2].
  assert (H1 : inject_Z (rne x) < inject_Z (n + 1)).
  { rewrite inject_Z_plus. change (inject_Z 1) with 1. lra. }
  assert (H2 : inject_Z (n - 1) < inject_Z (rne x)).
  { assert (E : inject_Z (n - 1) == inject_Z n - 1).
    { unfold Z.sub. rewrite inject_Z_plus. reflexivity. }
    rewrite E. lra. }
  rewrite <- Zlt_Qlt in H1, H2. lia.
Qed.

(** *** Rounding to a binary format *)

Section Format.
Variables prec emin : Z.
Hypothesis prec_pos : (1 <= prec)%Z.


Lemma ulp_exp_comp x y : x == y -> ulp_exp prec emin x = ulp_exp prec emin y.
Proof. intros E. unfold Float.ulp_exp. rewrite (mag_comp x y E). reflexivity. Qed.

Lemma round_comp x y : x == y -> round_to prec emin x == round_to prec emin y.
Proof.
  intros E. unfold Float.round_to. cbv zeta.
  rewrite (ulp_exp_comp x y E).
  assert (R : rne (x / pow2 (ulp_exp prec emin y)) = rne (y / pow2 (ulp_exp prec emin y))).
  { apply rne_comp. rewrite E. reflexivity. }
  rewrite R. reflexivity.
Qed.

Lemma round_opp x : round_to prec emin (- x) == - round_to prec emin x.
Proof.
  unfold Float.round_to, Float.ulp_exp. cbv zeta. rewrite mag_opp.
  set (e := Z.max (mag x - prec) emin).
  assert (R : rne (- x / pow2 e) = (- rne (x / pow2 e))%Z).
  { rewrite <- rne_opp. apply rne_comp. unfold Qdiv. ring. }
  rewrite R, inject_Z_opp. ring.
Qed.

Lemma round_nonneg x : 0 <= x -> 0 <= round_to prec emin x.
Proof.
  intros H. unfold Float.round_to. cbv zeta.
  apply Qmult_le_0_compat; [| apply Qlt_le_weak, pow2_pos].
  change 0 with (inject_Z 0). rewrite <- Zle_Qle. apply rne_nonneg.
  apply Qle_shift_div_l; [apply pow2_pos |]. rewrite Qmult_0_l. exact H.
Qed.

Lemma round_nonpos x : x <= 0 -> round_to prec emin x <= 0.
Proof.
  intros H.
  assert (N : 0 <= round_to prec emin (- x)) by (apply round_nonneg; lra).
  rewrite round_opp in N. lra.
Qed.

Lemma round_eq_0 x : x == 0 -> round_to prec emin x == 0.
Proof.
  intros E. apply Qle_antisym.
  - apply round_nonpos. rewrite E. apply Qle_refl.
  - apply round_nonneg. rewrite E. apply Qle_refl.
Qed.

(** A multiple of the unit at the exponent of [x] that bounds [x] bounds
    its rounding. *)
Lemma round_le_multiple x n :
  x <= inject_Z n * pow2 (ulp_exp prec emin x) ->
  round_to prec emin x <= inject_Z n * pow2 (ulp_exp prec emin x).
Proof.
  intros H. unfold Float.round_to. cbv zeta.
  apply Qmult_le_compat_r; [| apply Qlt_le_weak, pow2_pos].
  rewrite <- Zle_Qle. rewrite <- (rne_Z n). apply rne_le.
  apply Qle_shift_div_r; [apply pow2_pos | exact H].
Qed.

Lemma round_ge_multiple x n :
  inject_Z n * pow2 (ulp_exp prec emin x) <= x ->
  inject_Z n * pow2 (ulp_exp prec emin x) <= round_to prec emin x.
Proof.
  intros H. unfold Float.round_to. cbv zeta.
  apply Qmult_le_compat_r; [| apply Qlt_le_weak, pow2_pos].
  rewrite <- Zle_Qle. rewrite <- (rne_Z n) at 1. apply rne_le.
  apply Qle_shift_div_l; [apply pow2_pos | exact H].
Qed.

Lemma pow2_as_multiple k e :
  (e <= k)%Z -> pow2 k == inject_Z (2 ^ (k - e)) * pow2 e.
Proof.
  intros H. rewrite pow2_inject by lia. rewrite <- pow2_add.
  replace (k - e + e)%Z with k by lia. reflexivity.
Qed.

Lemma round_le_pos x y : 0 < x -> x <= y -> round_to prec emin x <= round_to prec emin y.
Proof.
  intros Hx Hxy.
  assert (Hy : 0 < y) by (apply Qlt_le_trans with x; assumption).
  assert (Nx : ~ x == 0) by (intros E; rewrite E in Hx; discriminate Hx).
  assert (Ny : ~ y == 0) by (intros E; rewrite E in Hy; discriminate Hy).
  pose proof (mag_le x y Hx Hxy) as Hm.
  destruct (mag_spec x Nx) as [_ Ux]. destruct (mag_spec y Ny) as [Ly _].
  rewrite Qabs_pos in Ux by lra. rewrite Qabs_pos in Ly by lra.
  destruct (Z.eq_dec (ulp_exp prec emin x) (ulp_exp prec emin y)) as [E | N].
  - unfold Float.round_to. cbv zeta. rewrite E.
    apply Qmult_le_compat_r; [| apply Qlt_le_weak, pow2_pos].
    rewrite <- Zle_Qle. apply rne_le, div_pow2_le, Hxy.
  - assert (Hlt : (mag x < mag y)%Z).
    { unfold Float.ulp_exp in N. lia. }
    assert (Ey : ulp_exp prec emin y = (mag y - prec)%Z).
    { unfold Float.ulp_exp in *. lia. }
    set (k := Z.max (mag x) (ulp_exp prec emin x)).
    apply Qle_trans with (pow2 k).
    + rewrite (pow2_as_multiple k (ulp_exp prec emin x)) by (unfold k; lia).
      apply round_le_multiple.
      rewrite <- pow2_as_multiple by (unfold k; lia).
      apply Qle_trans with (pow2 (mag x)); [lra |].
      apply pow2_le. unfold k. lia.
    + apply Qle_trans with (pow2 (mag y - 1)).
      * apply pow2_le. unfold k, Float.ulp_exp in *. lia.
      * rewrite (pow2_as_multiple (mag y - 1) (ulp_exp prec emin y)) by lia.
        apply round_ge_multiple.
        rewrite <- pow2_as_multiple by lia. exact Ly.
Qed.

(** Rounding is monotone. *)
Lemma round_le x y : x <= y -> round_to prec emin x <= round_to prec emin y.
Proof.
  intros Hxy.
  destruct (Qlt_le_dec 0 x) as [Hx | Hx].
  - apply round_le_pos; assumption.
  - destruct (Qlt_le_dec y 0) as [Hy | Hy].
    + assert (H : round_to prec emin (- y) <= round_to prec emin (- x)).
      { apply round_le_pos; lra. }
      rewrite !round_opp in H. lra.
    + apply Qle_trans with 0; [apply round_nonpos | apply round_nonneg];
        assumption.
Qed.

(** A number of the format absorbs a positive term below half a unit in
    its last place. *)
Lemma round_absorb m eps :
  round_to prec emin m == m -> 0 < m -> 0 <= eps ->
  eps < pow2 (ulp_exp prec emin m) / 2 ->
  round_to prec emin (m + eps) == m.
Proof.
  intros Hfix Hm Heps Hsmall.
  assert (Nm : ~ m == 0) by (intros E; rewrite E in Hm; discriminate Hm).
  destruct (mag_spec m Nm) as [Lm Um].
  rewrite Qabs_pos in Lm, Um by lra.
  set (e := ulp_exp prec emin m) in *. set (n := rne (m / pow2 e)).
  assert (En : m == inject_Z n * pow2 e).
  { rewrite <- Hfix at 1. reflexivity. }
  pose proof (pow2_pos e) as Pe.
  assert (Hn : (1 <= n)%Z).
  { destruct (Z_lt_le_dec n 1) as [H | H]; [| exact H]. exfalso.
    assert (H' : inject_Z n <= 0).
    { change 0 with (inject_Z 0). rewrite <- Zle_Qle. lia. }
    assert (m <= 0); [| lra].
    rewrite En. rewrite <- (Qmult_0_l (pow2 e)).
    apply Qmult_le_compat_r; lra. }
  assert (Hmag : (e < mag m)%Z).
  { apply pow2_lt_inv. apply Qle_lt_trans with m; [| exact Um].
    rewrite En. rewrite <- (Qmult_1_l (pow2 e)) at 1.
    apply Qmult_le_compat_r; [| lra].
    change 1 with (inject_Z 1). rewrite <- Zle_Qle. exact Hn. }
  assert (Hnext : m + pow2 e <= pow2 (mag m)).
  { rewrite (pow2_as_multiple (mag m) e) by lia.
    assert (Hlt : (n < 2 ^ (mag m - e))%Z).
    { rewrite Zlt_Qlt.
      apply Qmult_lt_r with (pow2 e); [exact Pe |].
      rewrite <- En. rewrite <- pow2_as_multiple by lia. exact Um. }
    assert (H1 : inject_Z (n + 1) * pow2 e
                 <= inject_Z (2 ^ (mag m - e)) * pow2 e).
    { apply Qmult_le_compat_r; [| lra]. rewrite <- Zle_Qle. lia. }
    rewrite inject_Z_plus in H1. change (inject_Z 1) with 1 in H1. lra. }
  assert (Hhalf : pow2 e / 2 < pow2 e).
  { apply Qlt_shift_div_r; [reflexivity |]. lra. }
  assert (Emag : mag (m + eps) = mag m).
  { apply mag_unique; rewrite Qabs_pos by lra; lra. }
  unfold Float.round_to, Float.ulp_exp. cbv zeta. rewrite Emag.
  fold (ulp_exp prec emin m). fold e.
  assert (R : rne ((m + eps) / pow2 e) = n).
  { apply rne_near.
    - apply Qlt_le_trans with (inject_Z n); [lra |].
      apply Qle_shift_div_l; [exact Pe |]. rewrite <- En. lra.
    - apply Qlt_shift_div_r; [exact Pe |].
      rewrite Qmult_plus_distr_l, <- En.
      apply Qplus_lt_r.
      apply Qlt_le_trans with (pow2 e / 2); [exact Hsmall |].
      unfold Qdiv. rewrite Qmult_comm. apply Qle_refl. }
  rewrite R, <- En. reflexivity.
Qed.


(** A number that is at least the smallest positive number of the format
    is not rounded to zero. *)
Lemma round_pos x : pow2 emin <= x -> 0 < round_to prec emin x.
Proof.
  intros H. pose proof (pow2_pos emin) as Pm.
  assert (Hx : 0 < x) by lra.
  assert (Nx : ~ x == 0) by (intros E; rewrite E in Hx; discriminate Hx).
  destruct (mag_spec x Nx) as [L _]. rewrite Qabs_pos in L by lra.
  assert (Hu : pow2 (ulp_exp prec emin x) <= x).
  { unfold Float.ulp_exp.
    destruct (Z.max_spec (mag x - prec) emin) as [[_ ->] | [_ ->]].
    - exact H.
    - apply Qle_trans with (pow2 (mag x - 1)); [apply pow2_le; lia | exact L]. }
  apply Qlt_le_trans with (inject_Z 1 * pow2 (ulp_exp prec emin x)).
  - change (inject_Z 1) with 1. rewrite Qmult_1_l. apply pow2_pos.
  - apply round_ge_multiple. change (inject_Z 1) with 1.
    rewrite Qmult_1_l. exact Hu.
Qed.

(** The numbers of the format are multiples of the smallest positive
    one. *)
Lemma round_multiple_of_min x :
  round_to prec emin x == x -> exists k, x == inject_Z k * pow2 emin.
Proof.
  intros H. unfold Float.round_to in H. cbv zeta in H.
  set (e := ulp_exp prec emin x) in *. set (n := rne (x / pow2 e)) in *.
  assert (He : (emin <= e)%Z) by (unfold e, Float.ulp_exp; lia).
  exists (n * 2 ^ (e - emin))%Z.
  rewrite inject_Z_mult, <- Qmult_assoc, <- pow2_as_multiple by exact He.
  symmetry. exact H.
Qed.

(** A sum of two numbers of the format that is rounded to zero is
    zero. *)
Lemma round_sum_eq_0 a b :
  round_to prec emin a == a -> round_to prec emin b == b ->
  round_to prec emin (a + b) == 0 -> a + b == 0.
Proof.
  intros Ha Hb H0.
  destruct (round_multiple_of_min a Ha) as [ka Ea].
  destruct (round_multiple_of_min b Hb) as [kb Eb].
  pose proof (pow2_pos emin) as Pm.
  assert (Es : a + b == inject_Z (ka + kb) * pow2 emin).
  { rewrite inject_Z_plus, Ea, Eb. ring. }
  destruct (Z.lt_trichotomy (ka + kb) 0) as [Hk | [Hk | Hk]].
  - exfalso.
    assert (Hge : pow2 emin <= - (a + b)).
    { rewrite Es.
      assert (H1 : inject_Z (ka + kb) <= -1).
      { change (-1) with (inject_Z (-1)). rewrite <- Zle_Qle. lia. }
      assert (H2 : inject_Z (ka + kb) * pow2 emin <= -1 * pow2 emin).
      { apply Qmult_le_compat_r; lra. }
      lra. }
    pose proof (round_pos _ Hge) as P. rewrite round_opp, H0 in P.
    discriminate P.
  - rewrite Es, Hk. apply Qmult_0_l.
  - exfalso.
    assert (Hge : pow2 emin <= a + b).
    { rewrite Es.
      assert (H1 : 1 <= inject_Z (ka + kb)).
      { change 1 with (inject_Z 1). rewrite <- Zle_Qle. lia. }
      assert (H2 : 1 * pow2 emin <= inject_Z (ka + kb) * pow2 emin).
      { apply Qmult_le_compat_r; lra. }
      lra. }
    pose proof (round_pos _ Hge) as P. rewrite H0 in P. discriminate P.
Qed.

(** The unit in the last place of a number that is at least [2 ^ k]. *)
Lemma ulp_exp_ge x k :
  pow2 k <= x -> (k + 1 - prec <= ulp_exp prec emin x)%Z.
Proof.
  intros H. pose proof (pow2_pos k) as Pk.
  assert (Nx : ~ x == 0) by (intros E; rewrite E in H; lra).
  destruct (mag_spec x Nx) as [_ U]. rewrite Qabs_pos in U by lra.
  assert (Hm : (k < mag x)%Z).
  { apply pow2_lt_inv. lra. }
  unfold Float.ulp_exp. lia.
Qed.

End Format.

(** *** Binary32 *)

Lemma round32_le x y : x <= y -> round32 x <= round32 y.
Proof. apply round_le. lia. Qed.

Lemma round32_comp x y : x == y -> round32 x == round32 y.
Proof. apply round_comp. Qed.

Lemma round32_nonneg x : 0 <= x -> 0 <= round32 x.
Proof. apply round_nonneg. Qed.

Lemma round32_eq_0 x : x == 0 -> round32 x == 0.
Proof. apply round_eq_0. Qed.

Lemma round32_1 : round32 1 == 1.
Proof. vm_compute. reflexivity. Qed.

Lemma round32_max : round32 max_float32 == max_float32.
Proof. vm_compute. reflexivity. Qed.

Lemma one_le_max : 1 <= max_float32.
Proof. vm_compute. discriminate. Qed.

Lemma max_float32_pos : 0 < max_float32.
Proof. reflexivity. Qed.

Lemma float32_some x :
  - max_float32 <= round32 x -> round32 x <= max_float32 ->
  float32 x = Some (round32 x).
Proof.
  intros L U. unfold float32. cbv zeta.
  assert (H : Qle_bool (Qabs (round32 x)) max_float32 = true).
  { apply Qle_bool_iff, Qabs_Qle_condition. split; assumption. }
  rewrite H. reflexivity.
Qed.

Lemma float32_value x r : float32 x = Some r -> r = round32 x.
Proof.
  unfold float32. cbv zeta.
  destruct (Qle_bool (Qabs (round32 x)) max_float32); [| discriminate].
  intros H. injection H as <-. reflexivity.
Qed.

Lemma float32_bound x r :
  float32 x = Some r -> - max_float32 <= r /\ r <= max_float32.
Proof.
  unfold float32. cbv zeta.
  destruct (Qle_bool (Qabs (round32 x)) max_float32) eqn:E; [| discriminate].
  intros H. injection H as <-.
  apply Qabs_Qle_condition, Qle_bool_iff, E.
Qed.

(** An exact result between 0 and 1 is rounded to a finite number
    between 0 and 1. *)
Lemma float32_unit x :
  0 <= x -> x <= 1 ->
  float32 x = Some (round32 x) /\ 0 <= round32 x /\ round32 x <= 1.
Proof.
  intros L U.
  assert (R0 : 0 <= round32 x) by (apply round32_nonneg, L).
  assert (R1 : round32 x <= 1).
  { rewrite <- round32_1. apply round32_le, U. }
  pose proof one_le_max. pose proof max_float32_pos.
  split; [apply float32_some; lra | split; assumption].
Qed.

Lemma is_float32_round x :
  is_float32 x ->
  round32 x == x /\ - max_float32 <= x /\ x <= max_float32.
Proof.
  intros [r [H E]]. pose proof (float32_bound x r H) as [L U].
  rewrite (float32_value x r H) in E, L, U.
  split; [exact E | split; lra].
Qed.

Lemma is_float32_intro x :
  round32 x == x -> - max_float32 <= x -> x <= max_float32 ->
  is_float32 x.
Proof.
  intros E L U. exists (round32 x). split; [| exact E].
  apply float32_some; rewrite E; assumption.
Qed.

Lemma is_float32_comp x y : x == y -> is_float32 x -> is_float32 y.
Proof.
  intros E H. destruct (is_float32_round x H) as [R [L U]].
  pose proof (round32_comp x y E) as C.
  apply is_float32_intro; lra.
Qed.

Lemma is_float32_0 : is_float32 0.
Proof. exists (round32 0). split; vm_compute; reflexivity. Qed.

Lemma is_float32_relu x : is_float32 x -> is_float32 (Qmax x 0).
Proof.
  intros H. unfold Qmax, GenericMinMax.gmax.
  destruct (x ?= 0); [exact H | apply is_float32_0 | exact H].
Qed.

(** Adding a small positive constant to a float32 number does not
    overflow, and does not give less than the number. *)
Lemma float32_add_small m eps :
  0 <= eps -> round32 (max_float32 + eps) <= max_float32 ->
  is_float32 m ->
  float32 (m + eps) = Some (round32 (m + eps)) /\ m <= round32 (m + eps).
Proof.
  intros He Hmax Hm. destruct (is_float32_round m Hm) as [R [L U]].
  assert (G : m <= round32 (m + eps)).
  { rewrite <- R at 1. apply round32_le. lra. }
  split; [| exact G].
  apply float32_some; [lra |].
  apply Qle_trans with (round32 (max_float32 + eps)); [| exact Hmax].
  apply round32_le. lra.
Qed.

(** A float32 number that is at least [2 ^ k] absorbs a positive term
    below [2 ^ (k - 24)]. *)
Lemma round32_absorb m eps k :
  is_float32 m -> pow2 k <= m -> 0 <= eps -> eps < pow2 (k - 24) ->
  round32 (m + eps) == m.
Proof.
  intros Hm Hk He Hs. destruct (is_float32_round m Hm) as [R _].
  pose proof (pow2_pos k) as Pk.
  apply round_absorb; [exact R | lra | exact He |].
  pose proof (ulp_exp_ge 24 (-149) m k Hk) as Hu.
  apply Qlt_le_trans with (pow2 (k - 24)); [exact Hs |].
  apply Qle_shift_div_l; [reflexivity |].
  rewrite Qmult_comm. rewrite <- pow2_succ.
  apply pow2_le. lia.
Qed.

(** A sum of two float32 numbers that is rounded to zero is zero. *)
Lemma round32_sum_eq_0 a b :
  is_float32 a -> is_float32 b -> round32 (a + b) == 0 -> a + b == 0.
Proof.
  intros Ha Hb. destruct (is_float32_round a Ha) as [Ra _].
  destruct (is_float32_round b Hb) as [Rb _].
  apply round_sum_eq_0; [lia | exact Ra | exact Rb].
Qed.

(** *** Agreement with the Standard Library's specification

    Sums and quotients of float32 numbers, among them the two constants of
    the normalisation, numbers on both sides of a power of two, the
    largest finite number, subnormal numbers and ties. *)

Example float32_agrees_with_the_specification :
  forallb (fun p => agrees_on (fst p) (snd p))
    [ (S754_finite false 12582912 (-22), S754_finite false 11258999 (-50));
      (S754_finite false 12582912 (-22), S754_finite false 14411519 (-57));
      (S754_finite false 8388608 (-23), S754_finite false 12582912 (-22));
      (S754_finite false 14411519 (-57), S754_finite false 14411519 (-57));
      (S754_finite false 11258999 (-50), S754_finite true 11258999 (-50));
      (S754_finite true 16777215 (-24), S754_finite false 11258999 (-50));
      (S754_finite false 16777215 (-24), S754_finite false 8388608 (-47));
      (S754_finite false 8388609 (-23), S754_finite false 8388608 (-47));
      (S754_finite false 16777215 104, S754_finite false 11258999 (-50));
      (S754_finite false 16777215 104, S754_finite false 16777215 104);
      (S754_finite false 16777215 104, S754_finite false 8388608 80);
      (S754_finite false 16777215 104, S754_finite false 1 (-149));
      (S754_finite false 1 (-149), S754_finite false 8388608 (-22));
      (S754_finite false 3 (-149), S754_finite false 8388608 (-22));
      (S754_finite false 5 (-149), S754_finite true 8388608 (-21));
      (S754_finite false 8388607 (-149), S754_finite false 1 (-149));
      (S754_finite true 11184811 (-25), S754_finite false 13421773 (-27));
      (S754_zero false, S754_finite false 11258999 (-50)) ]
  = true.
Proof. vm_compute. reflexivity. Qed.

End FloatFacts.

(** ** Grad-CAM normalisation *)

Module GradCamFacts.
Import Float FloatFacts GradCam.
Local Open Scope Q_scope.

Lemma entries_tmap {A B} (f : A -> B) (t : list (list A)) :
  entries (tmap f t) = map f (entries t).
Proof.
  unfold entries, tmap. induction t as [| r t IH]; simpl.
  - reflexivity.
  - rewrite map_app, IH. reflexivity.
Qed.

Lemma shape_tmap {A B} (f : A -> B) (t : list (list A)) :
  map (@List.length B) (tmap f t) = map (@List.length A) t.
Proof.
  unfold tmap. rewrite map_map. apply map_ext. intros r.
  apply length_map.
Qed.

Lemma tmap_tmap {A B C} (f : A -> B) (g : B -> C) (t : list (list A)) :
  tmap g (tmap f t) = tmap (fun x => g (f x)) t.
Proof.
  unfold tmap. rewrite map_map. apply map_ext. intros r. apply map_map.
Qed.

Lemma tmap_ext {A B} (f g : A -> B) (t : list (list A)) :
  (forall x, f x = g x) -> tmap f t = tmap g t.
Proof.
  intros H. unfold tmap. apply map_ext. intros r. apply map_ext, H.
Qed.

Lemma tmap_ext_in {A B} (f g : A -> B) (t : list (list A)) :
  (forall x, In x (entries t) -> f x = g x) -> tmap f t = tmap g t.
Proof.
  intros H. unfold tmap. apply map_ext_in. intros r Hr.
  apply map_ext_in. intros x Hx. apply H.
  unfold entries. apply in_concat. exists r. auto.
Qed.

(** *** The maximum of a list *)

Lemma max_list_none l : max_list l = None <-> l = [].
Proof.
  destruct l as [| x r]; simpl.
  - tauto.
  - destruct (max_list r); split; discriminate.
Qed.

Lemma Qmax_cases x y : Qmax x y = x \/ Qmax x y = y.
Proof.
  unfold Qmax, GenericMinMax.gmax. destruct (x ?= y); auto.
Qed.

Lemma max_list_in l m : max_list l = Some m -> In m l.
Proof.
  revert m. induction l as [| x r IH]; simpl; intros m H.
  - discriminate.
  - destruct (max_list r) as [m' |] eqn:E.
    + injection H as <-.
      destruct (Qmax_cases x m') as [-> | ->]; auto.
    + injection H as <-. auto.
Qed.

Lemma max_list_upper l m : max_list l = Some m -> forall x, In x l -> x <= m.
Proof.
  revert m. induction l as [| y r IH]; simpl; intros m H x Hx.
  - contradiction.
  - destruct (max_list r) as [m' |] eqn:E.
    + injection H as <-. destruct Hx as [<- | Hx].
      * apply Q.le_max_l.
      * apply Qle_trans with m'; [apply IH; auto | apply Q.le_max_r].
    + injection H as <-. apply max_list_none in E. subst r.
      destruct Hx as [<- | []]. apply Qle_refl.
Qed.

Lemma max_list_some l : l <> [] -> exists m, max_list l = Some m.
Proof.
  intros H. destruct (max_list l) as [m |] eqn:E; eauto.
  apply max_list_none in E. contradiction.
Qed.

(** The maximum of the images by a monotone function is the image of the
    maximum. *)
Lemma max_list_monotone (g : Q -> Q) l d m :
  (forall x y, x <= y -> g x <= g y) ->
  max_list (map g l) = Some d -> max_list l = Some m -> d == g m.
Proof.
  intros Hg Hd Hm.
  pose proof (max_list_in _ _ Hd) as Id.
  apply in_map_iff in Id. destruct Id as [x0 [<- I0]].
  apply Qle_antisym.
  - apply Hg. apply (max_list_upper _ _ Hm). exact I0.
  - apply (max_list_upper _ _ Hd). apply in_map.
    apply (max_list_in _ _ Hm).
Qed.

(** The maximum of the clipped entries is the clipped maximum. *)
Lemma max_list_relu l d m :
  max_list (map (fun x => Qmax x 0) l) = Some d ->
  max_list l = Some m -> d == Qmax m 0.
Proof.
  intros Hd Hm.
  apply (max_list_monotone (fun x => Qmax x 0) l d m); try assumption.
  intros x y H. apply Q.max_le_compat_r. exact H.
Qed.

Lemma all_finite_map (f : Q -> fval) (g : Q -> Q) l :
  (forall x, In x l -> f x = Some (g x)) ->
  all_finite (map f l) = Some (map g l).
Proof.
  induction l as [| x l IH]; intros H; cbn [map all_finite].
  - reflexivity.
  - rewrite (H x) by (left; reflexivity).
    rewrite IH by (intros y Hy; apply H; right; exact Hy).
    reflexivity.
Qed.

(** *** The two constants *)

(** [1e-8] and [1e-10]: the decimal, rounded to a double, converted to
    float32. *)
Lemma spiral_eps_literal : round32 (round64 (1 # 100000000)) == spiral_eps.
Proof. vm_compute. reflexivity. Qed.

Lemma wave_eps_literal : round32 (round64 (1 # 10000000000)) == wave_eps.
Proof. vm_compute. reflexivity. Qed.

Lemma spiral_eps_pos : 0 < spiral_eps.
Proof. reflexivity. Qed.

Lemma wave_eps_pos : 0 < wave_eps.
Proof. reflexivity. Qed.

Lemma spiral_eps_float32 : is_float32 spiral_eps.
Proof. exists (round32 spiral_eps). split; vm_compute; reflexivity. Qed.

Lemma wave_eps_float32 : is_float32 wave_eps.
Proof. exists (round32 wave_eps). split; vm_compute; reflexivity. Qed.

Lemma spiral_eps_no_overflow :
  round32 (max_float32 + spiral_eps) <= max_float32.
Proof. vm_compute. discriminate. Qed.

Lemma wave_eps_no_overflow :
  round32 (max_float32 + wave_eps) <= max_float32.
Proof. vm_compute. discriminate. Qed.

(** From a largest entry of 1/4 on, [1e-8] is lost in the sum; from 1/512
    on, [1e-10] is. *)
Lemma spiral_eps_absorbed m :
  is_float32 m -> spiral_full <= m -> round32 (m + spiral_eps) == m.
Proof.
  intros Hm H. apply (round32_absorb m spiral_eps (-2)).
  - exact Hm.
  - exact H.
  - discriminate.
  - vm_compute. reflexivity.
Qed.

Lemma wave_eps_absorbed m :
  is_float32 m -> wave_full <= m -> round32 (m + wave_eps) == m.
Proof.
  intros Hm H. apply (round32_absorb m wave_eps (-9)).
  - exact Hm.
  - exact H.
  - discriminate.
  - vm_compute. reflexivity.
Qed.

(** *** Addition and division *)

Lemma fadd_spiral_eps m :
  is_float32 m ->
  fadd m spiral_eps = Some (round32 (m + spiral_eps))
  /\ m <= round32 (m + spiral_eps).
Proof.
  apply float32_add_small; [discriminate | apply spiral_eps_no_overflow].
Qed.

Lemma fadd_wave_eps m :
  is_float32 m ->
  fadd m wave_eps = Some (round32 (m + wave_eps))
  /\ m <= round32 (m + wave_eps).
Proof.
  apply float32_add_small; [discriminate | apply wave_eps_no_overflow].
Qed.

Lemma relu_nonneg x : 0 <= Qmax x 0.
Proof. apply Q.le_max_r. Qed.

Lemma relu_of_nonpos x : x <= 0 -> Qmax x 0 == 0.
Proof. intros H. apply Q.max_r. exact H. Qed.

Lemma relu_of_pos x : 0 < x -> Qmax x 0 == x.
Proof. intros H. apply Q.max_l. apply Qlt_le_weak. exact H. Qed.

Lemma zero_div d : 0 / d == 0.
Proof. unfold Qdiv. apply Qmult_0_l. Qed.

Lemma div_le_1 a d : 0 < d -> a <= d -> a / d <= 1.
Proof.
  intros Hd H. apply Qle_shift_div_r; [exact Hd |].
  rewrite Qmult_1_l. exact H.
Qed.

Lemma div_nonneg a d : 0 < d -> 0 <= a -> 0 <= a / d.
Proof.
  intros Hd H. apply Qle_shift_div_l; [exact Hd |].
  rewrite Qmult_0_l. exact H.
Qed.

Lemma div_mono a b d : 0 < d -> a <= b -> a / d <= b / d.
Proof.
  intros Hd H. unfold Qdiv. apply Qmult_le_compat_r; [exact H |].
  apply Qlt_le_weak, Qinv_lt_0_compat, Hd.
Qed.

Lemma fdiv_nonzero x d : ~ d == 0 -> fdiv x d = float32 (x / d).
Proof.
  intros H. unfold fdiv.
  destruct (Qeq_bool d 0) eqn:E; [| reflexivity].
  apply Qeq_bool_iff in E. contradiction.
Qed.

(** A quotient of a number between 0 and a positive denominator. *)
Lemma fdiv_unit x d :
  0 <= x -> x <= d -> 0 < d ->
  fdiv x d = Some (round32 (x / d))
  /\ 0 <= round32 (x / d) /\ round32 (x / d) <= 1.
Proof.
  intros Hx Hxd Hd.
  rewrite fdiv_nonzero by (intros E; rewrite E in Hd; discriminate Hd).
  apply float32_unit; [apply div_nonneg | apply div_le_1]; assumption.
Qed.

(** Zero divided by a denominator that is not zero. *)
Lemma fdiv_of_zero x d :
  x == 0 -> ~ d == 0 ->
  fdiv x d = Some (round32 (x / d)) /\ round32 (x / d) == 0.
Proof.
  intros Hx Hd. rewrite (fdiv_nonzero x d Hd).
  assert (E : x / d == 0) by (rewrite Hx; apply zero_div).
  destruct (float32_unit (x / d)) as [F _]; [rewrite E .. |].
  - apply Qle_refl.
  - discriminate.
  - split; [exact F | apply round32_eq_0, E].
Qed.

(** *** The normalisation, for a given denominator *)

(** The clipped entries divided by a denominator [d] that is not zero,
    dominates the positive entries and is the float32 sum of the largest
    entry and [eps] when that entry is positive. *)
Lemma normalised_of_division eps full raw d :
  ~ d == 0 ->
  (forall x, In x (entries raw) -> 0 < x -> x <= d) ->
  (forall m, reduce_max raw = Some m -> 0 < m ->
     fadd m eps = Some (round32 (m + eps))
     /\ d == round32 (m + eps)
     /\ (full <= m -> round32 (m + eps) == m)) ->
  normalised eps full raw (tmap (fun x => fdiv (Qmax x 0) d) raw).
Proof.
  intros Hd Hdom Hmax.
  assert (Hpos : forall x, In x (entries raw) -> 0 < x ->
            fdiv (Qmax x 0) d = Some (round32 (Qmax x 0 / d))
            /\ 0 <= round32 (Qmax x 0 / d) /\ round32 (Qmax x 0 / d) <= 1).
  { intros x Hx Px. pose proof (Hdom x Hx Px) as Hxd.
    apply fdiv_unit.
    - apply relu_nonneg.
    - rewrite (relu_of_pos x Px). exact Hxd.
    - apply Qlt_le_trans with x; assumption. }
  assert (Hneg : forall x, x <= 0 ->
            fdiv (Qmax x 0) d = Some (round32 (Qmax x 0 / d))
            /\ round32 (Qmax x 0 / d) == 0).
  { intros x Nx. apply fdiv_of_zero; [apply relu_of_nonpos, Nx | exact Hd]. }
  unfold normalised. rewrite shape_tmap, entries_tmap.
  split; [reflexivity |]. split; [| split].
  - apply Forall_map, Forall_forall. intros x Hx.
    exists (round32 (Qmax x 0 / d)).
    destruct (Qlt_le_dec 0 x) as [Px | Nx].
    + destruct (Hpos x Hx Px) as [F [L U]]. auto.
    + destruct (Hneg x Nx) as [F E]. split; [exact F |].
      rewrite E. split; [apply Qle_refl | discriminate].
  - intros Hall. apply Forall_map.
    rewrite Forall_forall in Hall |- *. intros x Hx.
    exists (round32 (Qmax x 0 / d)). apply Hneg, Hall, Hx.
  - intros m Hm Pm.
    destruct (Hmax m Hm Pm) as [Fa [Ed Hfull]].
    pose proof (max_list_in _ _ Hm) as Im.
    pose proof (max_list_upper _ _ Hm) as Um.
    change (List.concat raw) with (entries raw) in Im, Um.
    pose proof (Hdom m Im Pm) as Hmd.
    assert (Pd : 0 < d) by (apply Qlt_le_trans with m; assumption).
    set (d0 := round32 (m + eps)) in *.
    assert (Pd0 : 0 < d0) by (rewrite <- Ed; exact Pd).
    assert (Hmd0 : m <= d0) by (rewrite <- Ed; exact Hmd).
    destruct (fdiv_unit m d0) as [Ft [Lt Ut]];
      [apply Qlt_le_weak, Pm | exact Hmd0 | exact Pd0 |].
    exists d0, (round32 (m / d0)).
    split; [exact Fa |]. split; [exact Ft |].
    split; [| split; [| split]].
    + apply Exists_exists. exists (fdiv (Qmax m 0) d). split.
      * apply (in_map (fun x => fdiv (Qmax x 0) d)). exact Im.
      * exists (round32 (Qmax m 0 / d)).
        split; [apply (Hpos m Im Pm) |].
        apply round32_comp. rewrite (relu_of_pos m Pm), Ed. reflexivity.
    + apply Forall_map, Forall_forall. intros x Hx.
      exists (round32 (Qmax x 0 / d)). split.
      * destruct (Qlt_le_dec 0 x) as [Px | Nx];
          [apply (Hpos x Hx Px) | apply (Hneg x Nx)].
      * apply round32_le. rewrite Ed. apply div_mono; [exact Pd0 |].
        apply Q.max_lub; [apply Um, Hx | apply Qlt_le_weak, Pm].
    + exact Ut.
    + intros Hf. rewrite <- round32_1. apply round32_comp.
      rewrite (Hfull Hf). apply Qmult_inv_r.
      intros E. rewrite E in Pm. discriminate Pm.
Qed.

(** A heatmap without entries is returned as it is. *)
Lemma normalised_of_empty eps full raw (out : heatmap) :
  entries raw = [] ->
  map (@List.length fval) out = map (@List.length Q) raw ->
  entries out = [] ->
  normalised eps full raw out.
Proof.
  intros Hraw Hshape Hout. unfold normalised. rewrite Hout.
  split; [exact Hshape |]. split; [constructor |].
  split; [intros _; constructor |].
  intros m Hm _. unfold reduce_max in Hm. unfold entries in Hraw.
  rewrite Hraw in Hm. discriminate.
Qed.

(** *** The wave heatmap *)

(** The largest clipped entry is a float32 number that is not negative;
    the denominator is positive and dominates the clipped entries. *)
Lemma wave_denominator raw m :
  float32_tensor raw -> reduce_max (relu raw) = Some m ->
  is_float32 m /\ 0 <= m
  /\ (forall x, In x (entries raw) -> Qmax x 0 <= m)
  /\ fadd m wave_eps = Some (round32 (m + wave_eps))
  /\ 0 < round32 (m + wave_eps) /\ m <= round32 (m + wave_eps).
Proof.
  intros Hraw Hm. unfold reduce_max, relu in Hm.
  change (List.concat (tmap (fun x => Qmax x 0) raw))
    with (entries (tmap (fun x => Qmax x 0) raw)) in Hm.
  rewrite entries_tmap in Hm.
  pose proof (max_list_in _ _ Hm) as I.
  apply in_map_iff in I. destruct I as [x0 [E0 I0]].
  assert (Fm : is_float32 m).
  { rewrite <- E0. apply is_float32_relu.
    unfold float32_tensor in Hraw. rewrite Forall_forall in Hraw.
    apply Hraw, I0. }
  assert (Nm : 0 <= m) by (rewrite <- E0; apply relu_nonneg).
  destruct (fadd_wave_eps m Fm) as [Fa G].
  split; [exact Fm |]. split; [exact Nm |]. split; [| split; [exact Fa |]].
  - intros x Hx. apply (max_list_upper _ _ Hm).
    apply (in_map (fun x => Qmax x 0)). exact Hx.
  - split; [| exact G].
    destruct (is_float32_round _ wave_eps_float32) as [R _].
    pose proof wave_eps_pos as Pe.
    assert (Hle : round32 wave_eps <= round32 (m + wave_eps)).
    { apply round32_le. lra. }
    lra.
Qed.

(** Wave: every entry is the float32 quotient of the clipped raw value by
    the float32 sum of the largest clipped value and [1e-10]. *)
Lemma normalize_wave_formula raw m :
  float32_tensor raw -> reduce_max (relu raw) = Some m ->
  fadd m wave_eps = Some (round32 (m + wave_eps))
  /\ normalize_wave raw
     = tmap (fun x => fdiv (Qmax x 0) (round32 (m + wave_eps))) raw.
Proof.
  intros Hraw Hm.
  destruct (wave_denominator raw m Hraw Hm) as [_ [_ [_ [Fa _]]]].
  split; [exact Fa |].
  unfold normalize_wave. cbv zeta. rewrite Hm, Fa. cbn [tdiv].
  unfold relu. apply tmap_tmap.
Qed.

Lemma normalize_wave_normalised raw :
  float32_tensor raw ->
  normalised wave_eps wave_full raw (normalize_wave raw).
Proof.
  intros Hraw.
  destruct (reduce_max (relu raw)) as [m' |] eqn:E.
  - destruct (normalize_wave_formula raw m' Hraw E) as [_ ->].
    destruct (wave_denominator raw m' Hraw E)
      as [Fm [Nm [Up [Fa [Pd G]]]]].
    apply normalised_of_division.
    + intros Z. rewrite Z in Pd. discriminate Pd.
    + intros x Hx Px.
      apply Qle_trans with (Qmax x 0); [apply Q.le_max_l |].
      apply Qle_trans with m'; [apply Up, Hx | exact G].
    + intros m Hm Pm.
      assert (Em : m' == m).
      { unfold reduce_max, relu in E.
        change (List.concat (tmap (fun x => Qmax x 0) raw))
          with (entries (tmap (fun x => Qmax x 0) raw)) in E.
        rewrite entries_tmap in E.
        rewrite (max_list_relu _ _ _ E Hm). apply relu_of_pos, Pm. }
      assert (Fm0 : is_float32 m) by (apply (is_float32_comp m'); assumption).
      destruct (fadd_wave_eps m Fm0) as [Fa0 _].
      split; [exact Fa0 |]. split.
      * apply round32_comp. rewrite Em. reflexivity.
      * intros Hf. apply wave_eps_absorbed; assumption.
  - unfold normalize_wave. cbv zeta. rewrite E. cbn [tdiv].
    unfold reduce_max in E. apply max_list_none in E.
    change (entries (relu raw) = []) in E.
    unfold relu in E. rewrite entries_tmap in E.
    apply map_eq_nil in E.
    apply normalised_of_empty.
    + exact E.
    + unfold relu. rewrite !shape_tmap. reflexivity.
    + unfold relu. rewrite !entries_tmap, E. reflexivity.
Qed.

(** *** The spiral heatmap *)

(** The denominator of the spiral: the largest float32 sum of an entry
    and [1e-8], which is the sum for the largest entry. *)
Lemma spiral_denominator raw m :
  float32_tensor raw -> reduce_max raw = Some m ->
  is_float32 m
  /\ exists d,
       reduce_max_sums (tmap (fun x => fadd x spiral_eps) raw) = Some d
       /\ d == round32 (m + spiral_eps).
Proof.
  intros Hraw Hm. unfold float32_tensor in Hraw.
  rewrite Forall_forall in Hraw.
  unfold reduce_max in Hm. change (List.concat raw) with (entries raw) in Hm.
  pose proof (max_list_in _ _ Hm) as Im.
  split; [apply Hraw, Im |].
  unfold reduce_max_sums.
  change (List.concat (tmap (fun x => fadd x spiral_eps) raw))
    with (entries (tmap (fun x => fadd x spiral_eps) raw)).
  rewrite entries_tmap.
  rewrite (all_finite_map _ (fun x => round32 (x + spiral_eps)))
    by (intros x Hx; apply fadd_spiral_eps, Hraw, Hx).
  destruct (max_list_some (map (fun x => round32 (x + spiral_eps))
                               (entries raw))) as [d Hd].
  { intros Z. apply map_eq_nil in Z. rewrite Z in Im. contradiction. }
  exists d. split; [exact Hd |].
  apply (max_list_monotone (fun x => round32 (x + spiral_eps))
                           (entries raw) d m); try assumption.
  intros x y H. apply round32_le. apply Qplus_le_l. exact H.
Qed.

(** That denominator is zero only for a largest entry of minus [1e-8]. *)
Lemma spiral_denominator_zero m :
  is_float32 m -> round32 (m + spiral_eps) == 0 -> m == - spiral_eps.
Proof.
  intros Fm H.
  pose proof (round32_sum_eq_0 m spiral_eps Fm spiral_eps_float32 H) as E.
  lra.
Qed.

(** Spiral: every entry is the float32 quotient of the clipped raw value
    by the largest float32 sum of a raw value and [1e-8]. *)
Lemma normalize_spiral_formula raw m :
  float32_tensor raw -> reduce_max raw = Some m ->
  exists d, d == round32 (m + spiral_eps)
            /\ normalize_spiral raw
               = tmap (fun x => fdiv (Qmax x 0) d) raw.
Proof.
  intros Hraw Hm.
  destruct (spiral_denominator raw m Hraw Hm) as [_ [d [Hd Ed]]].
  exists d. split; [exact Ed |].
  unfold normalize_spiral. rewrite Hd. cbn [tdiv].
  unfold relu. apply tmap_tmap.
Qed.

Lemma normalize_spiral_normalised raw :
  float32_tensor raw -> spiral_denominator_nonzero raw ->
  normalised spiral_eps spiral_full raw (normalize_spiral raw).
Proof.
  intros Hraw Hnz.
  destruct (reduce_max raw) as [m |] eqn:Hm.
  - destruct (normalize_spiral_formula raw m Hraw Hm) as [d [Ed ->]].
    destruct (spiral_denominator raw m Hraw Hm) as [Fm _].
    destruct (fadd_spiral_eps m Fm) as [Fa G].
    apply normalised_of_division.
    + intros Z. apply (Hnz m Hm). apply spiral_denominator_zero; [exact Fm |].
      rewrite <- Ed. exact Z.
    + intros x Hx Px. rewrite Ed.
      apply Qle_trans with m; [| exact G].
      unfold reduce_max in Hm. apply (max_list_upper _ _ Hm). exact Hx.
    + intros m0 Hm0 Pm. rewrite Hm in Hm0. injection Hm0 as <-.
      split; [exact Fa |]. split; [exact Ed |].
      intros Hf. apply spiral_eps_absorbed; assumption.
  - unfold reduce_max in Hm. apply max_list_none in Hm.
    change (entries raw = []) in Hm.
    unfold normalize_spiral, reduce_max_sums.
    change (List.concat (tmap (fun x => fadd x spiral_eps) raw))
      with (entries (tmap (fun x => fadd x spiral_eps) raw)).
    rewrite entries_tmap, Hm. cbn [map all_finite max_list tdiv].
    apply normalised_of_empty.
    + exact Hm.
    + unfold relu. rewrite !shape_tmap. reflexivity.
    + unfold relu. rewrite !entries_tmap, Hm. reflexivity.
Qed.


(** *** Concrete heatmaps *)

Lemma small_tensor_float32 : float32_tensor [[1; -2]; [3; 0]].
Proof.
  unfold float32_tensor. cbn [entries List.concat app].
  repeat constructor; eexists; split; vm_compute; reflexivity.
Qed.

(** A largest entry of 3: it is divided by itself, the constant being
    lost in the sum, and the largest entry of the heatmap is 1. *)
Example wave_example :
  tmap (option_map Qred) (normalize_wave [[1; -2]; [3; 0]])
  = [[Some (11184811 # 33554432); Some 0]; [Some 1; Some 0]].
Proof. vm_compute. reflexivity. Qed.

Example spiral_example :
  tmap (option_map Qred) (normalize_spiral [[1; -2]; [3; 0]])
  = [[Some (11184811 # 33554432); Some 0]; [Some 1; Some 0]].
Proof. vm_compute. reflexivity. Qed.

(** A largest entry of [1e-10]: it is divided by its double. *)
Example wave_small_maximum :
  tmap (option_map Qred) (normalize_wave [[wave_eps]]) = [[Some (1 # 2)]].
Proof. vm_compute. reflexivity. Qed.

Example spiral_all_negative :
  tmap (option_map Qred) (normalize_spiral [[-1; -2]]) = [[Some 0; Some 0]].
Proof. vm_compute. reflexivity. Qed.

(** The spiral denominator is computed from the heatmap before clipping:
    a raw heatmap whose largest entry is minus [1e-8] is divided by
    zero. *)
Lemma spiral_division_by_zero :
  normalize_spiral [[- spiral_eps; -1]] = [[None; None]].
Proof. vm_compute. reflexivity. Qed.

(** The wave heatmap, which clips first, has no such input. *)
Lemma wave_never_divides_by_zero raw :
  float32_tensor raw ->
  Forall (fun v => v <> None) (entries (normalize_wave raw)).
Proof.
  intros Hraw.
  destruct (normalize_wave_normalised raw Hraw) as [_ [H _]].
  eapply Forall_impl; [| exact H].
  intros v [q [-> _]]. discriminate.
Qed.




(** The same on the spiral side. *)
Lemma spiral_maximum_is_not_1 :
  ~ spec_gradcam_property normalize_spiral [[spiral_eps]].
Proof.
  intros [_ [H | [H _]]].
  - apply Exists_exists in H. destruct H as [v [Hin [q [E Hq]]]].
    vm_compute in Hin. destruct Hin as [<- | []].
    injection E as <-. vm_compute in Hq. discriminate Hq.
  - inversion H as [| x l Hx _]. subst.
    vm_compute in Hx. apply Hx. reflexivity.
Qed.

(** The heatmaps of [make_*_gradcam] are these normalisations of the
    weighted sum of the feature maps. *)
Corollary make_wave_gradcam_normalised conv_outputs grads :
  float32_tensor (weighted_sum conv_outputs (pooled_grads grads)) ->
  normalised wave_eps wave_full
             (weighted_sum conv_outputs (pooled_grads grads))
             (make_wave_gradcam conv_outputs grads).
Proof. apply normalize_wave_normalised. Qed.

End GradCamFacts.

(** ** Image preparation *)

Module ImageProcessorFacts.
Import ImageProcessor.
Local Open Scope Z_scope.

Lemma uint8_small v : is_uint8 v -> uint8 (255 - v) = 255 - v.
Proof. unfold is_uint8, uint8. intros H. apply Z.mod_small. lia. Qed.

Lemma uint8_range v : is_uint8 (uint8 v).
Proof. unfold is_uint8, uint8. apply Z.mod_pos_bound. lia. Qed.

Lemma invert_shape rows cols g :
  has_shape rows cols g -> has_shape rows cols (invert g).
Proof.
  unfold has_shape, invert. intros [Hr Hc]. split.
  - rewrite length_map. exact Hr.
  - apply Forall_map. eapply Forall_impl; [| exact Hc].
    intros r Hlen. simpl. rewrite length_map. exact Hlen.
Qed.

Lemma invert_pixels_ok g : gray_pixels_ok (invert g).
Proof.
  unfold gray_pixels_ok, invert.
  apply Forall_map, Forall_forall. intros r _.
  apply Forall_map, Forall_forall. intros v _.
  apply uint8_range.
Qed.

Lemma row_length rows cols (g : gray_image) i :
  has_shape rows cols g -> (i < rows)%nat ->
  List.length (nth i g []) = cols.
Proof.
  intros [Hr Hc] Hi. rewrite Forall_forall in Hc.
  apply Hc. apply nth_In. lia.
Qed.

Lemma pixel_ok rows cols g i j :
  has_shape rows cols g -> gray_pixels_ok g ->
  (i < rows)%nat -> (j < cols)%nat -> is_uint8 (pixel g i j).
Proof.
  intros Hs Hp Hi Hj. unfold pixel.
  pose proof (row_length _ _ _ _ Hs Hi) as Hlen.
  destruct Hs as [Hr _].
  unfold gray_pixels_ok in Hp. rewrite Forall_forall in Hp.
  assert (Hrow : Forall is_uint8 (nth i g [])).
  { apply Hp. apply nth_In. lia. }
  rewrite Forall_forall in Hrow. apply Hrow. apply nth_In. lia.
Qed.

Lemma invert_pixel rows cols g i j :
  has_shape rows cols g -> (i < rows)%nat -> (j < cols)%nat ->
  pixel (invert g) i j = uint8 (255 - pixel g i j).
Proof.
  intros Hs Hi Hj. unfold pixel, invert.
  pose proof (row_length _ _ _ _ Hs Hi) as Hlen.
  change (@nil Z) with (map (fun v => uint8 (255 - v)) []) at 1.
  rewrite map_nth.
  rewrite (nth_indep _ 0 (uint8 (255 - 0))).
  - apply (map_nth (fun v => uint8 (255 - v))).
  - rewrite length_map. lia.
Qed.

(** The processed image is the entrywise complement of the resized
    grayscale image [resized], whatever its shape. *)
Lemma invert_complement rows cols resized :
  has_shape rows cols resized -> gray_pixels_ok resized ->
  has_shape rows cols (invert resized)
  /\ forall i j, (i < rows)%nat -> (j < cols)%nat ->
                 pixel (invert resized) i j = 255 - pixel resized i j.
Proof.
  intros Hs Hp. split; [apply invert_shape, Hs |].
  intros i j Hi Hj. rewrite (invert_pixel rows cols); auto.
  apply uint8_small. apply (pixel_ok rows cols); auto.
Qed.

Lemma resized_ok ext img width height :
  cvtColor_contract ext -> resize_contract ext -> valid_input img ->
  (0 < width)%nat -> (0 < height)%nat ->
  has_shape height width
    (cv_resize ext (cv_cvtColor_BGR2GRAY ext img) (width, height))
  /\ gray_pixels_ok
       (cv_resize ext (cv_cvtColor_BGR2GRAY ext img) (width, height)).
Proof.
  intros Hcvt Hres [rows [cols [Hr [Hc [Hs Hp]]]]] Hw Hh.
  destruct (Hcvt img rows cols Hs Hp) as [Hs' Hp'].
  apply (Hres _ rows cols); auto.
Qed.

(** C3.  For every valid input image, [process_spiral] returns a
    single-channel image of 256 rows and 256 columns and [process_wave]
    one of 250 rows and 550 columns (550 wide, 250 tall), and every pixel
    of the result is exactly 255 minus the pixel at the same place of the
    resized grayscale input. *)
Theorem process_shape_and_inversion (ext : Externals) (img : bgr_image) :
  cvtColor_contract ext -> resize_contract ext -> valid_input img ->
  let gray := cv_cvtColor_BGR2GRAY ext img in
  (has_shape 256 256 (process_spiral ext img)
   /\ gray_pixels_ok (process_spiral ext img)
   /\ forall i j, (i < 256)%nat -> (j < 256)%nat ->
        pixel (process_spiral ext img) i j
        = 255 - pixel (cv_resize ext gray (256, 256)%nat) i j)
  /\ (has_shape 250 550 (process_wave ext img)
      /\ gray_pixels_ok (process_wave ext img)
      /\ forall i j, (i < 250)%nat -> (j < 550)%nat ->
           pixel (process_wave ext img) i j
           = 255 - pixel (cv_resize ext gray (550, 250)%nat) i j).
Proof.
  intros Hcvt Hres Hvalid. cbv zeta. split.
  - destruct (resized_ok ext img 256 256 Hcvt Hres Hvalid) as [Hs Hp];
      [lia | lia |].
    unfold process_spiral. cbv zeta.
    destruct (invert_complement _ _ _ Hs Hp) as [H1 H2].
    split; [exact H1 |]. split; [apply invert_pixels_ok | exact H2].
  - destruct (resized_ok ext img 550 250 Hcvt Hres Hvalid) as [Hs Hp];
      [lia | lia |].
    unfold process_wave. cbv zeta.
    destruct (invert_complement _ _ _ Hs Hp) as [H1 H2].
    split; [exact H1 |]. split; [apply invert_pixels_ok | exact H2].
Qed.

(** The stand-in libraries honour the contracts. *)
Lemma demo_cvtColor_contract : cvtColor_contract Demo.ext.
Proof.
  intros img rows cols [Hr Hc] _. simpl. unfold Demo.cvtColor. split.
  - split.
    + rewrite length_map. exact Hr.
    + apply Forall_map. eapply Forall_impl; [| exact Hc].
      intros r Hlen. simpl. rewrite length_map. exact Hlen.
  - apply Forall_map, Forall_forall. intros r _.
    apply Forall_map, Forall_forall. intros [[b g] r'] _.
    unfold is_uint8, Demo.luminance. lia.
Defined.

Lemma demo_resize_contract : resize_contract Demo.ext.
Proof.
  intros g rows cols width height _ _ _ _ _ _. simpl.
  unfold Demo.resize. split.
  - split.
    + rewrite length_map, length_seq. reflexivity.
    + apply Forall_map, Forall_forall. intros i _.
      rewrite !length_map, length_seq. reflexivity.
  - apply Forall_map, Forall_forall. intros i _.
    apply Forall_map, Forall_forall. intros j _.
    unfold is_uint8, Demo.clamp. lia.
Defined.

Lemma demo_img0_valid : valid_input Demo.img0.
Proof.
  exists 2%nat, 2%nat. split; [lia |]. split; [lia |]. split.
  - split; [reflexivity |]. repeat constructor.
  - unfold bgr_pixels_ok, is_uint8, Demo.img0.
    repeat constructor; simpl; lia.
Defined.

Lemma process_shape_and_inversion_witness :
  cvtColor_contract Demo.ext /\ resize_contract Demo.ext
  /\ valid_input Demo.img0
  /\ has_shape 256 256 (process_spiral Demo.ext Demo.img0)
  /\ has_shape 250 550 (process_wave Demo.ext Demo.img0).
Proof.
  pose proof (process_shape_and_inversion Demo.ext Demo.img0
                demo_cvtColor_contract demo_resize_contract
                demo_img0_valid) as H.
  cbv zeta in H.
  split; [exact demo_cvtColor_contract |].
  split; [exact demo_resize_contract |].
  split; [exact demo_img0_valid |].
  split; [exact (proj1 (proj1 H)) | exact (proj1 (proj2 H))].
Defined.

(** On a concrete image: the white pixel becomes 0 and the black one
    255. *)
Example process_spiral_corner :
  pixel (process_spiral Demo.ext Demo.img0) 0 0 = 0
  /\ pixel (process_spiral Demo.ext Demo.img0) 0 255 = 255.
Proof. split; vm_compute; reflexivity. Qed.

End ImageProcessorFacts.

(** ** Reasoning about the effectful code *)

Section WpRules.
Context {A B : Type}.
Implicit Types (Q : A -> World -> Prop) (E : exn -> World -> Prop).

Lemma wp_ret (a : A) w Q E : Q a w -> wp (ret a) w Q E.
Proof. exact (fun H => H). Qed.

Lemma wp_raise (e : exn) w Q E : E e w -> wp (@raise A e) w Q E.
Proof. exact (fun H => H). Qed.

Lemma wp_bind (c : M B) (k : B -> M A) w Q E :
  wp c w (fun b w' => wp (k b) w' Q E) E -> wp (bind c k) w Q E.
Proof.
  unfold wp, bind. destruct (c w) as [[b | e] w']; exact (fun H => H).
Qed.

Lemma wp_try (c : M A) (h : exn -> M A) w Q E :
  wp c w Q (fun e w' => wp (h e) w' Q E) -> wp (try_catch c h) w Q E.
Proof.
  unfold wp, try_catch. destruct (c w) as [[a | e] w']; exact (fun H => H).
Qed.

Lemma wp_call (ev : event) (r : outcome A) w Q E :
  (forall a, r = Ret a -> Q a (logged ev w)) ->
  (forall e, r = Raise e -> E e (logged ev w)) ->
  wp (call ev r) w Q E.
Proof.
  unfold wp, call. intros HQ HE. destruct r; auto.
Qed.

Lemma wp_conseq (c : M A) w Q E (Q' : A -> World -> Prop)
      (E' : exn -> World -> Prop) :
  wp c w Q' E' ->
  (forall a w', Q' a w' -> Q a w') ->
  (forall e w', E' e w' -> E e w') ->
  wp c w Q E.
Proof.
  unfold wp. destruct (c w) as [[a | e] w']; auto.
Qed.

(** The outcome of a computation, read back from [wp]. *)
Lemma wp_run (c : M A) w Q E :
  wp c w Q E ->
  (exists a w', c w = (Ret a, w') /\ Q a w')
  \/ (exists e w', c w = (Raise e, w') /\ E e w').
Proof.
  unfold wp. destruct (c w) as [[a | e] w']; eauto.
Qed.
End WpRules.

Lemma wp_log (ev : event) w (Q : unit -> World -> Prop) E :
  Q tt (logged ev w) -> wp (log ev) w Q E.
Proof. exact (fun H => H). Qed.

Lemma wp_print msg w (Q : unit -> World -> Prop) E :
  Q tt (logged (EPrint msg) w) -> wp (print msg) w Q E.
Proof. exact (fun H => H). Qed.

Lemma wp_get_loader w (Q : Loader -> World -> Prop) E :
  Q (loader w) w -> wp get_loader w Q E.
Proof. exact (fun H => H). Qed.

Lemma wp_set_loader l w (Q : unit -> World -> Prop) E :
  Q tt (with_loader l w) -> wp (set_loader l) w Q E.
Proof. exact (fun H => H). Qed.

Lemma wp_get_fs w (Q : FileSystem -> World -> Prop) E :
  Q (fs w) w -> wp get_fs w Q E.
Proof. exact (fun H => H). Qed.

Lemma wp_set_fs f w (Q : unit -> World -> Prop) E :
  Q tt (with_fs f w) -> wp (set_fs f) w Q E.
Proof. exact (fun H => H). Qed.

Lemma wp_now w (Q : datetime -> World -> Prop) E :
  Q (clock w (ticks w)) (ticked w) -> wp now w Q E.
Proof. exact (fun H => H). Qed.

(** One step through a monadic program. *)
Ltac wp_step :=
  lazymatch goal with
  | |- wp (bind _ _) _ _ _ => apply wp_bind
  | |- wp (ret _) _ _ _ => apply wp_ret
  | |- wp (raise _) _ _ _ => apply wp_raise
  | |- wp (print _) _ _ _ => apply wp_print
  | |- wp (log _) _ _ _ => apply wp_log
  | |- wp get_loader _ _ _ => apply wp_get_loader
  | |- wp (set_loader _) _ _ _ => apply wp_set_loader
  | |- wp get_fs _ _ _ => apply wp_get_fs
  | |- wp (set_fs _) _ _ _ => apply wp_set_fs
  | |- wp now _ _ _ => apply wp_now
  | |- wp (call _ _) _ _ _ => apply wp_call; intros ? ?
  | |- wp (try_catch _ _) _ _ _ => apply wp_try
  | |- wp (match ?x with Some _ => _ | None => _ end) _ _ _ =>
    destruct x eqn:?
  end.

(** Normalises the world after a step, so that it stays a record of
    explicit components. *)
Ltac world_simpl :=
  cbn [loader fs trace clock ticks logged with_loader with_fs ticked
       spiral_model wave_model spiral_last_conv wave_last_conv
       models_loaded upload_spiral upload_wave report_slot].

Ltac world_simpl_in H :=
  cbn [loader fs trace clock ticks logged with_loader with_fs ticked
       spiral_model wave_model spiral_last_conv wave_last_conv
       models_loaded upload_spiral upload_wave report_slot] in H.

Ltac wp_steps := repeat (wp_step; world_simpl).

(** ** The model provider *)

Module ModelLoaderFacts.
Import ModelLoader.
Local Open Scope string_scope.

Lemma frame_refl w : frame w w.
Proof. repeat split. Qed.

Lemma frame_trans w1 w2 w3 : frame w1 w2 -> frame w2 w3 -> frame w1 w3.
Proof.
  unfold frame. intros [A1 [A2 [A3 [A4 A5]]]] [B1 [B2 [B3 [B4 B5]]]].
  repeat split; congruence.
Qed.

Lemma missing_not_all_present ext :
  some_file_missing ext -> all_files_present ext -> False.
Proof.
  unfold some_file_missing, all_files_present.
  rewrite Exists_exists, Forall_forall.
  intros [p [Hin Hp]] Hall. rewrite (Hall p Hin) in Hp. discriminate.
Qed.

Ltac wp_setter :=
  lazymatch goal with
  | |- wp (set_spiral_model _) _ _ _ => unfold set_spiral_model
  | |- wp (set_wave_model _) _ _ _ => unfold set_wave_model
  | |- wp (set_models_loaded _) _ _ _ => unfold set_models_loaded
  end.

Ltac wp_go := repeat (first [wp_step | wp_setter]; world_simpl).

Ltac frame_solve :=
  unfold frame in *; world_simpl; intuition congruence.

(** The loop over the required files only looks at them. *)
Lemma check_required_spec ext files w (Q : unit -> World -> Prop) E :
  (forall w', Forall (fun p => os_path_exists ext p = true) files ->
              loader w' = loader w -> frame w w' -> Q tt w') ->
  (forall e w', loader w' = loader w -> frame w w' -> E e w') ->
  wp (check_required ext files) w Q E.
Proof.
  revert w Q E. induction files as [| p files IH]; intros w Q E HQ HE.
  - simpl. wp_go. apply HQ; [constructor | reflexivity | apply frame_refl].
  - simpl. apply wp_bind.
    apply wp_call; [intros present Hp; injection Hp as <- |
                    intros e He; discriminate He].
    destruct (os_path_exists ext p) eqn:Ep; cbn [negb].
    + apply IH.
      * intros w' Hall Hl Hf. apply HQ.
        -- constructor; assumption.
        -- rewrite Hl. reflexivity.
        -- frame_solve.
      * intros e w' Hl Hf. apply HE.
        -- rewrite Hl. reflexivity.
        -- frame_solve.
    + wp_go. apply HE; [reflexivity | frame_solve].
Qed.

(** The [try] block either raises or ends with both models stored and
    the flag set; it ends normally only if the four files are there. *)
Lemma load_models_try_spec ext w :
  wp (load_models_try ext) w
     (fun b w' =>
        b = true /\ models_loaded (loader w') = true
        /\ both_present (loader w') /\ all_files_present ext /\ frame w w')
     (fun e w' => frame w w').
Proof.
  unfold load_models_try. wp_go.
  apply check_required_spec; [| intros; frame_solve].
  intros w1 Hall Hl Hf. wp_go; try frame_solve.
  split; [reflexivity |]. split; [reflexivity |].
  split; [| split; [exact Hall | frame_solve]].
  unfold both_present. cbn. eauto.
Qed.

(** [load_models] never raises.  With the flag already set it answers
    [True] and touches nothing.  Otherwise it answers [True] with both
    models stored and the flag set, which requires the four files, or
    [False] with both models and the flag reset. *)
Lemma load_models_spec ext w :
  wp (load_models ext) w
     (fun b w' =>
        frame w w'
        /\ (models_loaded (loader w) = true -> b = true /\ w' = w)
        /\ (models_loaded (loader w) = false ->
            (b = true ->
             models_loaded (loader w') = true
             /\ both_present (loader w') /\ all_files_present ext)
            /\ (b = false -> unloaded (loader w'))))
     (fun _ _ => False).
Proof.
  unfold load_models. wp_go.
  destruct (models_loaded (loader w)) eqn:Hflag.
  - wp_go. split; [apply frame_refl |]. split; [auto | discriminate].
  - wp_go.
    eapply wp_conseq; [apply load_models_try_spec | |].
    + intros b w' [-> [Hl [Hb [Ha Hf]]]].
      split; [exact Hf |]. split; [discriminate |].
      intros _. split; [auto | discriminate].
    + intros e w' Hf. unfold load_models_except. wp_go.
      split; [frame_solve |]. split; [discriminate |].
      intros _. split; [discriminate |].
      intros _. repeat split.
Qed.

Lemma load_models_returns ext w :
  exists b w', load_models ext w = (Ret b, w').
Proof.
  destruct (wp_run _ _ _ _ (load_models_spec ext w))
    as [[b [w' [E _]]] | [e [w' [_ []]]]].
  eauto.
Qed.

(** A call of [load_models] that answers [True] leaves the flag set. *)
Lemma load_success_sets_flag ext w w1 :
  load_models ext w = (Ret true, w1) -> models_loaded (loader w1) = true.
Proof.
  intros H. pose proof (load_models_spec ext w) as S.
  unfold wp in S. rewrite H in S. destruct S as [_ [S1 S2]].
  destruct (models_loaded (loader w)) eqn:Hflag.
  - destruct (S1 eq_refl) as [_ ->]. exact Hflag.
  - destruct (S2 eq_refl) as [S _]. apply S. reflexivity.
Qed.

(** A call of [load_models] that answers [False] leaves the loader
    unusable. *)
Lemma load_failure_unloads ext w w1 :
  load_models ext w = (Ret false, w1) -> unloaded (loader w1).
Proof.
  intros H. pose proof (load_models_spec ext w) as S.
  unfold wp in S. rewrite H in S. destruct S as [_ [S1 S2]].
  destruct (models_loaded (loader w)) eqn:Hflag.
  - destruct (S1 eq_refl) as [S _]. discriminate S.
  - destruct (S2 eq_refl) as [_ S]. apply S. reflexivity.
Qed.

Lemma load_fails_without_files ext w :
  models_loaded (loader w) = false -> some_file_missing ext ->
  exists w1, load_models ext w = (Ret false, w1).
Proof.
  intros Hflag Hmiss.
  destruct (load_models_returns ext w) as [b [w1 E]].
  destruct b; [| eauto].
  pose proof (load_models_spec ext w) as S.
  unfold wp in S. rewrite E in S. destruct S as [_ [_ S2]].
  destruct (S2 Hflag) as [S _]. destruct (S eq_refl) as [_ [_ Hall]].
  destruct (missing_not_all_present ext Hmiss Hall).
Qed.

(** C6.  Model loading fails when any of the four required artifacts is
    missing; it never raises, a failure is the answer [False]; and on any
    failure both classifiers are [None] and the loaded flag is [False].
    At startup a reported failure ends the process with exit status 1. *)
Theorem load_failure_is_reported (ext : Externals) (w : World) :
  (exists b w1, load_models ext w = (Ret b, w1)
     /\ (b = false -> unloaded (loader w1))
     /\ (some_file_missing ext -> models_loaded (loader w) = false ->
         b = false))
  /\ (forall w1, load_models ext (App.boot w) = (Ret false, w1) ->
        App.startup ext w
        = App.Exited 1
            (logged (EPrint (text "Error: Failed to load models at startup"))
                    w1))
  /\ (some_file_missing ext -> exists w1, App.startup ext w = App.Exited 1 w1).
Proof.
  split; [| split].
  - destruct (load_models_returns ext w) as [b [w1 E]].
    exists b, w1. split; [exact E |]. split.
    + intros ->. apply (load_failure_unloads ext w). exact E.
    + intros Hmiss Hflag.
      destruct (load_fails_without_files ext w Hflag Hmiss) as [w2 E2].
      congruence.
  - intros w1 E. unfold App.startup. rewrite E. reflexivity.
  - intros Hmiss.
    destruct (load_fails_without_files ext (App.boot w)) as [w1 E];
      [reflexivity | exact Hmiss |].
    unfold App.startup. rewrite E. eauto.
Qed.

Lemma demo_file_missing : some_file_missing Demo.ext_no_files.
Proof.
  unfold some_file_missing, required_files.
  do 3 apply Exists_cons_tl. apply Exists_cons_hd. reflexivity.
Defined.

Lemma load_failure_is_reported_witness :
  some_file_missing Demo.ext_no_files
  /\ models_loaded (loader Demo.world0) = false
  /\ exists w1, load_models Demo.ext_no_files Demo.world0 = (Ret false, w1)
                /\ unloaded (loader w1)
                /\ exists w2, App.startup Demo.ext_no_files Demo.world0
                              = App.Exited 1 w2.
Proof.
  split; [exact demo_file_missing |]. split; [reflexivity |].
  destruct (load_failure_is_reported Demo.ext_no_files Demo.world0)
    as [[b [w1 [E [Hreset Hfail]]]] [_ Hstart]].
  pose proof (Hfail demo_file_missing eq_refl) as Hb. subst b.
  exists w1. split; [exact E |]. split; [exact (Hreset eq_refl) |].
  exact (Hstart demo_file_missing).
Defined.

(** The same run, computed. *)
Example load_without_weights :
  fst (load_models Demo.ext_no_files Demo.world0) = Ret false
  /\ loader (snd (load_models Demo.ext_no_files Demo.world0))
     = mkLoader None None "conv2d_3" "convo_3" false.
Proof. split; vm_compute; reflexivity. Qed.

Lemma load_models_when_loaded ext w :
  models_loaded (loader w) = true -> load_models ext w = (Ret true, w).
Proof.
  intros Hflag. unfold load_models, bind, get_loader, ret.
  rewrite Hflag. reflexivity.
Qed.

(** C7.  Loading is idempotent: after a call of [load_models] that
    succeeded, every further call, whatever the files and libraries have
    become, answers [True] and leaves the world as it is: the two
    classifiers and the flag are unchanged and no event is recorded, so no
    file is read again and no dry-run prediction is made again. *)
Theorem load_models_idempotent (ext ext' : Externals) (w w1 : World) :
  load_models ext w = (Ret true, w1) ->
  load_models ext' w1 = (Ret true, w1).
Proof.
  intros H. apply load_models_when_loaded.
  apply (load_success_sets_flag ext w w1 H).
Qed.

Lemma load_models_idempotent_witness :
  exists w1, load_models Demo.ext Demo.world0 = (Ret true, w1)
             /\ load_models Demo.ext_no_files w1 = (Ret true, w1)
             /\ spiral_model (loader w1) = Some (KerasModel 1)
             /\ wave_model (loader w1) = Some (KerasModel 2).
Proof.
  exists (snd (load_models Demo.ext Demo.world0)).
  assert (E : load_models Demo.ext Demo.world0
              = (Ret true, snd (load_models Demo.ext Demo.world0)))
    by (vm_compute; reflexivity).
  split; [exact E |].
  split; [exact (load_models_idempotent Demo.ext Demo.ext_no_files
                   Demo.world0 _ E) |].
  split; vm_compute; reflexivity.
Defined.

Corollary load_again_is_identity ext ext' w w1 n :
  load_models ext w = (Ret true, w1) -> load_again ext' n w1 = w1.
Proof.
  intros H. induction n as [| n IH]; simpl.
  - reflexivity.
  - rewrite (load_models_when_loaded ext' w1
               (load_success_sets_flag ext w w1 H)).
    exact IH.
Qed.

(** *** The getters *)

Lemma get_spiral_model_loaded ext w :
  models_loaded (loader w) = true ->
  get_spiral_model ext w = (Ret (spiral_model (loader w)), w).
Proof.
  intros Hflag. unfold get_spiral_model, bind, get_loader, ret.
  rewrite Hflag. reflexivity.
Qed.

Lemma get_wave_model_loaded ext w :
  models_loaded (loader w) = true ->
  get_wave_model ext w = (Ret (wave_model (loader w)), w).
Proof.
  intros Hflag. unfold get_wave_model, bind, get_loader, ret.
  rewrite Hflag. reflexivity.
Qed.

Lemma get_spiral_model_lazy ext w b w1 :
  models_loaded (loader w) = false ->
  load_models ext w = (Ret b, w1) ->
  get_spiral_model ext w
  = if b then (Ret (spiral_model (loader w1)), w1)
    else (Raise failed_to_load, w1).
Proof.
  intros Hflag E. unfold get_spiral_model, bind at 1 2, get_loader at 1.
  rewrite Hflag. cbn [negb]. unfold bind at 1. rewrite E.
  destruct b; reflexivity.
Qed.

Lemma get_wave_model_lazy ext w b w1 :
  models_loaded (loader w) = false ->
  load_models ext w = (Ret b, w1) ->
  get_wave_model ext w
  = if b then (Ret (wave_model (loader w1)), w1)
    else (Raise failed_to_load, w1).
Proof.
  intros Hflag E. unfold get_wave_model, bind at 1 2, get_loader at 1.
  rewrite Hflag. cbn [negb]. unfold bind at 1. rewrite E.
  destruct b; reflexivity.
Qed.

(** The world a getter leaves is the world [load_models] leaves. *)
Lemma getter_world ext m w :
  run_method ext m w = snd (load_models ext w).
Proof.
  destruct (load_models_returns ext w) as [b [w1 E]].
  destruct (models_loaded (loader w)) eqn:Hflag.
  - rewrite (load_models_when_loaded ext w Hflag).
    destruct m; simpl;
      rewrite ?(get_spiral_model_loaded ext w Hflag),
              ?(get_wave_model_loaded ext w Hflag),
              ?(load_models_when_loaded ext w Hflag); reflexivity.
  - destruct m; simpl;
      rewrite ?(get_spiral_model_lazy ext w b w1 Hflag E),
              ?(get_wave_model_lazy ext w b w1 Hflag E), ?E;
      destruct b; reflexivity.
Qed.

Lemma load_models_consistent ext w :
  consistent (loader w) -> consistent (loader (snd (load_models ext w))).
Proof.
  intros [Hs [Hw Hc]].
  pose proof (load_models_spec ext w) as S. unfold wp in S.
  destruct (load_models ext w) as [[b | e] w1]; [| contradiction].
  destruct S as [[_ [_ [_ [Fs Fw]]]] [S1 S2]]. cbn [snd].
  split; [congruence |]. split; [congruence |].
  intros Hflag1.
  destruct (models_loaded (loader w)) eqn:Hflag.
  - destruct (S1 eq_refl) as [_ ->]. apply Hc. reflexivity.
  - destruct (S2 eq_refl) as [St Sf]. destruct b.
    + apply St. reflexivity.
    + destruct (Sf eq_refl) as [_ [_ Hu]]. congruence.
Qed.

(** Every reachable loader has the two layer names of [__init__], and
    both models whenever its flag is set. *)
Lemma reachable_consistent ext w :
  reachable ext w -> consistent (loader w).
Proof.
  induction 1 as [w Hinit | m w Hr IH | w w' Hr IH Hsame].
  - rewrite Hinit. repeat split. discriminate.
  - rewrite getter_world. apply load_models_consistent, IH.
  - rewrite Hsame. exact IH.
Qed.

(** C8.  [get_spiral_model] and [get_wave_model] return the stored
    classifier when the models are loaded; otherwise they trigger
    [load_models], raise [RuntimeError] exactly when that load answers
    [False] and return the freshly loaded classifier when it answers
    [True].  [get_last_conv_layer] is a function of the loader alone: it
    returns "conv2d_3" for the spiral and "convo_3" for the wave on every
    reachable loader, and being a plain attribute lookup it cannot load
    anything. *)
Theorem getters_are_lazy (ext : Externals) (w : World) :
  (models_loaded (loader w) = true ->
     get_spiral_model ext w = (Ret (spiral_model (loader w)), w)
     /\ get_wave_model ext w = (Ret (wave_model (loader w)), w))
  /\ (models_loaded (loader w) = false ->
      exists b w1,
        load_models ext w = (Ret b, w1)
        /\ (b = true ->
            get_spiral_model ext w = (Ret (spiral_model (loader w1)), w1)
            /\ get_wave_model ext w = (Ret (wave_model (loader w1)), w1)
            /\ both_present (loader w1))
        /\ (b = false ->
            get_spiral_model ext w = (Raise failed_to_load, w1)
            /\ get_wave_model ext w = (Raise failed_to_load, w1)))
  /\ (reachable ext w ->
      get_last_conv_layer (loader w) false = "conv2d_3"
      /\ get_last_conv_layer (loader w) true = "convo_3"
      /\ (models_loaded (loader w) = true -> both_present (loader w))).
Proof.
  split; [| split].
  - intros Hflag. split.
    + apply get_spiral_model_loaded, Hflag.
    + apply get_wave_model_loaded, Hflag.
  - intros Hflag.
    destruct (load_models_returns ext w) as [b [w1 E]].
    exists b, w1. split; [exact E |].
    pose proof (get_spiral_model_lazy ext w b w1 Hflag E) as Gs.
    pose proof (get_wave_model_lazy ext w b w1 Hflag E) as Gw.
    split; intros ->; cbn iota in Gs, Gw.
    + split; [exact Gs |]. split; [exact Gw |].
      pose proof (load_models_spec ext w) as S. unfold wp in S.
      rewrite E in S. destruct S as [_ [_ S2]].
      destruct (S2 Hflag) as [St _]. apply St. reflexivity.
    + split; assumption.
  - intros Hr. destruct (reachable_consistent ext w Hr) as [Hs [Hw Hc]].
    unfold get_last_conv_layer. auto.
Qed.

Lemma getters_are_lazy_witness :
  models_loaded (loader Demo.world0) = false
  /\ reachable Demo.ext Demo.world0
  /\ (exists w1,
        get_spiral_model Demo.ext Demo.world0
        = (Ret (Some (KerasModel 1)), w1))
  /\ (exists w1,
        get_spiral_model Demo.ext_no_files Demo.world0
        = (Raise failed_to_load, w1))
  /\ get_last_conv_layer (loader Demo.world0) true = "convo_3".
Proof.
  assert (R : reachable Demo.ext Demo.world0)
    by (apply reach_init; reflexivity).
  destruct (getters_are_lazy Demo.ext Demo.world0) as [_ [_ Hnames]].
  split; [reflexivity |]. split; [exact R |].
  split; [eexists; vm_compute; reflexivity |].
  split; [eexists; vm_compute; reflexivity |].
  exact (proj1 (proj2 (Hnames R))).
Defined.

(** The getters change nothing but what [load_models] changes. *)
Lemma get_spiral_model_frame ext w :
  wp (get_spiral_model ext) w (fun _ w' => frame w w')
     (fun _ w' => frame w w').
Proof.
  destruct (load_models_returns ext w) as [b [w1 E]].
  pose proof (load_models_spec ext w) as S. unfold wp in S.
  rewrite E in S. destruct S as [F _].
  unfold wp. destruct (models_loaded (loader w)) eqn:Hflag.
  - rewrite (get_spiral_model_loaded ext w Hflag). apply frame_refl.
  - rewrite (get_spiral_model_lazy ext w b w1 Hflag E).
    destruct b; exact F.
Qed.

Lemma get_wave_model_frame ext w :
  wp (get_wave_model ext) w (fun _ w' => frame w w')
     (fun _ w' => frame w w').
Proof.
  destruct (load_models_returns ext w) as [b [w1 E]].
  pose proof (load_models_spec ext w) as S. unfold wp in S.
  rewrite E in S. destruct S as [F _].
  unfold wp. destruct (models_loaded (loader w)) eqn:Hflag.
  - rewrite (get_wave_model_loaded ext w Hflag). apply frame_refl.
  - rewrite (get_wave_model_lazy ext w b w1 Hflag E).
    destruct b; exact F.
Qed.

End ModelLoaderFacts.

(** ** The report *)

Module ReportFacts.
Import Report.
Local Open Scope string_scope.
Local Open Scope list_scope.

(** Generating a report writes no file, whether it returns or raises. *)
Lemma generate_report_keeps_files ext spiral_img wave_img user_info w :
  wp (generate_report ext spiral_img wave_img user_info) w
     (fun _ w' => fs w' = fs w) (fun _ w' => fs w' = fs w).
Proof.
  unfold generate_report.
  destruct (ImageProcessor.prepare_image_for_prediction ext spiral_img false)
    as [spiral_input spiral_processed].
  destruct (ImageProcessor.prepare_image_for_prediction ext wave_img true)
    as [wave_input wave_processed].
  apply wp_bind.
  eapply wp_conseq; [apply ModelLoaderFacts.get_spiral_model_frame | |];
    cbv beta; [| intros e w1 [F _]; exact F].
  intros spiral_model w1 [F1 _].
  apply wp_bind.
  eapply wp_conseq; [apply ModelLoaderFacts.get_wave_model_frame | |];
    cbv beta; [| intros e w2 [F _]; congruence].
  intros wave_model w2 [F2 _].
  unfold with_model.
  wp_steps; congruence.
Qed.

(** *** The template *)

(** The replacement fields of the report template, in the order of the
    document: the date, the patient, the result, and the four images
    that follow [data:image/png;base64,]. *)
Lemma report_template_fields :
  fields report_template
  = [ "datetime.now().strftime('%B %d, %Y')"; "name"; "age"; "gender";
      "result_message"; "confidence_level:.2%"; "confidence_source";
      "next_steps"; "gradcam_desc"; "spiral_b64"; "spiral_overlay_b64";
      "wave_b64"; "wave_overlay_b64"; "pdf_filename" ].
Proof. vm_compute. reflexivity. Qed.

Example fstring_example :
  fstring "<b class=`x`>{name}</b> {{{age}}}"
          [("name", text "Ann"); ("age", text "30")]
  = text "<b class=" ++ [34%N] ++ text "x" ++ [34%N]
    ++ text ">Ann</b> {30}".
Proof. vm_compute. reflexivity. Qed.

(** *** Dates *)

Lemma strftime_Ymd_date t t' :
  date_of t = date_of t' -> strftime_Ymd t = strftime_Ymd t'.
Proof.
  unfold date_of, strftime_Ymd. intros H.
  injection H as -> -> ->. reflexivity.
Qed.

Lemma strftime_B_d_Y_date t t' :
  date_of t = date_of t' -> strftime_B_d_Y t = strftime_B_d_Y t'.
Proof.
  unfold date_of, strftime_B_d_Y. intros H.
  injection H as -> -> ->. reflexivity.
Qed.

Example header_date :
  strftime_B_d_Y (mkDatetime 2024 3 5 10 30 0 0) = text "March 05, 2024"
  /\ strftime_Ymd (mkDatetime 2024 3 5 10 30 0 0) = text "20240305".
Proof. split; vm_compute; reflexivity. Qed.

(** C9, as the code has it.  The report is a function of the processed
    images, the overlays, the fused result, the user info and the calendar
    dates of the two readings of the clock, and of nothing else: two
    renderings of the same inputs on the same dates are the same
    document, whatever the time of day. *)
Theorem report_is_a_function_of_inputs_and_date
        (ext : Externals) (spiral_processed wave_processed : gray_image)
        (spiral_overlay wave_overlay : bgr_image)
        (fused : Fusion.FusedResult) (user_info : option dict)
        (t_file t_header t_file' t_header' : datetime) :
  date_of t_file = date_of t_file' ->
  date_of t_header = date_of t_header' ->
  render_report ext spiral_processed wave_processed
                spiral_overlay wave_overlay fused user_info
                t_file t_header
  = render_report ext spiral_processed wave_processed
                  spiral_overlay wave_overlay fused user_info
                  t_file' t_header'.
Proof.
  intros Hf Hh. unfold render_report. cbv zeta.
  rewrite (strftime_Ymd_date _ _ Hf), (strftime_B_d_Y_date _ _ Hh).
  reflexivity.
Qed.

Lemma report_is_a_function_of_inputs_and_date_witness :
  date_of (mkDatetime 2024 3 15 9 0 0 0)
  = date_of (mkDatetime 2024 3 15 17 45 12 500)
  /\ date_of (mkDatetime 2024 3 15 9 0 0 1)
     = date_of (mkDatetime 2024 3 15 17 45 12 501)
  /\ render_report Demo.ext Demo.gray0 Demo.gray0
                   Demo.overlay0 Demo.overlay0
                   (Fusion.fuse (8 # 10) (4 # 10)) Demo.ann
                   (mkDatetime 2024 3 15 9 0 0 0)
                   (mkDatetime 2024 3 15 9 0 0 1)
     = render_report Demo.ext Demo.gray0 Demo.gray0
                     Demo.overlay0 Demo.overlay0
                     (Fusion.fuse (8 # 10) (4 # 10)) Demo.ann
                     (mkDatetime 2024 3 15 17 45 12 500)
                     (mkDatetime 2024 3 15 17 45 12 501).
Proof.
  split; [reflexivity |]. split; [reflexivity |].
  apply report_is_a_function_of_inputs_and_date; reflexivity.
Defined.

(** The report of the example: what the fields have become. *)
Example report_contents :
  let html := Demo.report_at (mkDatetime 2024 3 15 10 30 0 0)
                             (mkDatetime 2024 3 15 10 30 0 1) in
  forallb (fun fragment => Demo.contains (text (unquote fragment)) html)
    [ "<div class=`date`>Date: March 15, 2024</div>";
      "<strong>Name:</strong> Ann Lee</div>";
      "<strong>Age:</strong> 30</div>";
      "<strong>Gender:</strong> Female</div>";
      "<strong>No significant indicators of Parkinson's disease detected</strong>";
      "<strong>Confidence Level:</strong> 40.00% <span style=`color:#666;`>(Negative)</span>";
      "<img src=`data:image/png;base64,iVBORw0KGgo=` alt=`Original Spiral`>";
      "<img src=`data:image/png;base64,iVBORw0KGgo=` alt=`Wave Analysis`>";
      "filename: 'Parkinsons_Report_Ann_Lee_20240315.pdf',";
      "@page { size: A4; margin: 0; }" ]
  = true.
Proof. vm_compute. reflexivity. Qed.

(** C9 as the specification words it fails: the same images, result and
    user give two different documents on two different days. *)
Lemma report_changes_with_the_date :
  Demo.report_at (mkDatetime 2024 3 15 10 30 0 0)
                 (mkDatetime 2024 3 15 10 30 0 0)
  <> Demo.report_at (mkDatetime 2024 3 16 10 30 0 0)
                    (mkDatetime 2024 3 16 10 30 0 0).
Proof.
  intros H.
  assert (E : pystr_eqb
                (Demo.report_at (mkDatetime 2024 3 15 10 30 0 0)
                                (mkDatetime 2024 3 15 10 30 0 0))
                (Demo.report_at (mkDatetime 2024 3 16 10 30 0 0)
                                (mkDatetime 2024 3 16 10 30 0 0))
              = false) by (vm_compute; reflexivity).
  rewrite H in E.
  rewrite (proj2 (pystr_eqb_eq _ _) eq_refl) in E. discriminate E.
Qed.

(** Two runs of [generate_report] on the same drawings and the same user,
    one day apart. *)
Example generate_report_on_two_days :
  fst (generate_report Demo.ext Demo.img0 Demo.img0 Demo.ann
                       Demo.world_serving)
  <> fst (generate_report Demo.ext Demo.img0 Demo.img0 Demo.ann
                          (mkWorld (loader Demo.world_serving)
                                   (fs Demo.world_serving) []
                                   Demo.clock1 0)).
Proof.
  intros H.
  apply (f_equal (fun r => match r with
                           | Ret html => html
                           | Raise _ => []
                           end)) in H.
  apply pystr_eqb_eq in H. vm_compute in H. discriminate H.
Qed.

(** What [generate_report] returns is such a rendering: of the fusion of
    two scores, at two successive readings of the clock. *)
Lemma generate_report_renders ext spiral_img wave_img user_info w :
  wp (generate_report ext spiral_img wave_img user_info) w
     (fun html _ =>
        exists sp wv so wo p_s p_w t_file t_header,
          html = render_report ext sp wv so wo (Fusion.fuse p_s p_w)
                               user_info t_file t_header)
     (fun _ _ => True).
Proof.
  unfold generate_report.
  destruct (ImageProcessor.prepare_image_for_prediction ext spiral_img false)
    as [spiral_input spiral_processed].
  destruct (ImageProcessor.prepare_image_for_prediction ext wave_img true)
    as [wave_input wave_processed].
  apply wp_bind.
  eapply wp_conseq;
    [apply ModelLoaderFacts.get_spiral_model_frame | | auto]; cbv beta.
  intros spiral_model w1 _.
  apply wp_bind.
  eapply wp_conseq;
    [apply ModelLoaderFacts.get_wave_model_frame | | auto]; cbv beta.
  intros wave_model w2 _.
  unfold with_model.
  wp_steps; auto.
  do 8 eexists. reflexivity.
Qed.

End ReportFacts.

(** ** The [/analyze] endpoint *)

Module AppFacts.
Import App.
Local Open Scope string_scope.
Local Open Scope list_scope.

Lemma in_list_iff s l : in_list s l = true <-> In s l.
Proof.
  unfold in_list. rewrite existsb_exists. split.
  - intros [x [Hin E]]. apply pystr_eqb_eq in E. subst. exact Hin.
  - intros Hin. exists s. split; [exact Hin | apply pystr_eqb_eq; reflexivity].
Qed.

Lemma empty_iff (s : pystr) :
  match s with [] => true | _ => false end = false <-> s <> [].
Proof. destruct s; split; congruence. Qed.

(** *** Validation of the user info *)

Lemma validate_accepts ext user_info u :
  validate_user_info ext user_info = Ret u <->
  u = user_info /\ user_info_valid ext user_info.
Proof.
  unfold validate_user_info, user_info_valid. split.
  - destruct user_info as [| | | | | | d]; cbn [field obind];
      try discriminate.
    destruct (dict_get d (text "name") (JStr [])) as [| | | | name | |]
      eqn:En; cbn [strip_value obind]; try discriminate.
    destruct (py_int ext (dict_get d (text "age") (JInt 0)))
      as [age | e] eqn:Ea; cbn [obind]; [| discriminate].
    destruct (dict_get d (text "gender") (JStr [])) as [| | | | gender | |]
      eqn:Eg; cbn [strip_value obind]; try discriminate.
    destruct (match strip name with [] => true | _ => false end) eqn:E1;
      cbn [orb]; [discriminate |].
    destruct ((18 <=? age)%Z && (age <=? 60)%Z) eqn:E2;
      cbn [orb negb]; [| discriminate].
    destruct (in_list (strip gender) genders) eqn:E3;
      cbn [orb negb]; [| discriminate].
    intros H. injection H as <-. split; [reflexivity |].
    exists d, name, age, gender.
    apply empty_iff in E1. apply in_list_iff in E3.
    apply Bool.andb_true_iff in E2. destruct E2 as [L U].
    apply Z.leb_le in L. apply Z.leb_le in U.
    repeat split; auto.
  - intros [-> [d [name [age [gender [-> [En [Hn [Ea [[L U] [Eg Hg]]]]]]]]]]].
    cbn [field obind]. rewrite En. cbn [strip_value obind].
    rewrite Ea. cbn [obind]. rewrite Eg. cbn [strip_value obind].
    apply empty_iff in Hn. rewrite Hn.
    apply Z.leb_le in L. apply Z.leb_le in U. rewrite L, U.
    apply in_list_iff in Hg. rewrite Hg. reflexivity.
Qed.

Lemma parse_accepts ext raw_opt u :
  parse_user_info ext raw_opt = Ret u <->
  exists raw, raw_opt = Some raw /\ json_loads ext raw = Ret u
              /\ user_info_valid ext u.
Proof.
  unfold parse_user_info. split.
  - destruct raw_opt as [raw |]; [| discriminate].
    destruct (json_loads ext raw) as [user_info | e] eqn:El; cbn [obind];
      [| discriminate].
    intros H. apply validate_accepts in H. destruct H as [-> Hv].
    exists raw. auto.
  - intros [raw [-> [El Hv]]]. rewrite El. cbn [obind].
    apply validate_accepts. auto.
Qed.

(** The boundary cases of the specification, on parsed documents. *)
Example age_18_accepted :
  validate_user_info Demo.ext (Demo.person (text "Ann") 18 (text "Male"))
  = Ret (Demo.person (text "Ann") 18 (text "Male")).
Proof. reflexivity. Qed.

Example age_60_accepted :
  validate_user_info Demo.ext (Demo.person (text "Ann") 60 (text "Other"))
  = Ret (Demo.person (text "Ann") 60 (text "Other")).
Proof. reflexivity. Qed.

Example age_17_rejected :
  validate_user_info Demo.ext (Demo.person (text "Ann") 17 (text "Male"))
  = Raise (mkExn ValueError []).
Proof. reflexivity. Qed.

Example age_61_rejected :
  validate_user_info Demo.ext (Demo.person (text "Ann") 61 (text "Male"))
  = Raise (mkExn ValueError []).
Proof. reflexivity. Qed.

Example gender_unknown_rejected :
  validate_user_info Demo.ext (Demo.person (text "Ann") 30 (text "Unknown"))
  = Raise (mkExn ValueError []).
Proof. reflexivity. Qed.

Example empty_name_rejected :
  validate_user_info Demo.ext (Demo.person (text "   ") 30 (text "Male"))
  = Raise (mkExn ValueError []).
Proof. reflexivity. Qed.

Example age_as_text_accepted :
  validate_user_info Demo.ext
    (JObj [ (text "name", JStr (text "Ann"));
            (text "age", JStr (text " 42 "));
            (text "gender", JStr (text "Other")) ])
  = Ret (JObj [ (text "name", JStr (text "Ann"));
                (text "age", JStr (text " 42 "));
                (text "gender", JStr (text "Other")) ]).
Proof. reflexivity. Qed.

Example missing_fields_rejected :
  validate_user_info Demo.ext (JObj []) = Raise (mkExn ValueError [])
  /\ (exists e, validate_user_info Demo.ext (JArr []) = Raise e)
  /\ (exists e, parse_user_info Demo.ext None = Raise e).
Proof. repeat split; eexists; reflexivity. Qed.

Example fractional_age_truncated :
  validate_user_info Demo.ext
    (JObj [ (text "name", JStr (text "Ann"));
            (text "age", JFloat (Finite (609 # 10)));
            (text "gender", JStr (text "Male")) ])
  = Ret (JObj [ (text "name", JStr (text "Ann"));
                (text "age", JFloat (Finite (609 # 10)));
                (text "gender", JStr (text "Male")) ]).
Proof. reflexivity. Qed.

(** *** The endpoint up to validation *)


Lemma analyze_invalid_info ext req w :
  file_truthy (files_spiral req) = true ->
  file_truthy (files_wave req) = true ->
  (forall u, parse_user_info ext (form_user_info req) <> Ret u) ->
  analyze ext req w = (Ret (error_response 400 invalid_user_info), w).
Proof.
  intros Hs Hw Hp. unfold analyze, try_catch, analyze_try.
  cbv zeta. rewrite Hs, Hw. cbn [negb orb].
  destruct (parse_user_info ext (form_user_info req)) as [u | e] eqn:E.
  - destruct (Hp u). reflexivity.
  - reflexivity.
Qed.

(** *** The whole endpoint *)

Lemma wp_keep_run {A} (c : M A) w (Q : A -> World -> Prop) E :
  (forall a w', c w = (Ret a, w') -> Q a w') ->
  (forall e w', c w = (Raise e, w') -> E e w') ->
  wp c w Q E.
Proof.
  intros HQ HE. unfold wp. destruct (c w) as [[a | e] w']; auto.
Qed.




(** A request with both drawings and a valid user info goes on past the
    validation: the drawings are saved, and what is answered is the
    success, the error for unreadable images, or a server error. *)
Lemma analyze_accepts ext req w u :
  file_truthy (files_spiral req) = true ->
  file_truthy (files_wave req) = true ->
  parse_user_info ext (form_user_info req) = Ret u ->
  wp (analyze ext req) w
     (fun resp w' =>
        (status_code resp <> 400%Z \/ message resp = unreadable_images)
        /\ exists spiral_file wave_file,
             files_spiral req = Some spiral_file
             /\ files_wave req = Some wave_file
             /\ upload_spiral (fs w') = Some (content spiral_file)
             /\ upload_wave (fs w') = Some (content wave_file))
     (fun _ _ => False).
Proof.
  intros Hs Hw Hu. unfold analyze. apply wp_try.
  unfold analyze_try. cbv zeta. rewrite Hs, Hw, Hu. cbn [negb orb].
  destruct (files_spiral req) as [spiral_file |]; [| discriminate Hs].
  destruct (files_wave req) as [wave_file |]; [| discriminate Hw].
  unfold save_spiral, save_wave, imread_spiral, imread_wave.
  wp_steps;
    try solve [split; [right; reflexivity |];
               exists spiral_file, wave_file; repeat split].
  apply wp_keep_run.
  - intros html w1 Hrun.
    match type of Hrun with
    | Report.generate_report ?x1 ?x2 ?x3 ?x4 ?x5 = _ =>
      pose proof (ReportFacts.generate_report_keeps_files x1 x2 x3 x4 x5)
        as Hfs
    end.
    unfold wp in Hfs. rewrite Hrun in Hfs. world_simpl_in Hfs.
    unfold write_report, set_report_slot, analyze_except.
    wp_steps; rewrite Hfs; world_simpl;
      (split; [left; discriminate |]);
      exists spiral_file, wave_file; repeat split.
  - intros e w1 Hrun.
    match type of Hrun with
    | Report.generate_report ?x1 ?x2 ?x3 ?x4 ?x5 = _ =>
      pose proof (ReportFacts.generate_report_keeps_files x1 x2 x3 x4 x5)
        as Hfs
    end.
    unfold wp in Hfs. rewrite Hrun in Hfs. world_simpl_in Hfs.
    unfold analyze_except.
    wp_steps; rewrite Hfs; world_simpl;
      (split; [left; discriminate |]);
      exists spiral_file, wave_file; repeat split.
Qed.

Lemma unreadable_is_not_invalid : unreadable_images <> invalid_user_info.
Proof.
  intros E. apply pystr_eqb_eq in E. vm_compute in E. discriminate E.
Qed.

(** C4, as the code has it.  With both drawings uploaded, the endpoint
    accepts the user info exactly when the field is present, parses as
    JSON, the name is a string that is not empty after stripping, the age
    converts to an integer between 18 and 60 inclusive, and the gender,
    after stripping surrounding whitespace, is one of "Male", "Female",
    "Other".  Every other user info, unparseable JSON included, is
    answered with status code 400, status "error" and the message for
    invalid user information, and changes nothing.  A user info that is
    accepted is never answered with that error: the endpoint goes on, and
    both drawings have been saved when it answers. *)
Theorem user_info_validation (ext : Externals) (req : Request) (w : World) :
  file_truthy (files_spiral req) = true ->
  file_truthy (files_wave req) = true ->
  (forall u,
      parse_user_info ext (form_user_info req) = Ret u
      <-> exists raw, form_user_info req = Some raw
                      /\ json_loads ext raw = Ret u
                      /\ user_info_valid ext u)
  /\ ((forall u, parse_user_info ext (form_user_info req) <> Ret u) ->
      analyze ext req w
      = (Ret (mkResponse 400 "error" invalid_user_info None), w))
  /\ (forall u,
        parse_user_info ext (form_user_info req) = Ret u ->
        exists resp w' spiral_file wave_file,
          analyze ext req w = (Ret resp, w')
          /\ resp <> mkResponse 400 "error" invalid_user_info None
          /\ files_spiral req = Some spiral_file
          /\ files_wave req = Some wave_file
          /\ upload_spiral (fs w') = Some (content spiral_file)
          /\ upload_wave (fs w') = Some (content wave_file))
  /\ (fst (analyze ext req w)
      = Ret (mkResponse 400 "error" invalid_user_info None)
      <-> forall u, parse_user_info ext (form_user_info req) <> Ret u).
Proof.
  intros Hs Hw.
  assert (Hacc : forall u,
             parse_user_info ext (form_user_info req) = Ret u ->
             exists resp w' spiral_file wave_file,
               analyze ext req w = (Ret resp, w')
               /\ resp <> mkResponse 400 "error" invalid_user_info None
               /\ files_spiral req = Some spiral_file
               /\ files_wave req = Some wave_file
               /\ upload_spiral (fs w') = Some (content spiral_file)
               /\ upload_wave (fs w') = Some (content wave_file)).
  { intros u Hu.
    destruct (wp_run _ _ _ _ (analyze_accepts ext req w u Hs Hw Hu))
      as [[resp [w' [E [Hresp [sf [wf [F1 [F2 [U1 U2]]]]]]]]]
         | [e [w' [_ []]]]].
    exists resp, w', sf, wf. split; [exact E |].
    split; [| repeat split; assumption].
    intros ->. cbn [status_code message] in Hresp.
    destruct Hresp as [H | H]; [apply H; reflexivity |].
    apply unreadable_is_not_invalid. symmetry. exact H. }
  split; [| split; [| split]].
  - intros u. apply parse_accepts.
  - apply analyze_invalid_info; assumption.
  - exact Hacc.
  - split.
    + intros Hrej u Hu.
      destruct (Hacc u Hu) as [resp [w' [sf [wf [E [Hne _]]]]]].
      rewrite E in Hrej. cbn [fst] in Hrej.
      injection Hrej as ->. apply Hne. reflexivity.
    + intros Hinv. rewrite (analyze_invalid_info ext req w Hs Hw Hinv).
      reflexivity.
Qed.

Lemma user_info_validation_witness :
  file_truthy (files_spiral (Demo.request (Some (text "not json")))) = true
  /\ file_truthy (files_wave (Demo.request (Some (text "not json")))) = true
  /\ analyze Demo.ext (Demo.request (Some (text "not json")))
             Demo.world_serving
     = (Ret (mkResponse 400 "error" invalid_user_info None),
        Demo.world_serving)
  /\ parse_user_info Demo.ext
                     (form_user_info (Demo.request (Some Demo.doc_ann)))
     = Ret Demo.json_ann
  /\ exists resp w',
       analyze Demo.ext (Demo.request (Some Demo.doc_ann))
               Demo.world_serving = (Ret resp, w')
       /\ resp <> mkResponse 400 "error" invalid_user_info None
       /\ upload_spiral (fs w') = Some (content Demo.png).
Proof.
  split; [reflexivity |]. split; [reflexivity |]. split.
  - apply (proj1 (proj2 (user_info_validation
                           Demo.ext (Demo.request (Some (text "not json")))
                           Demo.world_serving eq_refl eq_refl))).
    intros u H. vm_compute in H. discriminate H.
  - assert (P : parse_user_info Demo.ext
                  (form_user_info (Demo.request (Some Demo.doc_ann)))
                = Ret Demo.json_ann).
    { vm_compute. reflexivity. }
    split; [exact P |].
    destruct (proj1 (proj2 (proj2 (user_info_validation
                                     Demo.ext
                                     (Demo.request (Some Demo.doc_ann))
                                     Demo.world_serving eq_refl eq_refl)))
                    Demo.json_ann P)
      as [resp [w' [sf [wf [E [Hne [F1 [_ [U1 _]]]]]]]]].
    exists resp, w'. split; [exact E |]. split; [exact Hne |].
    cbn [Demo.request files_spiral] in F1. injection F1 as <-. exact U1.
Defined.

(** The same theorem on a valid user info: the answer is not the error
    for invalid user information. *)
Example valid_user_info_is_accepted :
  fst (analyze Demo.ext (Demo.request (Some Demo.doc_ann))
               Demo.world_serving)
  <> Ret (mkResponse 400 "error" invalid_user_info None).
Proof.
  intros H. apply (f_equal (fun r => match r with
                                     | Ret resp => status_code resp
                                     | Raise _ => 0%Z
                                     end)) in H.
  vm_compute in H. discriminate H.
Qed.

(** C4 as the specification words it fails on a gender with surrounding
    blanks: [" Male "] is not one of the three words, and the endpoint
    accepts it. *)
Lemma padded_gender_is_accepted :
  ~ spec_accepts_iff_valid Demo.ext Demo.doc_padded_gender.
Proof.
  intros H.
  destruct (H Demo.json_padded_gender eq_refl) as [H1 _].
  destruct H1 as [d [name [age [gender [Ed [_ [_ [_ [_ [Eg Hg]]]]]]]]]].
  - exists Demo.json_padded_gender. reflexivity.
  - injection Ed as <-. vm_compute in Eg. injection Eg as <-.
    vm_compute in Hg. intuition discriminate.
Qed.



(** A request that succeeds: the slot receives the report. *)
Example analyze_success :
  status_code
    (match fst (analyze Demo.ext (Demo.request (Some Demo.doc_ann))
                        Demo.world_serving) with
     | Ret resp => resp
     | Raise _ => error_response 0 []
     end) = 200%Z
  /\ report_slot (fs (snd (analyze Demo.ext
                                   (Demo.request (Some Demo.doc_ann))
                                   Demo.world_serving)))
     <> Some Demo.old_report.
Proof.
  split.
  - vm_compute. reflexivity.
  - intros H.
    apply (f_equal (fun o => match o with
                             | Some l => List.length l
                             | None => 0%nat
                             end)) in H.
    vm_compute in H. discriminate H.
Qed.



End AppFacts.

(** * Further properties *)

(** ** Runs with a known outcome *)

Lemma wp_of_run {A} (c : M A) w a w' (Q : A -> World -> Prop) E :
  c w = (Ret a, w') -> Q a w' -> wp c w Q E.
Proof. intros H HQ. unfold wp. rewrite H. exact HQ. Qed.

Lemma wp_exact {A} (c : M A) w a w' :
  wp c w (fun b w1 => b = a /\ w1 = w') (fun _ _ => False) ->
  c w = (Ret a, w').
Proof.
  unfold wp. destruct (c w) as [[b | e] w1]; [| contradiction].
  intros [-> ->]. reflexivity.
Qed.

Lemma world_ext (w w' : World) :
  loader w = loader w' -> fs w = fs w' -> trace w = trace w' ->
  clock w = clock w' -> ticks w = ticks w' -> w = w'.
Proof. destruct w, w'. cbn. intros; subst; reflexivity. Qed.

Lemma wp_of_raise {A} (c : M A) w e w' (Q : A -> World -> Prop) E :
  c w = (Raise e, w') -> E e w' -> wp c w Q E.
Proof. intros H HE. unfold wp. rewrite H. exact HE. Qed.

(** A library call whose result is known. *)
Ltac wp_known :=
  lazymatch goal with
  | |- wp (call _ ?r) _ _ _ =>
    match goal with
    | H : r = Ret _ |- _ =>
      rewrite H; apply wp_call;
      [ let a := fresh "a" in let E := fresh "E" in
        intros a E; injection E as <-
      | let e := fresh "e" in let E := fresh "E" in
        intros e E; discriminate E ]
    end
  end.



(** ** Decision fusion: order and symmetry *)

Module FusionMore.
Import Fusion.
Local Open Scope Q_scope.

Lemma positive_iff p_s p_w :
  has_parkinsons (fuse p_s p_w) = true <-> threshold < p_s /\ threshold < p_w.
Proof.
  destruct (FusionFacts.fuse_cases p_s p_w)
    as [[Hs E] | [[Hs [Hw E]] | [Hs [Hw E]]]];
    rewrite E; cbn [has_parkinsons]; split; intros H;
    try discriminate; auto.
  - destruct H as [H _]. order_contradiction.
  - destruct H as [_ H]. order_contradiction.
Qed.

Lemma py_max_sym a b : py_max a b == py_max b a.
Proof.
  rewrite !py_max_is_Qmax. apply Q.max_comm.
Qed.

Lemma py_max_mono a b c d : a <= c -> b <= d -> py_max a b <= py_max c d.
Proof.
  intros H1 H2. rewrite !py_max_is_Qmax.
  apply Q.max_le_compat; assumption.
Qed.

(** X1.  The classification is monotone and symmetric in the two scores:
    raising a score never turns a positive result into a negative one, and
    never lowers the confidence of a positive result; exchanging the two
    scores keeps the classification, and keeps the confidence of a positive
    result.  (The confidence of a negative result is not symmetric: see
    [FusionFacts.both_negative_reports_spiral].) *)
Theorem fusion_is_monotone_and_symmetric (p_s p_w q_s q_w : Q) :
  (p_s <= q_s -> p_w <= q_w ->
   has_parkinsons (fuse p_s p_w) = true ->
   has_parkinsons (fuse q_s q_w) = true
   /\ confidence_level (fuse p_s p_w) <= confidence_level (fuse q_s q_w))
  /\ has_parkinsons (fuse p_s p_w) = has_parkinsons (fuse p_w p_s)
  /\ (has_parkinsons (fuse p_s p_w) = true ->
      confidence_level (fuse p_s p_w) == confidence_level (fuse p_w p_s)).
Proof.
  split; [| split].
  - intros Hs Hw Hp. apply positive_iff in Hp. destruct Hp as [Ps Pw].
    assert (Qs : threshold < q_s) by (apply Qlt_le_trans with p_s; auto).
    assert (Qw : threshold < q_w) by (apply Qlt_le_trans with p_w; auto).
    rewrite (FusionFacts.fuse_positive p_s p_w Ps Pw),
            (FusionFacts.fuse_positive q_s q_w Qs Qw).
    cbn [has_parkinsons confidence_level].
    split; [reflexivity | apply py_max_mono; assumption].
  - rewrite !FusionFacts.fuse_flag. apply Bool.andb_comm.
  - intros Hp. apply positive_iff in Hp. destruct Hp as [Ps Pw].
    rewrite (FusionFacts.fuse_positive p_s p_w Ps Pw),
            (FusionFacts.fuse_positive p_w p_s Pw Ps).
    cbn [confidence_level]. apply py_max_sym.
Qed.

Lemma fusion_is_monotone_and_symmetric_witness :
  ((6 # 10) <= 7 # 10 /\ (6 # 10) <= 9 # 10
   /\ has_parkinsons (fuse (6 # 10) (6 # 10)) = true)
  /\ has_parkinsons (fuse (7 # 10) (9 # 10)) = true
  /\ confidence_level (fuse (6 # 10) (6 # 10))
     <= confidence_level (fuse (7 # 10) (9 # 10)).
Proof.
  assert (H1 : (6 # 10) <= 7 # 10) by discriminate.
  assert (H2 : (6 # 10) <= 9 # 10) by discriminate.
  assert (H3 : has_parkinsons (fuse (6 # 10) (6 # 10)) = true)
    by reflexivity.
  split; [repeat split; assumption |].
  exact (proj1 (fusion_is_monotone_and_symmetric
                  (6 # 10) (6 # 10) (7 # 10) (9 # 10)) H1 H2 H3).
Defined.

(** X2.  The reported confidence is always one of the two scores, never a
    value of the program's own: it lies in [0,1] whenever both scores do,
    and for a positive result it is at least as large as either score. *)
Theorem confidence_is_one_of_the_scores (p_s p_w : Q) :
  (confidence_level (fuse p_s p_w) = p_s
   \/ confidence_level (fuse p_s p_w) = p_w)
  /\ (0 <= p_s <= 1 -> 0 <= p_w <= 1 ->
      0 <= confidence_level (fuse p_s p_w) <= 1)
  /\ (has_parkinsons (fuse p_s p_w) = true ->
      p_s <= confidence_level (fuse p_s p_w)
      /\ p_w <= confidence_level (fuse p_s p_w)).
Proof.
  assert (Hone : confidence_level (fuse p_s p_w) = p_s
                 \/ confidence_level (fuse p_s p_w) = p_w).
  { destruct (FusionFacts.fuse_cases p_s p_w)
      as [[Hs E] | [[Hs [Hw E]] | [Hs [Hw E]]]];
      rewrite E; cbn [confidence_level]; auto using py_max_cases. }
  split; [exact Hone |]. split.
  - intros Hs Hw. destruct Hone as [-> | ->]; assumption.
  - intros Hp. apply positive_iff in Hp. destruct Hp as [Ps Pw].
    rewrite (FusionFacts.fuse_positive p_s p_w Ps Pw).
    cbn [confidence_level]. apply py_max_upper.
Qed.

Lemma confidence_is_one_of_the_scores_witness :
  (0 <= 7 # 10 <= 1 /\ 0 <= 6 # 10 <= 1)
  /\ 0 <= confidence_level (fuse (7 # 10) (6 # 10)) <= 1.
Proof.
  assert (H1 : 0 <= 7 # 10 <= 1) by (split; discriminate).
  assert (H2 : 0 <= 6 # 10 <= 1) by (split; discriminate).
  split; [split; assumption |].
  exact (proj1 (proj2 (confidence_is_one_of_the_scores (7 # 10) (6 # 10)))
               H1 H2).
Defined.

End FusionMore.

(** ** Image preparation: inversion and model input *)

Module ImageProcessorMore.
Import ImageProcessor.
Local Open Scope Z_scope.

Lemma invert_twice_row (r : list Z) :
  Forall is_uint8 r ->
  map (fun v => uint8 (255 - v)) (map (fun v => uint8 (255 - v)) r) = r.
Proof.
  induction 1 as [| v r Hv _ IH]; cbn [map].
  - reflexivity.
  - rewrite IH. f_equal.
    rewrite (ImageProcessorFacts.uint8_small v Hv).
    unfold uint8, is_uint8 in *. rewrite Z.mod_small; lia.
Qed.

(** X3.  On 8-bit images the intensity inversion [255 - gray] is an
    involution, and it reverses the order of intensities: of two pixels of
    an image, the brighter one is the darker one in the inverted image,
    and pixels of equal intensity stay equal. *)
Theorem invert_is_an_involution (rows cols : nat) (g : gray_image) :
  has_shape rows cols g -> gray_pixels_ok g ->
  invert (invert g) = g
  /\ forall i j k l,
       (i < rows)%nat -> (j < cols)%nat ->
       (k < rows)%nat -> (l < cols)%nat ->
       (pixel g i j <= pixel g k l ->
        pixel (invert g) k l <= pixel (invert g) i j)
       /\ (pixel g i j < pixel g k l ->
           pixel (invert g) k l < pixel (invert g) i j).
Proof.
  intros Hs Hg. split.
  - unfold invert. clear Hs. induction Hg as [| r g Hr _ IH]; cbn [map].
    + reflexivity.
    + rewrite IH, (invert_twice_row r Hr). reflexivity.
  - intros i j k l Hi Hj Hk Hl.
    destruct (ImageProcessorFacts.invert_complement rows cols g Hs Hg)
      as [_ Hc].
    rewrite (Hc i j Hi Hj), (Hc k l Hk Hl). split; lia.
Qed.

Lemma invert_is_an_involution_witness :
  has_shape 2 2 [[0; 255]; [128; 64]]
  /\ gray_pixels_ok [[0; 255]; [128; 64]]
  /\ invert (invert [[0; 255]; [128; 64]]) = [[0; 255]; [128; 64]]
  /\ pixel (invert [[0; 255]; [128; 64]]) 0 1
     < pixel (invert [[0; 255]; [128; 64]]) 1 1.
Proof.
  assert (Hs : has_shape 2 2 [[0; 255]; [128; 64]]).
  { split; [reflexivity | repeat constructor]. }
  assert (H : gray_pixels_ok [[0; 255]; [128; 64]]).
  { unfold gray_pixels_ok, is_uint8. repeat constructor; lia. }
  destruct (invert_is_an_involution 2 2 [[0; 255]; [128; 64]] Hs H)
    as [Hinv Hord].
  split; [exact Hs |]. split; [exact H |]. split; [exact Hinv |].
  apply (proj2 (Hord 1 1 0 1 ltac:(lia) ltac:(lia) ltac:(lia) ltac:(lia)))%nat.
  reflexivity.
Defined.

Lemma scaled_shape rows cols (p : gray_image) :
  has_shape rows cols p ->
  has_shape rows cols (map (map (fun v => (inject_Z v / 255)%Q)) p).
Proof.
  intros [Hr Hc]. split.
  - rewrite length_map. exact Hr.
  - apply Forall_map. eapply Forall_impl; [| exact Hc].
    intros r Hlen. simpl. rewrite length_map. exact Hlen.
Qed.

Lemma scaled_range (v : Z) :
  is_uint8 v -> (0 <= inject_Z v / 255 /\ inject_Z v / 255 <= 1)%Q.
Proof.
  unfold is_uint8. intros [Hlo Hhi]. split.
  - apply Qle_shift_div_l; [reflexivity |].
    rewrite Qmult_0_l. change 0%Q with (inject_Z 0).
    rewrite <- Zle_Qle. exact Hlo.
  - apply Qle_shift_div_r; [reflexivity |].
    rewrite Qmult_1_l. change 255%Q with (inject_Z 255).
    rewrite <- Zle_Qle. lia.
Qed.

Lemma zeros_shape rows cols :
  has_shape rows cols (ModelLoader.zeros rows cols).
Proof.
  unfold ModelLoader.zeros, has_shape. split.
  - apply repeat_length.
  - apply Forall_forall. intros r Hr. apply repeat_spec in Hr. subst r.
    apply repeat_length.
Qed.

Ltac in_trace :=
  repeat (apply in_or_app; first [right; left; reflexivity | left]).

Lemma load_models_try_dry_run ext w :
  wp (ModelLoader.load_models_try ext) w
     (fun _ w' => dry_run_passed ext w') (fun _ _ => True).
Proof.
  unfold ModelLoader.load_models_try. ModelLoaderFacts.wp_go.
  apply ModelLoaderFacts.check_required_spec; [| intros; exact I].
  intros w1 _ _ _. ModelLoaderFacts.wp_go; try exact I.
  unfold dry_run_passed. world_simpl.
  do 4 eexists.
  split; [reflexivity |]. split; [reflexivity |].
  split; [eassumption |]. split; [eassumption |].
  split; in_trace.
Qed.

Lemma load_models_dry_run ext w w1 :
  models_loaded (loader w) = false ->
  ModelLoader.load_models ext w = (Ret true, w1) ->
  dry_run_passed ext w1.
Proof.
  intros Hflag Hrun.
  assert (S : wp (ModelLoader.load_models ext) w
                 (fun b w' => b = true -> dry_run_passed ext w')
                 (fun _ _ => True)).
  { unfold ModelLoader.load_models. apply wp_bind, wp_get_loader.
    rewrite Hflag. apply wp_try.
    eapply wp_conseq; [apply load_models_try_dry_run | |]; cbv beta.
    - intros b w' H _. exact H.
    - intros e w' _. unfold ModelLoader.load_models_except.
      ModelLoaderFacts.wp_go. discriminate. }
  unfold wp in S. rewrite Hrun in S. apply S. reflexivity.
Qed.

(** X4.  For every valid input image, [prepare_image_for_prediction] returns
    a processed 8-bit image of the canonical shape of its kind (256 x 256
    for the spiral, 250 rows by 550 columns for the wave) and a tensor of
    the same shape whose entries are the pixels of that image divided by
    255, all in [0,1].  This is the shape on which [load_models] has tried
    the model: after a load that succeeded, the stored model of that kind
    has answered a prediction on the tensor of zeros of that shape. *)
Theorem prepared_input_is_normalised (ext : Externals) (img : bgr_image)
        (is_wave : bool) :
  cvtColor_contract ext -> resize_contract ext -> valid_input img ->
  let rows := if is_wave then 250%nat else 256%nat in
  let cols := if is_wave then 550%nat else 256%nat in
  let tensor := fst (prepare_image_for_prediction ext img is_wave) in
  let processed := snd (prepare_image_for_prediction ext img is_wave) in
  has_shape rows cols processed
  /\ gray_pixels_ok processed
  /\ has_shape rows cols tensor
  /\ tensor = map (map (fun v => (inject_Z v / 255)%Q)) processed
  /\ Forall (Forall (fun x => (0 <= x /\ x <= 1)%Q)) tensor
  /\ (forall w w1,
        models_loaded (loader w) = false ->
        ModelLoader.load_models ext w = (Ret true, w1) ->
        exists m p,
          (if is_wave then wave_model (loader w1)
           else spiral_model (loader w1)) = Some m
          /\ keras_predict ext m (ModelLoader.zeros rows cols) = Ret p
          /\ has_shape rows cols (ModelLoader.zeros rows cols)
          /\ In (EPredict rows cols) (trace w1)).
Proof.
  intros Hcvt Hres Hvalid. cbv zeta.
  assert (Hproc :
    has_shape (if is_wave then 250%nat else 256%nat)
              (if is_wave then 550%nat else 256%nat)
              (snd (prepare_image_for_prediction ext img is_wave))
    /\ gray_pixels_ok (snd (prepare_image_for_prediction ext img is_wave))).
  { unfold prepare_image_for_prediction. destruct is_wave; cbn [snd].
    - destruct (ImageProcessorFacts.resized_ok ext img 550 250
                  Hcvt Hres Hvalid) as [Hs Hp]; [lia | lia |].
      apply (Hres _ 250%nat 550%nat); try lia.
      + unfold process_wave. cbv zeta.
        apply ImageProcessorFacts.invert_shape, Hs.
      + apply ImageProcessorFacts.invert_pixels_ok.
    - destruct (ImageProcessorFacts.resized_ok ext img 256 256
                  Hcvt Hres Hvalid) as [Hs Hp]; [lia | lia |].
      apply (Hres _ 256%nat 256%nat); try lia.
      + unfold process_spiral. cbv zeta.
        apply ImageProcessorFacts.invert_shape, Hs.
      + apply ImageProcessorFacts.invert_pixels_ok. }
  destruct Hproc as [Hs Hp].
  assert (Ht : fst (prepare_image_for_prediction ext img is_wave)
               = map (map (fun v => (inject_Z v / 255)%Q))
                     (snd (prepare_image_for_prediction ext img is_wave))).
  { unfold prepare_image_for_prediction. destruct is_wave; reflexivity. }
  split; [exact Hs |]. split; [exact Hp |].
  split; [rewrite Ht; apply scaled_shape, Hs |].
  split; [exact Ht |].
  split.
  - rewrite Ht. apply Forall_map. eapply Forall_impl; [| exact Hp].
    intros r Hr. apply Forall_map. eapply Forall_impl; [| exact Hr].
    intros v Hv. apply scaled_range, Hv.
  - intros w w1 Hflag Hrun.
    destruct (load_models_dry_run ext w w1 Hflag Hrun)
      as [sm [wm [p_s [p_w [Es [Ew [Ps [Pw [Ts Tw]]]]]]]]].
    destruct is_wave.
    + exists wm, p_w. split; [exact Ew |]. split; [exact Pw |].
      split; [apply zeros_shape | exact Tw].
    + exists sm, p_s. split; [exact Es |]. split; [exact Ps |].
      split; [apply zeros_shape | exact Ts].
Qed.

Lemma prepared_input_is_normalised_witness :
  cvtColor_contract Demo.ext /\ resize_contract Demo.ext
  /\ valid_input Demo.img0
  /\ has_shape 250 550
       (fst (prepare_image_for_prediction Demo.ext Demo.img0 true))
  /\ models_loaded (loader Demo.world0) = false
  /\ exists w1,
       ModelLoader.load_models Demo.ext Demo.world0 = (Ret true, w1)
       /\ exists m p,
            wave_model (loader w1) = Some m
            /\ keras_predict Demo.ext m (ModelLoader.zeros 250 550) = Ret p.
Proof.
  pose proof (prepared_input_is_normalised Demo.ext Demo.img0 true
                ImageProcessorFacts.demo_cvtColor_contract
                ImageProcessorFacts.demo_resize_contract
                ImageProcessorFacts.demo_img0_valid) as H.
  cbv zeta in H.
  destruct H as [_ [_ [Hshape [_ [_ Hdry]]]]].
  split; [exact ImageProcessorFacts.demo_cvtColor_contract |].
  split; [exact ImageProcessorFacts.demo_resize_contract |].
  split; [exact ImageProcessorFacts.demo_img0_valid |].
  split; [exact Hshape |]. split; [reflexivity |].
  exists (snd (ModelLoader.load_models Demo.ext Demo.world0)).
  assert (E : ModelLoader.load_models Demo.ext Demo.world0
              = (Ret true, snd (ModelLoader.load_models Demo.ext
                                                        Demo.world0))).
  { vm_compute. reflexivity. }
  split; [exact E |].
  destruct (Hdry Demo.world0 _ eq_refl E) as [m [p [Em [Ep _]]]].
  exists m, p. split; assumption.
Defined.

End ImageProcessorMore.

(** ** Grad-CAM: order of the entries, vanishing gradients *)

Module GradCamMore.
Import Float FloatFacts GradCam.
Local Open Scope Q_scope.

Lemma empty_entries_tmap {A B} (f g : A -> B) (t : list (list A)) :
  entries t = [] -> tmap f t = tmap g t.
Proof.
  intros H. apply GradCamFacts.tmap_ext_in. rewrite H. intros x [].
Qed.

Lemma quotient_of_nonpos d x :
  x <= 0 -> round32 (Qmax x 0 / d) == 0.
Proof.
  intros H. apply round32_eq_0.
  rewrite (GradCamFacts.relu_of_nonpos x H). apply GradCamFacts.zero_div.
Qed.

Lemma quotient_monotone d x y :
  0 < d -> x <= y -> round32 (Qmax x 0 / d) <= round32 (Qmax y 0 / d).
Proof.
  intros Hd H. apply round32_le, GradCamFacts.div_mono; [exact Hd |].
  apply Q.max_le_compat_r. exact H.
Qed.

Lemma wave_is_a_map raw :
  float32_tensor raw ->
  exists f,
    normalize_wave raw = tmap (fun x => Some (f x)) raw
    /\ (forall x y, x <= y -> f x <= f y)
    /\ (forall x, x <= 0 -> f x == 0).
Proof.
  intros Hraw. destruct (reduce_max (relu raw)) as [m |] eqn:E.
  - destruct (GradCamFacts.normalize_wave_formula raw m Hraw E) as [_ Hf].
    destruct (GradCamFacts.wave_denominator raw m Hraw E)
      as [_ [Nm [Up [_ [Pd G]]]]].
    exists (fun x => round32 (Qmax x 0 / round32 (m + wave_eps))).
    split; [| split].
    + rewrite Hf. apply GradCamFacts.tmap_ext_in. intros x Hx.
      apply GradCamFacts.fdiv_unit.
      * apply GradCamFacts.relu_nonneg.
      * apply Qle_trans with m; [apply Up, Hx | exact G].
      * exact Pd.
    + intros x y H. apply quotient_monotone; assumption.
    + intros x H. apply quotient_of_nonpos, H.
  - exists (fun _ => 0). split; [| split].
    + unfold normalize_wave. cbv zeta. rewrite E. cbn [tdiv].
      unfold relu.
      exact (GradCamFacts.tmap_tmap (fun x => Qmax x 0)
                                    (fun _ => Some 0) raw).
    + intros. apply Qle_refl.
    + intros. reflexivity.
Qed.

Lemma spiral_is_a_map raw :
  float32_tensor raw -> spiral_denominator_nonzero raw ->
  exists f,
    normalize_spiral raw = tmap (fun x => Some (f x)) raw
    /\ (forall x y, In x (entries raw) -> In y (entries raw) ->
                    x <= y -> f x <= f y)
    /\ (forall x, x <= 0 -> f x == 0).
Proof.
  intros Hraw Hnz. destruct (reduce_max raw) as [m |] eqn:Em.
  - destruct (GradCamFacts.normalize_spiral_formula raw m Hraw Em)
      as [d [Ed Hf]].
    destruct (GradCamFacts.spiral_denominator raw m Hraw Em) as [Fm _].
    destruct (GradCamFacts.fadd_spiral_eps m Fm) as [_ G].
    assert (Nd : ~ d == 0).
    { intros Z. apply (Hnz m Em).
      apply GradCamFacts.spiral_denominator_zero; [exact Fm |].
      rewrite <- Ed. exact Z. }
    assert (Um : forall x, In x (entries raw) -> x <= m).
    { intros x Hx. unfold reduce_max in Em.
      apply (GradCamFacts.max_list_upper _ _ Em). exact Hx. }
    exists (fun x => round32 (Qmax x 0 / d)).
    destruct (Qlt_le_dec 0 d) as [Pd | Npd].
    + split; [| split].
      * rewrite Hf. apply GradCamFacts.tmap_ext_in. intros x Hx.
        apply GradCamFacts.fdiv_unit; [apply GradCamFacts.relu_nonneg | |
                                       exact Pd].
        apply Q.max_lub; [| apply Qlt_le_weak, Pd].
        rewrite Ed. apply Qle_trans with m; [apply Um, Hx | exact G].
      * intros x y _ _ H. apply quotient_monotone; assumption.
      * intros x H. apply quotient_of_nonpos, H.
    + (* a negative denominator: every entry is negative *)
      assert (Hneg : forall x, In x (entries raw) -> x <= 0).
      { intros x Hx.
        destruct (Qlt_le_dec 0 x) as [Px | Nx]; [| exact Nx].
        exfalso. apply Nd. apply Qle_antisym; [exact Npd |].
        rewrite Ed. apply round32_nonneg.
        pose proof (Um x Hx). pose proof GradCamFacts.spiral_eps_pos. lra. }
      split; [| split].
      * rewrite Hf. apply GradCamFacts.tmap_ext_in. intros x Hx.
        apply GradCamFacts.fdiv_of_zero; [| exact Nd].
        apply GradCamFacts.relu_of_nonpos, Hneg, Hx.
      * intros x y Hx Hy _.
        rewrite (quotient_of_nonpos d x (Hneg x Hx)),
                (quotient_of_nonpos d y (Hneg y Hy)).
        apply Qle_refl.
      * intros x H. apply quotient_of_nonpos, H.
  - exists (fun _ => 0).
    unfold reduce_max in Em. apply GradCamFacts.max_list_none in Em.
    change (entries raw = []) in Em.
    split; [| split].
    + unfold normalize_spiral, reduce_max_sums.
      change (List.concat (tmap (fun x => fadd x spiral_eps) raw))
        with (entries (tmap (fun x => fadd x spiral_eps) raw)).
      rewrite GradCamFacts.entries_tmap, Em.
      cbn [map all_finite max_list tdiv]. unfold relu.
      exact (GradCamFacts.tmap_tmap (fun x => Qmax x 0)
                                    (fun _ => Some 0) raw).
    + intros. apply Qle_refl.
    + intros. reflexivity.
Qed.

(** X5.  The normalisation keeps the shape and the order of the raw
    heatmap: for a raw heatmap of float32 numbers, the output is the raw
    heatmap with one and the same function applied to every entry, a
    function that is non-decreasing on the entries and sends every
    non-positive value to zero.  So a hotter place of the raw sum is never
    shown cooler than a colder one.  For the spiral this holds whenever its
    denominator is not zero, that is, whenever the largest raw entry is not
    minus the float32 [1e-8]. *)
Theorem heatmap_keeps_the_order (raw : tensor2) :
  float32_tensor raw ->
  (exists f,
      normalize_wave raw = tmap (fun x => Some (f x)) raw
      /\ (forall x y, x <= y -> f x <= f y)
      /\ (forall x, x <= 0 -> f x == 0))
  /\ (spiral_denominator_nonzero raw ->
      exists f,
        normalize_spiral raw = tmap (fun x => Some (f x)) raw
        /\ (forall x y, In x (entries raw) -> In y (entries raw) ->
                        x <= y -> f x <= f y)
        /\ (forall x, x <= 0 -> f x == 0)).
Proof.
  intros Hraw. split; [apply wave_is_a_map | apply spiral_is_a_map];
    exact Hraw.
Qed.

Lemma heatmap_keeps_the_order_witness :
  float32_tensor [[1; -2]; [3; 0]]
  /\ spiral_denominator_nonzero [[1; -2]; [3; 0]]
  /\ exists f,
       normalize_spiral [[1; -2]; [3; 0]]
       = tmap (fun x => Some (f x)) [[1; -2]; [3; 0]]
       /\ forall x, x <= 0 -> f x == 0.
Proof.
  assert (H : spiral_denominator_nonzero [[1; -2]; [3; 0]]).
  { intros m Hm. vm_compute in Hm. injection Hm as <-.
    intros E. discriminate E. }
  split; [exact GradCamFacts.small_tensor_float32 |].
  split; [exact H |].
  destruct (proj2 (heatmap_keeps_the_order
                     [[1; -2]; [3; 0]]
                     GradCamFacts.small_tensor_float32) H)
    as [f [Hf [_ Hz]]].
  exists f. split; assumption.
Defined.

(** *** Vanishing gradients *)

Lemma Qsum_zero l : Forall (fun x => x == 0) l -> Qsum l == 0.
Proof.
  induction 1 as [| x l Hx _ IH]; simpl.
  - reflexivity.
  - rewrite Hx, IH. reflexivity.
Qed.

Lemma nth_zero c (px : list Q) :
  Forall (fun x => x == 0) px -> nth c px 0 == 0.
Proof.
  intros H. destruct (nth_in_or_default c px 0) as [Hin | ->].
  - rewrite Forall_forall in H. apply H, Hin.
  - reflexivity.
Qed.

Lemma pooled_grads_zero grads :
  Forall (fun x => x == 0) (List.concat (pixels grads)) ->
  Forall (fun w => w == 0) (pooled_grads grads).
Proof.
  intros H. apply Forall_concat in H.
  unfold pooled_grads. apply Forall_map, Forall_forall. intros c _.
  assert (E : Qsum (map (fun px => nth c px 0) (pixels grads)) == 0).
  { apply Qsum_zero, Forall_map.
    eapply Forall_impl; [| exact H]. intros px Hpx. apply nth_zero, Hpx. }
  rewrite E. apply GradCamFacts.zero_div.
Qed.

Lemma dot_zero v w : Forall (fun x => x == 0) w -> dot v w == 0.
Proof.
  intros H. unfold dot. apply Qsum_zero, Forall_map, Forall_forall.
  intros [a b] Hin. apply in_combine_r in Hin.
  rewrite Forall_forall in H. cbn [fst snd].
  rewrite (H b Hin). apply Qmult_0_r.
Qed.

Lemma weighted_sum_zero conv w :
  Forall (fun x => x == 0) w ->
  Forall (fun x => x == 0) (entries (weighted_sum conv w)).
Proof.
  intros H. unfold weighted_sum. rewrite GradCamFacts.entries_tmap.
  apply Forall_map, Forall_forall. intros px _. apply dot_zero, H.
Qed.

Lemma zero_raw_is_float32 raw :
  Forall (fun x => x == 0) (entries raw) -> float32_tensor raw.
Proof.
  intros H. unfold float32_tensor.
  eapply Forall_impl; [| exact H]. intros x Hx. cbv beta in Hx.
  apply (is_float32_comp 0 x); [symmetry; exact Hx | apply is_float32_0].
Qed.

Lemma zero_raw_is_safe raw :
  Forall (fun x => x == 0) (entries raw) -> spiral_denominator_nonzero raw.
Proof.
  intros H m Hm E.
  pose proof (GradCamFacts.max_list_in _ _ Hm) as Hin.
  rewrite Forall_forall in H. rewrite (H m Hin) in E. discriminate E.
Qed.

(** X6.  When the gradient of the score with respect to the feature maps
    vanishes everywhere (a saturated classifier), both heatmaps are zero
    everywhere, whatever the feature maps are: the report then shows no
    highlighted region at all. *)
Theorem vanishing_gradient_gives_blank_heatmap
        (conv_outputs grads : tensor3) :
  Forall (fun x => x == 0) (List.concat (pixels grads)) ->
  Forall (is_value 0) (entries (make_wave_gradcam conv_outputs grads))
  /\ Forall (is_value 0) (entries (make_spiral_gradcam conv_outputs grads)).
Proof.
  intros Hz.
  pose proof (weighted_sum_zero conv_outputs _ (pooled_grads_zero _ Hz))
    as Hraw.
  assert (Hnonpos : Forall (fun x => x <= 0)
                      (entries (weighted_sum conv_outputs
                                             (pooled_grads grads)))).
  { eapply Forall_impl; [| exact Hraw].
    intros x Hx. cbv beta in Hx. rewrite Hx. apply Qle_refl. }
  pose proof (zero_raw_is_float32 _ Hraw) as Hfl.
  split.
  - unfold make_wave_gradcam.
    destruct (GradCamFacts.normalize_wave_normalised
                (weighted_sum conv_outputs (pooled_grads grads)) Hfl)
      as [_ [_ [H _]]].
    apply H, Hnonpos.
  - unfold make_spiral_gradcam.
    destruct (GradCamFacts.normalize_spiral_normalised
                (weighted_sum conv_outputs (pooled_grads grads)) Hfl
                (zero_raw_is_safe _ Hraw))
      as [_ [_ [H _]]].
    apply H, Hnonpos.
Qed.

Lemma vanishing_gradient_gives_blank_heatmap_witness :
  Forall (fun x => x == 0) (List.concat (pixels [[[0; 0]; [0; 0]]]))
  /\ Forall (is_value 0)
            (entries (make_wave_gradcam [[[1; 2]; [3; 4]]]
                                        [[[0; 0]; [0; 0]]])).
Proof.
  assert (H : Forall (fun x => x == 0)
                     (List.concat (pixels [[[0; 0]; [0; 0]]]))).
  { repeat constructor. }
  split; [exact H |].
  apply (vanishing_gradient_gives_blank_heatmap
           [[[1; 2]; [3; 4]]] [[[0; 0]; [0; 0]]] H).
Defined.

End GradCamMore.

(** ** The model provider: which file stops a load, and when it succeeds *)

Module ModelLoaderMore.
Import ModelLoader.
Local Open Scope string_scope.
Local Open Scope list_scope.

(** The loop over the required files, run: it looks at the files in
    order, up to and including the first one that is missing. *)
Lemma check_required_present ext files w :
  Forall (fun p => os_path_exists ext p = true) files ->
  check_required ext files w
  = (Ret tt, mkWorld (loader w) (fs w) (trace w ++ map EPathExists files)
                     (clock w) (ticks w)).
Proof.
  intros H. revert w. induction H as [| p files Hp _ IH]; intros w.
  - cbn [check_required map]. rewrite app_nil_r. destruct w; reflexivity.
  - cbn [check_required map]. unfold bind at 1, call at 1.
    rewrite Hp. cbn [negb]. rewrite IH. world_simpl.
    rewrite <- app_assoc. reflexivity.
Qed.

Lemma check_required_missing ext pre p post w :
  Forall (fun q => os_path_exists ext q = true) pre ->
  os_path_exists ext p = false ->
  check_required ext (pre ++ p :: post) w
  = (Raise (mkExn FileNotFoundError
              (text "Required model file not found: " ++ text p)),
     mkWorld (loader w) (fs w)
             (trace w ++ map EPathExists (pre ++ [p]))
             (clock w) (ticks w)).
Proof.
  intros H Hp. revert w. induction H as [| q pre Hq _ IH]; intros w.
  - cbn [app check_required map]. unfold bind at 1, call at 1.
    rewrite Hp. reflexivity.
  - cbn [app check_required map]. unfold bind at 1, call at 1.
    rewrite Hq. cbn [negb]. rewrite IH. world_simpl.
    rewrite <- app_assoc. reflexivity.
Qed.

(** X7.  A load stops at the first required file that is missing: the
    files before it have been looked at, in order, and nothing after it;
    no configuration is read and no model is built; the message that is
    printed names that file; both models and the flag are reset, and
    the files, the clock and the two layer names are as they were. *)
Theorem load_stops_at_first_missing_file
        (ext : Externals) (w : World) (pre post : list string) (p : string) :
  models_loaded (loader w) = false ->
  required_files = pre ++ p :: post ->
  Forall (fun q => os_path_exists ext q = true) pre ->
  os_path_exists ext p = false ->
  load_models ext w
  = (Ret false,
     mkWorld (mkLoader None None (spiral_last_conv (loader w))
                       (wave_last_conv (loader w)) false)
             (fs w)
             (trace w
              ++ [EPrint (text "Loading models...")]
              ++ map EPathExists (pre ++ [p])
              ++ [EPrint (text "Error loading models: "
                          ++ text "Required model file not found: "
                          ++ text p)])
             (clock w) (ticks w)).
Proof.
  intros Hflag Hsplit Hpre Hp.
  unfold load_models. unfold bind at 1, get_loader at 1.
  rewrite Hflag. unfold try_catch, load_models_try.
  rewrite Hsplit. unfold bind at 1, print at 1, log at 1.
  unfold bind at 1.
  rewrite (check_required_missing ext pre p post _ Hpre Hp).
  world_simpl.
  unfold load_models_except, set_spiral_model, set_wave_model,
    set_models_loaded, bind, print, log, get_loader, set_loader, ret.
  unfold with_loader, logged. world_simpl. cbn [exn_msg].
  rewrite <- !app_assoc. reflexivity.
Qed.

Lemma load_stops_at_first_missing_file_witness :
  exists w1,
    load_models Demo.ext_no_files Demo.world0 = (Ret false, w1)
    /\ last (trace w1) (EPrint [])
       = EPrint (text "Error loading models: "
                 ++ text "Required model file not found: "
                 ++ text "models/wave.weights.new.h5").
Proof.
  eexists. split.
  - apply (load_stops_at_first_missing_file
             Demo.ext_no_files Demo.world0
             [ "models/spiral_config.json"; "models/wave_config.json";
               "models/spiral.weights.new.h5" ]
             [] "models/wave.weights.new.h5").
    + reflexivity.
    + reflexivity.
    + repeat constructor.
    + reflexivity.
  - vm_compute. reflexivity.
Defined.

(** *** A load that succeeds *)

Ltac wp_run_known :=
  repeat (first [wp_known | wp_step | ModelLoaderFacts.wp_setter];
          world_simpl).

(** The run of a load on which every library call returns. *)
Lemma successful_load_run
        (ext : Externals) (w : World)
        (spiral_config wave_config : pystr)
        (sm0 sm1 sm2 wm0 wm1 wm2 : Model) (opt : N) (ps pw : Q) :
  models_loaded (loader w) = false ->
  all_files_present ext ->
  read_text_file ext "models/spiral_config.json" = Ret spiral_config ->
  keras_model_from_json ext spiral_config = Ret (Some sm0) ->
  keras_load_weights ext sm0 "models/spiral.weights.new.h5" = Ret sm1 ->
  read_text_file ext "models/wave_config.json" = Ret wave_config ->
  keras_model_from_json ext wave_config = Ret (Some wm0) ->
  keras_load_weights ext wm0 "models/wave.weights.new.h5" = Ret wm1 ->
  keras_Adam ext = Ret opt ->
  keras_compile ext sm1 opt = Ret sm2 ->
  keras_compile ext wm1 opt = Ret wm2 ->
  keras_predict ext sm2 (zeros 256 256) = Ret ps ->
  keras_predict ext wm2 (zeros 250 550) = Ret pw ->
  load_models ext w
  = (Ret true,
     mkWorld (mkLoader (Some sm2) (Some wm2) (spiral_last_conv (loader w))
                       (wave_last_conv (loader w)) true)
             (fs w) (trace w ++ successful_load_events)
             (clock w) (ticks w)).
Proof.
  intros Hflag Hfiles Hr1 Hj1 Hw1 Hr2 Hj2 Hw2 Hopt Hc1 Hc2 Hp1 Hp2.
  apply wp_exact. unfold load_models.
  apply wp_bind, wp_get_loader. rewrite Hflag.
  apply wp_try. unfold load_models_try.
  apply wp_bind, wp_print. world_simpl.
  apply wp_bind.
  eapply wp_of_run; [apply check_required_present, Hfiles |].
  world_simpl.
  wp_run_known.
  split; [reflexivity |].
  apply world_ext; world_simpl; try reflexivity.
  unfold successful_load_events.
  rewrite <- !app_assoc. cbn [app]. reflexivity.
Qed.

(** X8.  A load succeeds whenever the four files are there and every
    library call returns: it answers [True], sets the flag, and stores
    the spiral and the wave model as they come out of building from the
    configuration, loading the weights and compiling with one and the
    same optimizer.  All four files are looked at before any is read,
    and the two dry runs are made on a 256 x 256 and a 250 x 550 tensor
    of zeros, the spiral first. *)
Theorem load_succeeds_when_libraries_do
        (ext : Externals) (w : World)
        (spiral_config wave_config : pystr)
        (sm0 sm1 sm2 wm0 wm1 wm2 : Model) (opt : N) (ps pw : Q) :
  models_loaded (loader w) = false ->
  all_files_present ext ->
  read_text_file ext "models/spiral_config.json" = Ret spiral_config ->
  keras_model_from_json ext spiral_config = Ret (Some sm0) ->
  keras_load_weights ext sm0 "models/spiral.weights.new.h5" = Ret sm1 ->
  read_text_file ext "models/wave_config.json" = Ret wave_config ->
  keras_model_from_json ext wave_config = Ret (Some wm0) ->
  keras_load_weights ext wm0 "models/wave.weights.new.h5" = Ret wm1 ->
  keras_Adam ext = Ret opt ->
  keras_compile ext sm1 opt = Ret sm2 ->
  keras_compile ext wm1 opt = Ret wm2 ->
  keras_predict ext sm2 (zeros 256 256) = Ret ps ->
  keras_predict ext wm2 (zeros 250 550) = Ret pw ->
  load_models ext w
  = (Ret true,
     mkWorld (mkLoader (Some sm2) (Some wm2) (spiral_last_conv (loader w))
                       (wave_last_conv (loader w)) true)
             (fs w) (trace w ++ successful_load_events)
             (clock w) (ticks w)).
Proof.
  apply successful_load_run.
Qed.

Lemma load_succeeds_when_libraries_do_witness :
  load_models Demo.ext Demo.world0
  = (Ret true,
     mkWorld (mkLoader (Some (KerasModel 1)) (Some (KerasModel 2))
                       "conv2d_3" "convo_3" true)
             (mkFS None None None) successful_load_events Demo.clock0 0).
Proof.
  apply (load_succeeds_when_libraries_do
           Demo.ext Demo.world0 [1%N] [2%N]
           (KerasModel 1) (KerasModel 1) (KerasModel 1)
           (KerasModel 2) (KerasModel 2) (KerasModel 2)
           0%N (8 # 10) (4 # 10)).
  - reflexivity.
  - repeat constructor.
  - reflexivity.
  - reflexivity.
  - reflexivity.
  - reflexivity.
  - reflexivity.
  - reflexivity.
  - reflexivity.
  - reflexivity.
  - reflexivity.
  - reflexivity.
  - reflexivity.
Defined.

(** X9.  A failed load is not remembered: after a call that answered
    [False], the next call, or the next getter, tries again from the
    start, and succeeds if by then the files are there and the library
    calls return.  So a loader that failed once is not broken for
    good. *)
Theorem failed_load_is_retried
        (ext ext' : Externals) (w w1 : World)
        (spiral_config wave_config : pystr)
        (sm0 sm1 sm2 wm0 wm1 wm2 : Model) (opt : N) (ps pw : Q) :
  load_models ext w = (Ret false, w1) ->
  all_files_present ext' ->
  read_text_file ext' "models/spiral_config.json" = Ret spiral_config ->
  keras_model_from_json ext' spiral_config = Ret (Some sm0) ->
  keras_load_weights ext' sm0 "models/spiral.weights.new.h5" = Ret sm1 ->
  read_text_file ext' "models/wave_config.json" = Ret wave_config ->
  keras_model_from_json ext' wave_config = Ret (Some wm0) ->
  keras_load_weights ext' wm0 "models/wave.weights.new.h5" = Ret wm1 ->
  keras_Adam ext' = Ret opt ->
  keras_compile ext' sm1 opt = Ret sm2 ->
  keras_compile ext' wm1 opt = Ret wm2 ->
  keras_predict ext' sm2 (zeros 256 256) = Ret ps ->
  keras_predict ext' wm2 (zeros 250 550) = Ret pw ->
  exists w2,
    load_models ext' w1 = (Ret true, w2)
    /\ get_spiral_model ext' w1 = (Ret (Some sm2), w2)
    /\ get_wave_model ext' w1 = (Ret (Some wm2), w2)
    /\ models_loaded (loader w2) = true
    /\ trace w2 = trace w1 ++ successful_load_events.
Proof.
  intros Hfail Hfiles Hr1 Hj1 Hw1 Hr2 Hj2 Hw2 Hopt Hc1 Hc2 Hp1 Hp2.
  destruct (ModelLoaderFacts.load_failure_unloads ext w w1 Hfail)
    as [_ [_ Hflag]].
  pose proof (successful_load_run ext' w1 spiral_config wave_config
                sm0 sm1 sm2 wm0 wm1 wm2 opt ps pw
                Hflag Hfiles Hr1 Hj1 Hw1 Hr2 Hj2 Hw2 Hopt Hc1 Hc2 Hp1 Hp2)
    as Hrun.
  eexists. split; [exact Hrun |].
  rewrite (ModelLoaderFacts.get_spiral_model_lazy ext' w1 true _ Hflag Hrun),
          (ModelLoaderFacts.get_wave_model_lazy ext' w1 true _ Hflag Hrun).
  repeat split.
Qed.

Lemma failed_load_is_retried_witness :
  exists w1 w2,
    load_models Demo.ext_no_files Demo.world0 = (Ret false, w1)
    /\ load_models Demo.ext w1 = (Ret true, w2)
    /\ get_spiral_model Demo.ext w1 = (Ret (Some (KerasModel 1)), w2).
Proof.
  exists (snd (load_models Demo.ext_no_files Demo.world0)).
  assert (E : load_models Demo.ext_no_files Demo.world0
              = (Ret false, snd (load_models Demo.ext_no_files Demo.world0))).
  { vm_compute. reflexivity. }
  destruct (failed_load_is_retried
              Demo.ext_no_files Demo.ext Demo.world0 _ [1%N] [2%N]
              (KerasModel 1) (KerasModel 1) (KerasModel 1)
              (KerasModel 2) (KerasModel 2) (KerasModel 2)
              0%N (8 # 10) (4 # 10) E
              ltac:(repeat constructor)
              eq_refl eq_refl eq_refl eq_refl eq_refl eq_refl
              eq_refl eq_refl eq_refl eq_refl eq_refl)
    as [w2 [H1 [H2 _]]].
  exists w2. split; [exact E |]. split; [exact H1 | exact H2].
Defined.

(** *** Startup *)

(** X10.  The server serves only with its models loaded.  Module
    initialisation ends in one of two ways: the server starts, with the
    flag set, both models stored and the four files present; or the
    process exits with status 1, with no model stored.  Either way no
    file of the server has been written. *)
Theorem server_serves_only_with_models (ext : Externals) (w0 : World) :
  (exists w,
      App.startup ext w0 = App.Serving w
      /\ models_loaded (loader w) = true
      /\ both_present (loader w)
      /\ all_files_present ext
      /\ fs w = fs w0)
  \/ (exists w,
         App.startup ext w0 = App.Exited 1 w
         /\ unloaded (loader w)
         /\ fs w = fs w0).
Proof.
  pose proof (ModelLoaderFacts.load_models_spec ext (App.boot w0)) as S.
  unfold wp in S. unfold App.startup.
  destruct (load_models ext (App.boot w0)) as [[b | e] w1];
    [| contradiction].
  destruct S as [[Ffs _] [_ S]].
  destruct (S eq_refl) as [St Sf].
  destruct b.
  - left. destruct (St eq_refl) as [Hflag [Hboth Hfiles]].
    eexists. split; [reflexivity |]. world_simpl.
    repeat split; try assumption.
  - right. eexists. split; [reflexivity |]. world_simpl.
    split; [exact (Sf eq_refl) | exact Ffs].
Qed.

End ModelLoaderMore.

(** ** Validation of the user info: ages, missing fields, blank names *)

Module ValidationMore.
Import App.
Local Open Scope string_scope.
Local Open Scope list_scope.

(** [int()] of a finite float is between 18 and 60 exactly when the
    float is at least 18 and below 61. *)
Lemma truncate_range (q : Q) :
  (18 <= truncate q <= 60)%Z <-> (18 <= q /\ q < 61)%Q.
Proof.
  destruct q as [n d]. unfold truncate, Qle, Qlt. cbn [Qnum Qden].
  destruct (Z_lt_le_dec n 0) as [Hneg | Hpos].
  - assert (Hq : (n ÷ Z.pos d <= 0)%Z).
    { replace n with (- (- n))%Z by lia.
      rewrite Z.quot_opp_l by lia.
      pose proof (Z.quot_pos (- n) (Z.pos d) ltac:(lia) ltac:(lia)).
      lia. }
    split; intros H; lia.
  - rewrite Z.quot_div_nonneg by lia.
    pose proof (Z.div_mod n (Z.pos d) ltac:(lia)) as E.
    pose proof (Z.mod_pos_bound n (Z.pos d) ltac:(lia)) as B.
    split; intros H; nia.
Qed.

Lemma dict_get_missing (d : dict) key default :
  (forall v, ~ In (key, v) d) -> dict_get d key default = default.
Proof.
  induction d as [| [k v] d IH]; intros H; cbn [dict_get].
  - reflexivity.
  - destruct (pystr_eqb k key) eqn:E.
    + apply pystr_eqb_eq in E. subst k. destruct (H v). left. reflexivity.
    + apply IH. intros v' Hin. apply (H v'). right. exact Hin.
Qed.

Lemma lstrip_nil s : lstrip s = [] <-> forallb is_space s = true.
Proof.
  induction s as [| c r IH]; cbn [lstrip forallb].
  - tauto.
  - destruct (is_space c); cbn [andb]; [exact IH |].
    split; discriminate.
Qed.

Lemma strip_nil s : strip s = [] <-> forallb is_space s = true.
Proof.
  split.
  - unfold strip, rstrip. intros H.
    assert (H1 : lstrip (rev (lstrip s)) = []).
    { destruct (lstrip (rev (lstrip s))) as [| x l]; [reflexivity |].
      apply (f_equal (@List.length N)) in H. rewrite length_rev in H.
      discriminate H. }
    apply lstrip_nil in H1.
    assert (H2 : forallb is_space (lstrip s) = true).
    { apply forallb_forall. intros c Hc.
      rewrite forallb_forall in H1. apply H1, in_rev.
      rewrite rev_involutive. exact Hc. }
    clear H H1. induction s as [| c r IH]; [reflexivity |].
    cbn [lstrip] in H2. cbn [forallb].
    destruct (is_space c) eqn:Ec.
    + cbn [andb]. apply IH, H2.
    + cbn [forallb] in H2. rewrite Ec in H2. discriminate H2.
  - intros H. unfold strip, rstrip.
    rewrite (proj2 (lstrip_nil s) H). reflexivity.
Qed.

Lemma not_all_space s :
  forallb is_space s <> true <-> exists c, In c s /\ is_space c = false.
Proof.
  induction s as [| c r IH]; cbn [forallb].
  - split; [intros H; destruct H; reflexivity | intros [c [[] _]]].
  - destruct (is_space c) eqn:Ec; cbn [andb].
    + rewrite IH. split.
      * intros [x [Hx Ex]]. exists x. split; [right; exact Hx | exact Ex].
      * intros [x [[-> | Hx] Ex]]; [congruence |]. exists x. auto.
    + split; [| discriminate].
      intros _. exists c. split; [left; reflexivity | exact Ec].
Qed.

Lemma empty_not_a_gender : ~ In [] genders.
Proof.
  intros H. apply AppFacts.in_list_iff in H.
  vm_compute in H. discriminate H.
Qed.

(** X11.  An age given as a number with a fraction is truncated before it
    is compared: on a document that is otherwise valid, a finite float
    age is accepted exactly when it is at least 18 and below 61, so 60.9
    passes and 17.9 does not; an age that is infinite or not a number
    is rejected. *)
Theorem fractional_age_is_truncated
        (ext : Externals) (d : dict) (name gender : pystr) (f : pyfloat) :
  dict_get d (text "name") (JStr []) = JStr name ->
  strip name <> [] ->
  dict_get d (text "gender") (JStr []) = JStr gender ->
  In (strip gender) genders ->
  dict_get d (text "age") (JInt 0) = JFloat f ->
  (forall q, f = Finite q ->
     (validate_user_info ext (JObj d) = Ret (JObj d)
      <-> (18 <= q /\ q < 61)%Q))
  /\ ((forall q, f <> Finite q) ->
      forall u, validate_user_info ext (JObj d) <> Ret u).
Proof.
  intros Hn Hname Hg Hgender Ha. split.
  - intros q ->. rewrite <- truncate_range.
    rewrite AppFacts.validate_accepts. split.
    + intros [_ [d' [n' [age [g' [Ed [_ [_ [Eage [Hage _]]]]]]]]]].
      injection Ed as <-. rewrite Ha in Eage. cbn [py_int] in Eage.
      injection Eage as <-. exact Hage.
    + intros Hage. split; [reflexivity |].
      exists d, name, (truncate q), gender.
      rewrite Ha. cbn [py_int]. repeat split; try assumption; apply Hage.
  - intros Hinf u Hu. apply AppFacts.validate_accepts in Hu.
    destruct Hu as [_ [d' [n' [age [g' [Ed [_ [_ [Eage _]]]]]]]]].
    injection Ed as <-. rewrite Ha in Eage.
    destruct f as [q | | |]; cbn [py_int] in Eage;
      [destruct (Hinf q); reflexivity | discriminate Eage ..].
Qed.

Lemma fractional_age_is_truncated_witness :
  validate_user_info Demo.ext
    (JObj [ (text "name", JStr (text "Ann"));
            (text "age", JFloat (Finite (609 # 10)));
            (text "gender", JStr (text "Male")) ])
  = Ret (JObj [ (text "name", JStr (text "Ann"));
                (text "age", JFloat (Finite (609 # 10)));
                (text "gender", JStr (text "Male")) ]).
Proof.
  apply (proj1 (fractional_age_is_truncated Demo.ext
                  [ (text "name", JStr (text "Ann"));
                    (text "age", JFloat (Finite (609 # 10)));
                    (text "gender", JStr (text "Male")) ]
                  (text "Ann") (text "Male") (Finite (609 # 10))
                  ltac:(reflexivity)
                  ltac:(vm_compute; discriminate)
                  ltac:(reflexivity)
                  ltac:(vm_compute; auto)
                  ltac:(reflexivity))
               (609 # 10)%Q eq_refl).
  split; [vm_compute; discriminate | reflexivity].
Defined.

Lemma rejected_gives_400 ext req w raw user_info :
  file_truthy (files_spiral req) = true ->
  file_truthy (files_wave req) = true ->
  form_user_info req = Some raw ->
  json_loads ext raw = Ret user_info ->
  (forall u, validate_user_info ext user_info <> Ret u) ->
  analyze ext req w = (Ret (error_response 400 invalid_user_info), w).
Proof.
  intros Hs Hw Hraw Hloads Hrej.
  apply AppFacts.analyze_invalid_info; [exact Hs | exact Hw |].
  intros u Hu. apply AppFacts.parse_accepts in Hu.
  destruct Hu as [raw' [Eraw [Hl Hv]]].
  rewrite Hraw in Eraw. injection Eraw as <-.
  rewrite Hloads in Hl. injection Hl as <-.
  apply (Hrej user_info). apply AppFacts.validate_accepts. auto.
Qed.

Lemma missing_field_rejected ext d key :
  In key ["name"; "age"; "gender"] ->
  (forall v, ~ In (text key, v) d) ->
  forall u, validate_user_info ext (JObj d) <> Ret u.
Proof.
  intros Hkey Hmiss u Hu. apply AppFacts.validate_accepts in Hu.
  destruct Hu as [_ [d' [name [age [gender
                    [Ed [En [Hn [Ea [Hage [Eg Hg]]]]]]]]]]].
  injection Ed as <-.
  destruct Hkey as [<- | [<- | [<- | []]]].
  - rewrite (dict_get_missing d _ _ Hmiss) in En. injection En as <-.
    apply Hn. reflexivity.
  - rewrite (dict_get_missing d _ _ Hmiss) in Ea. cbn [py_int] in Ea.
    injection Ea as <-. lia.
  - rewrite (dict_get_missing d _ _ Hmiss) in Eg. injection Eg as <-.
    apply empty_not_a_gender. exact Hg.
Qed.

(** X12.  The three fields are all required, and the document must be an
    object.  A parsed document that is not a JSON object, or an object
    that lacks one of the keys [name], [age], [gender], is answered with
    the 400 error for invalid user information, whatever else it holds,
    and the request changes nothing. *)
Theorem all_three_fields_are_required
        (ext : Externals) (req : Request) (w : World)
        (raw : pystr) (user_info : json) :
  file_truthy (files_spiral req) = true ->
  file_truthy (files_wave req) = true ->
  form_user_info req = Some raw ->
  json_loads ext raw = Ret user_info ->
  (forall d, user_info <> JObj d)
  \/ (exists d key,
        user_info = JObj d
        /\ In key ["name"; "age"; "gender"]
        /\ forall v, ~ In (text key, v) d) ->
  analyze ext req w
  = (Ret (mkResponse 400 "error" invalid_user_info None), w).
Proof.
  intros Hs Hw Hraw Hloads Hbad.
  apply (rejected_gives_400 ext req w raw user_info); try assumption.
  destruct Hbad as [Hobj | [d [key [-> [Hkey Hmiss]]]]].
  - intros u Hu. apply AppFacts.validate_accepts in Hu.
    destruct Hu as [_ [d [_ [_ [_ [Ed _]]]]]]. apply (Hobj d Ed).
  - apply (missing_field_rejected ext d key Hkey Hmiss).
Qed.

Lemma all_three_fields_are_required_witness :
  analyze (with_json_loads
             (JObj [ (text "name", JStr (text "Ann"));
                     (text "age", JInt 30) ])
             Demo.ext)
          (Demo.request (Some (text "{}"))) Demo.world_serving
  = (Ret (mkResponse 400 "error" invalid_user_info None),
     Demo.world_serving).
Proof.
  apply (all_three_fields_are_required
           (with_json_loads
              (JObj [ (text "name", JStr (text "Ann"));
                      (text "age", JInt 30) ])
              Demo.ext)
           (Demo.request (Some (text "{}"))) Demo.world_serving
           (text "{}")
           (JObj [ (text "name", JStr (text "Ann"));
                   (text "age", JInt 30) ])).
  - reflexivity.
  - reflexivity.
  - reflexivity.
  - reflexivity.
  - right. exists [ (text "name", JStr (text "Ann"));
                    (text "age", JInt 30) ], "gender".
    split; [reflexivity |]. split; [right; right; left; reflexivity |].
    intros v [H | [H | []]]; apply (f_equal fst) in H;
      vm_compute in H; discriminate H.
Defined.

(** X13.  The name must be a string with at least one character that is
    not white space: a document is accepted only if its name is such a
    string, and a name made of blanks only (spaces, tabs, line breaks,
    no-break spaces) is rejected whatever the age and the gender. *)
Theorem name_needs_a_visible_character
        (ext : Externals) (user_info : json) :
  (forall u, validate_user_info ext user_info = Ret u ->
     exists d name c,
       user_info = JObj d
       /\ dict_get d (text "name") (JStr []) = JStr name
       /\ In c name /\ is_space c = false)
  /\ (forall d name,
        user_info = JObj d ->
        dict_get d (text "name") (JStr []) = JStr name ->
        forallb is_space name = true ->
        forall u, validate_user_info ext user_info <> Ret u).
Proof.
  split.
  - intros u Hu. apply AppFacts.validate_accepts in Hu.
    destruct Hu as [_ [d [name [_ [_ [Ed [En [Hn _]]]]]]]].
    assert (Hvis : forallb is_space name <> true).
    { intros H. apply Hn, strip_nil, H. }
    apply not_all_space in Hvis. destruct Hvis as [c [Hc Ec]].
    exists d, name, c. auto.
  - intros d name -> En Hblank u Hu.
    apply AppFacts.validate_accepts in Hu.
    destruct Hu as [_ [d' [name' [_ [_ [Ed [En' [Hn _]]]]]]]].
    injection Ed as <-. rewrite En in En'. injection En' as <-.
    apply Hn, strip_nil, Hblank.
Qed.

Lemma name_needs_a_visible_character_witness :
  validate_user_info Demo.ext
    (Demo.person [32; 9; 160; 10]%N 30 (text "Male"))
  <> Ret (Demo.person [32; 9; 160; 10]%N 30 (text "Male")).
Proof.
  apply (proj2 (name_needs_a_visible_character Demo.ext
                  (Demo.person [32; 9; 160; 10]%N 30 (text "Male")))
               _ [32; 9; 160; 10]%N eq_refl).
  - reflexivity.
  - reflexivity.
Defined.

End ValidationMore.

(** ** The [/analyze] endpoint: uploads that cannot be read, models that
    cannot be loaded, the run that succeeds, and what a request leaves of
    the loader *)

Module AppMore.
Import App.
Local Open Scope string_scope.
Local Open Scope list_scope.

Lemma truthy_of_named (f : FileStorage) :
  filename f <> [] -> file_truthy (Some f) = true.
Proof.
  unfold file_truthy. destruct (filename f); [congruence | reflexivity].
Qed.

(** X14.  When either saved upload cannot be decoded as an image, the
    answer is the 400 error for unreadable images, and the uploads have
    replaced the earlier ones on disk all the same: both files are saved
    and both are read before either result is checked.  The report
    slot, the loader and the clock are as they were, and no model has
    been called. *)
Theorem undecodable_upload_is_rejected
        (ext : Externals) (req : Request) (w : World)
        (spiral_file wave_file : FileStorage) (u : json) :
  files_spiral req = Some spiral_file -> filename spiral_file <> [] ->
  files_wave req = Some wave_file -> filename wave_file <> [] ->
  parse_user_info ext (form_user_info req) = Ret u ->
  cv_imdecode ext (content spiral_file) = None
  \/ cv_imdecode ext (content wave_file) = None ->
  analyze ext req w
  = (Ret (mkResponse 400 "error" unreadable_images None),
     mkWorld (loader w)
             (mkFS (Some (content spiral_file)) (Some (content wave_file))
                   (report_slot (fs w)))
             (trace w ++ [ ESave spiral_path; ESave wave_path;
                           EImread spiral_path; EImread wave_path ])
             (clock w) (ticks w)).
Proof.
  intros Hs Hsn Hw Hwn Hu Hbad.
  apply wp_exact.
  unfold analyze. apply wp_try. unfold analyze_try. cbv zeta.
  rewrite Hs, Hw, Hu.
  rewrite (truthy_of_named _ Hsn), (truthy_of_named _ Hwn).
  cbn [negb orb].
  unfold save_spiral, save_wave, imread_spiral, imread_wave.
  wp_steps;
    try (exfalso; destruct Hbad as [Hbad | Hbad]; congruence);
    (split; [reflexivity |]);
    (apply world_ext; world_simpl; try reflexivity;
     rewrite <- !app_assoc; reflexivity).
Qed.

Lemma undecodable_upload_is_rejected_witness :
  analyze Demo.ext
          (mkRequest (Some (mkFile (text "spiral.png") []))
                     (Some Demo.png) (Some Demo.doc_ann))
          Demo.world_serving
  = (Ret (mkResponse 400 "error" unreadable_images None),
     mkWorld (loader Demo.world_serving)
             (mkFS (Some []) (Some (content Demo.png))
                   (Some Demo.old_report))
             [ ESave spiral_path; ESave wave_path;
               EImread spiral_path; EImread wave_path ]
             Demo.clock0 0).
Proof.
  apply (undecodable_upload_is_rejected
           Demo.ext
           (mkRequest (Some (mkFile (text "spiral.png") []))
                      (Some Demo.png) (Some Demo.doc_ann))
           Demo.world_serving
           (mkFile (text "spiral.png") []) Demo.png Demo.json_ann).
  - reflexivity.
  - vm_compute. discriminate.
  - reflexivity.
  - vm_compute. discriminate.
  - vm_compute. reflexivity.
  - left. reflexivity.
Defined.

(** *** Models that cannot be loaded when a request arrives *)

Lemma generate_report_without_models ext spiral_img wave_img user_info w :
  models_loaded (loader w) = false ->
  ModelLoader.some_file_missing ext ->
  wp (Report.generate_report ext spiral_img wave_img user_info) w
     (fun _ _ => False)
     (fun e w' => e = ModelLoader.failed_to_load
                  /\ ModelLoader.unloaded (loader w')
                  /\ fs w' = fs w).
Proof.
  intros Hflag Hmiss.
  destruct (ModelLoaderFacts.load_fails_without_files ext w Hflag Hmiss)
    as [w1 E].
  pose proof (ModelLoaderFacts.get_spiral_model_lazy ext w false w1 Hflag E)
    as G. cbn iota in G.
  pose proof (ModelLoaderFacts.load_models_spec ext w) as S.
  unfold wp in S. rewrite E in S. destruct S as [[Ffs _] _].
  unfold Report.generate_report.
  destruct (ImageProcessor.prepare_image_for_prediction ext spiral_img false)
    as [spiral_input spiral_processed].
  destruct (ImageProcessor.prepare_image_for_prediction ext wave_img true)
    as [wave_input wave_processed].
  apply wp_bind. eapply wp_of_raise; [exact G |].
  split; [reflexivity |].
  split; [exact (ModelLoaderFacts.load_failure_unloads ext w w1 E) |].
  exact Ffs.
Qed.

(** X15.  When a request arrives at a loader whose models are not loaded
    and a required model file is missing, the lazy load of the report
    generator fails and the endpoint answers with status 500 and the
    message [Failed to load models].  The uploads are on disk by then;
    the report slot is as it was, and the loader holds no model. *)
Theorem request_without_models_gives_500
        (ext : Externals) (req : Request) (w : World)
        (spiral_file wave_file : FileStorage) (u : json)
        (spiral_img wave_img : bgr_image) :
  files_spiral req = Some spiral_file -> filename spiral_file <> [] ->
  files_wave req = Some wave_file -> filename wave_file <> [] ->
  parse_user_info ext (form_user_info req) = Ret u ->
  cv_imdecode ext (content spiral_file) = Some spiral_img ->
  cv_imdecode ext (content wave_file) = Some wave_img ->
  models_loaded (loader w) = false ->
  ModelLoader.some_file_missing ext ->
  exists w',
    analyze ext req w
    = (Ret (mkResponse 500 "error" (text "Failed to load models") None),
       w')
    /\ fs w' = mkFS (Some (content spiral_file))
                    (Some (content wave_file)) (report_slot (fs w))
    /\ ModelLoader.unloaded (loader w').
Proof.
  intros Hs Hsn Hw Hwn Hu Hd1 Hd2 Hflag Hmiss.
  assert (S : wp (analyze ext req) w
                 (fun resp w' =>
                    resp = mkResponse 500 "error"
                                      (text "Failed to load models") None
                    /\ fs w' = mkFS (Some (content spiral_file))
                                    (Some (content wave_file))
                                    (report_slot (fs w))
                    /\ ModelLoader.unloaded (loader w'))
                 (fun _ _ => False)).
  { unfold analyze. apply wp_try. unfold analyze_try. cbv zeta.
    rewrite Hs, Hw, Hu.
    rewrite (truthy_of_named _ Hsn), (truthy_of_named _ Hwn).
    cbn [negb orb].
    unfold save_spiral, save_wave, imread_spiral, imread_wave.
    wp_steps; try congruence.
    eapply wp_conseq;
      [apply generate_report_without_models;
       [world_simpl; exact Hflag | exact Hmiss] | |]; cbv beta.
    - intros _ _ [].
    - intros e w' [-> [Hun Hfs]]. world_simpl_in Hfs.
      unfold analyze_except. wp_steps.
      split; [reflexivity |]. split; [exact Hfs | exact Hun]. }
  destruct (wp_run _ _ _ _ S) as [[resp [w' [E [-> H]]]] | [e [w' [_ []]]]].
  exists w'. split; [exact E | exact H].
Qed.

Lemma request_without_models_gives_500_witness :
  exists w',
    analyze Demo.ext_no_files (Demo.request (Some Demo.doc_ann)) Demo.world0
    = (Ret (mkResponse 500 "error" (text "Failed to load models") None),
       w')
    /\ fs w' = mkFS (Some (content Demo.png)) (Some (content Demo.png))
                    (report_slot (fs Demo.world0))
    /\ ModelLoader.unloaded (loader w').
Proof.
  apply (request_without_models_gives_500
           Demo.ext_no_files (Demo.request (Some Demo.doc_ann)) Demo.world0
           Demo.png Demo.png Demo.json_ann
           [[(137, 137, 137)]]%Z [[(137, 137, 137)]]%Z).
  - reflexivity.
  - vm_compute. discriminate.
  - reflexivity.
  - vm_compute. discriminate.
  - vm_compute. reflexivity.
  - reflexivity.
  - reflexivity.
  - reflexivity.
  - exact ModelLoaderFacts.demo_file_missing.
Defined.

(** *** The run that succeeds *)

(** [generate_report] on a loader whose models are loaded, when every
    library call returns. *)
Lemma generate_report_loaded
      ext spiral_img wave_img user_info w
      (sm wm : Model)
      (spiral_input wave_input : GradCam.tensor2)
      (spiral_processed wave_processed : gray_image)
      (p_s p_w : Q) (sg wg : GradCam.tensor3 * GradCam.tensor3)
      (spiral_overlay wave_overlay : bgr_image) :
  models_loaded (loader w) = true ->
  spiral_model (loader w) = Some sm ->
  wave_model (loader w) = Some wm ->
  ImageProcessor.prepare_image_for_prediction ext spiral_img false
  = (spiral_input, spiral_processed) ->
  ImageProcessor.prepare_image_for_prediction ext wave_img true
  = (wave_input, wave_processed) ->
  keras_predict ext sm spiral_input = Ret p_s ->
  keras_predict ext wm wave_input = Ret p_w ->
  tf_feature_maps_and_gradients ext sm (spiral_last_conv (loader w))
                                spiral_input = Ret sg ->
  tf_feature_maps_and_gradients ext wm (wave_last_conv (loader w))
                                wave_input = Ret wg ->
  ImageProcessor.overlay_heatmap
    ext (GradCam.make_spiral_gradcam (fst sg) (snd sg))
    spiral_processed None false = Ret spiral_overlay ->
  ImageProcessor.overlay_heatmap
    ext (GradCam.make_wave_gradcam (fst wg) (snd wg))
    wave_processed None true = Ret wave_overlay ->
  Report.generate_report ext spiral_img wave_img user_info w
  = (Ret (Report.render_report ext spiral_processed wave_processed
                               spiral_overlay wave_overlay
                               (Fusion.fuse p_s p_w) user_info
                               (clock w (ticks w))
                               (clock w (S (ticks w)))),
     mkWorld (loader w) (fs w)
             (trace w ++ [ EPredict 256 256; EPredict 250 550;
                           EGradients (spiral_last_conv (loader w));
                           EGradients (wave_last_conv (loader w));
                           EOverlay; EOverlay ])
             (clock w) (S (S (ticks w)))).
Proof.
  intros Hflag Hsm Hwm Hps Hpw Hp1 Hp2 Hg1 Hg2 Ho1 Ho2.
  apply wp_exact. unfold Report.generate_report.
  rewrite Hps, Hpw.
  apply wp_bind.
  eapply wp_of_run;
    [apply ModelLoaderFacts.get_spiral_model_loaded, Hflag |].
  apply wp_bind.
  eapply wp_of_run;
    [apply ModelLoaderFacts.get_wave_model_loaded, Hflag |].
  rewrite Hsm, Hwm. unfold Report.with_model.
  unfold ModelLoader.get_last_conv_layer.
  repeat (first [wp_known | wp_step]; world_simpl).
  split; [reflexivity |].
  apply world_ext; world_simpl; try reflexivity.
  rewrite <- !app_assoc. reflexivity.
Qed.

(** X16.  The run that succeeds.  With the models loaded, both drawings
    uploaded and decodable, a valid user info, and every library call
    returning, the endpoint answers 200 with the address of the report,
    and the report slot holds the encoding of the report rendered from
    the two processed drawings, their overlays, the fusion of the two
    scores, the parsed user info and two successive readings of the
    clock.  The models are called in a fixed order, spiral before wave,
    and the loader is as it was. *)
Theorem successful_request
        (ext : Externals) (req : Request) (w : World)
        (spiral_file wave_file : FileStorage) (u : json)
        (spiral_img wave_img : bgr_image) (sm wm : Model)
        (spiral_input wave_input : GradCam.tensor2)
        (spiral_processed wave_processed : gray_image)
        (p_s p_w : Q) (sg wg : GradCam.tensor3 * GradCam.tensor3)
        (spiral_overlay wave_overlay : bgr_image) (bytes : list N) :
  files_spiral req = Some spiral_file -> filename spiral_file <> [] ->
  files_wave req = Some wave_file -> filename wave_file <> [] ->
  parse_user_info ext (form_user_info req) = Ret u ->
  cv_imdecode ext (content spiral_file) = Some spiral_img ->
  cv_imdecode ext (content wave_file) = Some wave_img ->
  models_loaded (loader w) = true ->
  spiral_model (loader w) = Some sm ->
  wave_model (loader w) = Some wm ->
  ImageProcessor.prepare_image_for_prediction ext spiral_img false
  = (spiral_input, spiral_processed) ->
  ImageProcessor.prepare_image_for_prediction ext wave_img true
  = (wave_input, wave_processed) ->
  keras_predict ext sm spiral_input = Ret p_s ->
  keras_predict ext wm wave_input = Ret p_w ->
  tf_feature_maps_and_gradients ext sm (spiral_last_conv (loader w))
                                spiral_input = Ret sg ->
  tf_feature_maps_and_gradients ext wm (wave_last_conv (loader w))
                                wave_input = Ret wg ->
  ImageProcessor.overlay_heatmap
    ext (GradCam.make_spiral_gradcam (fst sg) (snd sg))
    spiral_processed None false = Ret spiral_overlay ->
  ImageProcessor.overlay_heatmap
    ext (GradCam.make_wave_gradcam (fst wg) (snd wg))
    wave_processed None true = Ret wave_overlay ->
  text_encode ext
    (Report.render_report ext spiral_processed wave_processed
                          spiral_overlay wave_overlay
                          (Fusion.fuse p_s p_w) (user_info_dict u)
                          (clock w (ticks w)) (clock w (S (ticks w))))
  = Some bytes ->
  analyze ext req w
  = (Ret (mkResponse 200 "success" (text "Analysis complete")
                     (Some "/static/reports/report.html")),
     mkWorld (loader w)
             (mkFS (Some (content spiral_file)) (Some (content wave_file))
                   (Some bytes))
             (trace w ++ [ ESave spiral_path; ESave wave_path;
                           EImread spiral_path; EImread wave_path;
                           EPredict 256 256; EPredict 250 550;
                           EGradients (spiral_last_conv (loader w));
                           EGradients (wave_last_conv (loader w));
                           EOverlay; EOverlay;
                           EOpenForWriting report_path;
                           EWrite report_path ])
             (clock w) (S (S (ticks w)))).
Proof.
  intros Hs Hsn Hw Hwn Hu Hd1 Hd2 Hflag Hsm Hwm Hps Hpw Hp1 Hp2 Hg1 Hg2
         Ho1 Ho2 Henc.
  apply wp_exact.
  unfold analyze. apply wp_try. unfold analyze_try. cbv zeta.
  rewrite Hs, Hw, Hu.
  rewrite (truthy_of_named _ Hsn), (truthy_of_named _ Hwn).
  cbn [negb orb].
  unfold save_spiral, save_wave, imread_spiral, imread_wave.
  wp_steps; try congruence.
  assert (b = spiral_img) by congruence.
  assert (b0 = wave_img) by congruence. subst b b0.
  eapply wp_of_run.
  { apply (generate_report_loaded
             ext spiral_img wave_img (user_info_dict u) _ sm wm
             spiral_input wave_input spiral_processed wave_processed
             p_s p_w sg wg spiral_overlay wave_overlay);
      world_simpl; assumption. }
  world_simpl.
  unfold write_report, set_report_slot.
  do 6 (wp_step; world_simpl).
  rewrite Henc.
  wp_steps.
  split; [reflexivity |].
  apply world_ext; world_simpl; try reflexivity.
  rewrite <- !app_assoc. reflexivity.
Qed.

Lemma successful_request_witness :
  exists bytes,
    analyze Demo.ext (Demo.request (Some Demo.doc_ann)) Demo.world_serving
    = (Ret (mkResponse 200 "success" (text "Analysis complete")
                       (Some "/static/reports/report.html")),
       mkWorld (loader Demo.world_serving)
               (mkFS (Some (content Demo.png)) (Some (content Demo.png))
                     (Some bytes))
               [ ESave spiral_path; ESave wave_path;
                 EImread spiral_path; EImread wave_path;
                 EPredict 256 256; EPredict 250 550;
                 EGradients "conv2d_3"; EGradients "convo_3";
                 EOverlay; EOverlay;
                 EOpenForWriting report_path; EWrite report_path ]
               Demo.clock0 2).
Proof.
  eexists.
  apply (successful_request
           Demo.ext (Demo.request (Some Demo.doc_ann)) Demo.world_serving
           Demo.png Demo.png Demo.json_ann
           [[(137, 137, 137)]]%Z [[(137, 137, 137)]]%Z
           (KerasModel 1) (KerasModel 2)
           (fst (ImageProcessor.prepare_image_for_prediction
                   Demo.ext [[(137, 137, 137)]]%Z false))
           (fst (ImageProcessor.prepare_image_for_prediction
                   Demo.ext [[(137, 137, 137)]]%Z true))
           (snd (ImageProcessor.prepare_image_for_prediction
                   Demo.ext [[(137, 137, 137)]]%Z false))
           (snd (ImageProcessor.prepare_image_for_prediction
                   Demo.ext [[(137, 137, 137)]]%Z true))
           (8 # 10) (4 # 10)
           ([[[1; 2]; [3; 4]]]%Q, [[[1; -1]; [1; 1]]]%Q)
           ([[[1; 2]; [3; 4]]]%Q, [[[1; -1]; [1; 1]]]%Q)
           (map (map (fun v => (v, v, v)))
                (snd (ImageProcessor.prepare_image_for_prediction
                        Demo.ext [[(137, 137, 137)]]%Z false)))
           (map (map (fun v => (v, v, v)))
                (snd (ImageProcessor.prepare_image_for_prediction
                        Demo.ext [[(137, 137, 137)]]%Z true)))).
  - reflexivity.
  - vm_compute. discriminate.
  - reflexivity.
  - vm_compute. discriminate.
  - vm_compute. reflexivity.
  - reflexivity.
  - reflexivity.
  - reflexivity.
  - reflexivity.
  - reflexivity.
  - apply surjective_pairing.
  - apply surjective_pairing.
  - reflexivity.
  - reflexivity.
  - reflexivity.
  - reflexivity.
  - reflexivity.
  - reflexivity.
  - vm_compute. reflexivity.
Defined.

(** *** What a request leaves of the loader *)

Lemma generate_report_keeps_loader ext spiral_img wave_img user_info w :
  models_loaded (loader w) = true ->
  wp (Report.generate_report ext spiral_img wave_img user_info) w
     (fun _ w' => loader w' = loader w /\ fs w' = fs w)
     (fun _ w' => loader w' = loader w /\ fs w' = fs w).
Proof.
  intros Hflag. unfold Report.generate_report.
  destruct (ImageProcessor.prepare_image_for_prediction ext spiral_img false)
    as [spiral_input spiral_processed].
  destruct (ImageProcessor.prepare_image_for_prediction ext wave_img true)
    as [wave_input wave_processed].
  apply wp_bind.
  eapply wp_of_run;
    [apply ModelLoaderFacts.get_spiral_model_loaded, Hflag |].
  apply wp_bind.
  eapply wp_of_run;
    [apply ModelLoaderFacts.get_wave_model_loaded, Hflag |].
  unfold Report.with_model.
  wp_steps; split; reflexivity.
Qed.

Lemma analyze_keeps_loader ext req w :
  models_loaded (loader w) = true ->
  loader (snd (analyze ext req w)) = loader w.
Proof.
  intros Hflag.
  assert (S : wp (analyze ext req) w
                 (fun _ w' => loader w' = loader w)
                 (fun _ w' => loader w' = loader w)).
  { unfold analyze. apply wp_try.
    assert (T : wp (analyze_try ext req) w
                   (fun _ w' => loader w' = loader w)
                   (fun _ w' => loader w' = loader w)).
    { unfold analyze_try. cbv zeta.
      destruct (negb (file_truthy (files_spiral req))
                || negb (file_truthy (files_wave req)));
        [wp_steps; reflexivity |].
      destruct (parse_user_info ext (form_user_info req)) as [u | e];
        [| wp_steps; reflexivity].
      destruct (files_spiral req) as [spiral_file |];
        [| wp_steps; reflexivity].
      destruct (files_wave req) as [wave_file |];
        [| wp_steps; reflexivity].
      unfold save_spiral, save_wave, imread_spiral, imread_wave.
      wp_steps; try reflexivity.
      eapply wp_conseq;
        [apply generate_report_keeps_loader; world_simpl; exact Hflag
        | | ]; cbv beta.
      - intros html w1 [Hl _]. world_simpl_in Hl.
        unfold write_report, set_report_slot.
        wp_steps; exact Hl.
      - intros e w1 [Hl _]. world_simpl_in Hl. exact Hl. }
    eapply wp_conseq; [exact T | |]; cbv beta.
    - intros resp w' H. exact H.
    - intros e w' H. unfold analyze_except. wp_steps. exact H. }
  unfold wp in S. destruct (analyze ext req w) as [[resp | e] w']; exact S.
Qed.

(** X17.  Requests never change models that are loaded.  Once the flag
    is set, whatever requests the server answers, valid or not,
    successful or failing, the loader is afterwards exactly as it was:
    the same two models, the same layer names, the flag still set; so
    no request makes a later one fail for want of a model. *)
Theorem requests_keep_the_loaded_models
        (ext : Externals) (reqs : list Request) (w : World) :
  models_loaded (loader w) = true ->
  loader (serve ext reqs w) = loader w
  /\ ModelLoader.get_spiral_model ext (serve ext reqs w)
     = (Ret (spiral_model (loader w)), serve ext reqs w)
  /\ ModelLoader.get_wave_model ext (serve ext reqs w)
     = (Ret (wave_model (loader w)), serve ext reqs w).
Proof.
  intros Hflag.
  assert (H : loader (serve ext reqs w) = loader w).
  { revert w Hflag. induction reqs as [| req reqs IH]; intros w Hflag.
    - reflexivity.
    - cbn [serve]. pose proof (analyze_keeps_loader ext req w Hflag) as K.
      rewrite IH; [exact K |]. rewrite K. exact Hflag. }
  split; [exact H |].
  rewrite <- H.
  split.
  - apply ModelLoaderFacts.get_spiral_model_loaded. rewrite H. exact Hflag.
  - apply ModelLoaderFacts.get_wave_model_loaded. rewrite H. exact Hflag.
Qed.

Lemma requests_keep_the_loaded_models_witness :
  loader (serve Demo.ext
                [ Demo.request (Some Demo.doc_ann);
                  Demo.request (Some (text "not json"));
                  Demo.request (Some Demo.doc_surrogate) ]
                Demo.world_serving)
  = loader Demo.world_serving.
Proof.
  apply (requests_keep_the_loaded_models
           Demo.ext
           [ Demo.request (Some Demo.doc_ann);
             Demo.request (Some (text "not json"));
             Demo.request (Some Demo.doc_surrogate) ]
           Demo.world_serving).
  reflexivity.
Defined.

End AppMore.

(** ** The report: the user's name in the document *)

Module ReportMore.
Import Report.
Local Open Scope string_scope.
Local Open Scope list_scope.

(** The template begins with a literal, the date, a literal that ends
    with the label of the name, the name, and a literal that begins by
    closing the element. *)
Lemma template_head :
  exists a b c rest b1 c2,
    parse_fstring None (unquote report_template)
    = Lit a :: Hole "datetime.now().strftime('%B %d, %Y')"
        :: Lit b :: Hole "name" :: Lit c :: rest
    /\ text b = b1 ++ text "<strong>Name:</strong> "
    /\ text c = text "</div>" ++ c2.
Proof.
  let v := eval vm_compute in (parse_fstring None (unquote report_template))
  in lazymatch v with
     | Lit ?a :: Hole _ :: Lit ?b :: Hole _ :: Lit ?c :: ?rest =>
       exists a, b, c, rest,
         (firstn (List.length (text b) - 23) (text b)),
         (skipn 6 (text c))
     end.
  split; [vm_compute; reflexivity |].
  split; vm_compute; reflexivity.
Qed.

(** X18.  The name of the user info is put into the report exactly as it
    was sent, between the label of the name and the end of its element:
    no character of it is escaped or removed, so markup in a name is
    markup of the report. *)
Theorem name_is_inserted_verbatim
        (ext : Externals) (spiral_processed wave_processed : gray_image)
        (spiral_overlay wave_overlay : bgr_image)
        (fused : Fusion.FusedResult) (d : dict) (s : pystr)
        (t_file t_header : datetime) :
  d <> [] ->
  dict_get d (text "name") (JStr []) = JStr s ->
  exists pre post,
    render_report ext spiral_processed wave_processed
                  spiral_overlay wave_overlay fused (Some d)
                  t_file t_header
    = pre ++ text "<strong>Name:</strong> " ++ s ++ text "</div>" ++ post.
Proof.
  intros Hd Hs.
  assert (Hname : py_str ext (info_field (Some d) "name") = s).
  { destruct d as [| p d]; [congruence |].
    cbn [info_field]. rewrite Hs. reflexivity. }
  destruct template_head as [a [b [c [rest [b1 [c2 [E [Hb Hc]]]]]]]].
  unfold render_report. cbv zeta. unfold fstring. rewrite E.
  match goal with
  | |- context [fill ?bs _] => set (bindings := bs)
  end.
  assert (L : lookup "name" bindings
              = Some (py_str ext (info_field (Some d) "name")))
    by reflexivity.
  change (fill bindings
               (Lit a :: Hole "datetime.now().strftime('%B %d, %Y')"
                  :: Lit b :: Hole "name" :: Lit c :: rest))
    with (text a
          ++ match lookup "datetime.now().strftime('%B %d, %Y')" bindings
             with Some v => v | None => [] end
          ++ text b
          ++ match lookup "name" bindings with Some v => v | None => [] end
          ++ text c ++ fill bindings rest).
  rewrite L, Hname, Hb, Hc.
  exists (text a
          ++ match lookup "datetime.now().strftime('%B %d, %Y')" bindings
             with Some v => v | None => [] end
          ++ b1),
         (c2 ++ fill bindings rest).
  rewrite <- !app_assoc. reflexivity.
Qed.

Lemma name_is_inserted_verbatim_witness :
  exists pre post,
    render_report Demo.ext Demo.gray0 Demo.gray0 Demo.overlay0 Demo.overlay0
                  (Fusion.fuse (8 # 10) (4 # 10))
                  (Some [ (text "name", JStr (text "<img src=x>")) ])
                  (mkDatetime 2024 3 15 10 30 0 0)
                  (mkDatetime 2024 3 15 10 30 0 1)
    = pre ++ text "<strong>Name:</strong> " ++ text "<img src=x>"
          ++ text "</div>" ++ post.
Proof.
  apply (name_is_inserted_verbatim
           Demo.ext Demo.gray0 Demo.gray0 Demo.overlay0 Demo.overlay0
           (Fusion.fuse (8 # 10) (4 # 10))
           [ (text "name", JStr (text "<img src=x>")) ]
           (text "<img src=x>")).
  - discriminate.
  - reflexivity.
Defined.

End ReportMore.
